(** * Repository browser: URL parser, token storage, forge API client,
    content fetch chain and tree builder of [src/services/github.ts], the
    analysis and documentation prompts of the language model service, and
    the handlers of the application component.

    Conventions of the embedding.
    - A JavaScript string is a [string]: a sequence of code units, here the
      code units below 256.
    - Functions of the host (the [URL] constructor, [localeCompare], [atob],
      [TextDecoder], the messages of the engine's errors, the gateway of the
      language model) are not code of the repository: each section takes
      the ones it calls as [Variable]s, and a theorem states what it asks of
      them.
    - The nodes that [buildTreeStructure] makes are shared objects: they
      live in a heap, and the result is read back from it.
    - A promise that rejects and a [throw] are the same thing to [await]:
      both are the [Throw] outcome of a program.
    - A function of the component reads the state of the render that made
      it, its [render] argument, and its state setters act on the state at
      the time of the call.
    - [localStorage] is a map from keys to strings that is always there.
    - [console.log], [console.warn] and [console.error] only write to the
      console and are left out. *)

From stdpp Require Import base tactics option list strings gmap pretty sorting.
From Stdlib Require Import Ascii SpecFloat.
From Stdlib Require String.

(** ** JavaScript strings *)

Module JS.

(** [String.prototype.startsWith]. *)
Definition startsWith (s pre : string) : bool := String.prefix pre s.

(** [String.prototype.endsWith]: the last [length suf] code units of [s]
    are [suf]. *)
Definition endsWith (s suf : string) : bool :=
  (String.length suf <=? String.length s)%nat
  && String.eqb (String.substring (String.length s - String.length suf) (String.length suf) s) suf.

(** [String.prototype.includes]: [needle] starts at some position of [s]. *)
Fixpoint includes (s needle : string) : bool :=
  String.prefix needle s
  || match s with
     | EmptyString => false
     | String _ s' => includes s' needle
     end.

(** [s.slice(0, -n)] for [n > 0]: everything but the last [n] code units
    (the empty string when [s] is shorter). *)
Definition slice_to_end_minus (s : string) (n : nat) : string :=
  String.substring 0 (String.length s - n) s.

(** White space and line terminators of ECMAScript among the code units
    below 256: TAB, LF, VT, FF, CR, SP and NBSP. *)
Definition isWhiteSpace (c : ascii) : bool :=
  match c with
  | "009" | "010" | "011" | "012" | "013" | " " | "160" => true
  | _ => false
  end%char.

Fixpoint trimStart (s : string) : string :=
  match s with
  | String c s' => if isWhiteSpace c then trimStart s' else s
  | EmptyString => EmptyString
  end.

Fixpoint trimEnd (s : string) : string :=
  match s with
  | String c s' =>
      match trimEnd s' with
      | EmptyString => if isWhiteSpace c then EmptyString else String c EmptyString
      | t => String c t
      end
  | EmptyString => EmptyString
  end.

(** [String.prototype.trim]. *)
Definition trim (s : string) : string := trimEnd (trimStart s).

(** [s.split(sep)] for a separator of one code unit. The result is never
    empty: the empty string splits into one empty part. *)
Fixpoint split (sep : ascii) (s : string) : list string :=
  match s with
  | EmptyString => [EmptyString]
  | String c s' =>
      if Ascii.eqb c sep then EmptyString :: split sep s'
      else match split sep s' with
           | part :: parts => String c part :: parts
           | [] => [String c EmptyString]
           end
  end.

(** [parts.join(sep)]. *)
Fixpoint join (sep : string) (parts : list string) : string :=
  match parts with
  | [] => EmptyString
  | [part] => part
  | part :: rest => part +:+ sep +:+ join sep rest
  end.

(** [Boolean(s)] for a string: every string but the empty one is truthy. *)
Definition truthy (s : string) : bool :=
  match s with EmptyString => false | _ => true end.

End JS.

(** ** URL parser *)

Module UrlParser.

(** What [parseRepoUrl] reads of a parsed [URL] object. *)
Record URLRecord := mkURL { hostname : string; pathname : string }.

Record RepoId := mkRepoId { owner : string; repo : string }.

#[global] Instance URLRecord_eq_dec : EqDecision URLRecord.
Proof. solve_decision. Defined.
#[global] Instance RepoId_eq_dec : EqDecision RepoId.
Proof. solve_decision. Defined.

Definition inRange (lo hi c : ascii) : bool :=
  (nat_of_ascii lo <=? nat_of_ascii c)%nat && (nat_of_ascii c <=? nat_of_ascii hi)%nat.

Definition isAlnum (c : ascii) : bool :=
  inRange "a" "z" c || inRange "A" "Z" c || inRange "0" "9" c.

(** The class [[a-zA-Z0-9-]]. *)
Definition ownerClass (c : ascii) : bool := isAlnum c || Ascii.eqb c "-".

(** The class [[a-zA-Z0-9-_.]]: after the range [0-9] the hyphen, the
    underscore and the dot stand for themselves. *)
Definition repoClass (c : ascii) : bool :=
  isAlnum c || Ascii.eqb c "-" || Ascii.eqb c "_" || Ascii.eqb c ".".

(** [cls+] at the head of [s]: the rest after the longest run of [cls], when
    the run is not empty. Neither class holds the slash that follows the
    first run, and the second run must reach the end, so the longest run is
    the only one that can match. *)
Fixpoint skipClass (cls : ascii → bool) (s : string) : string :=
  match s with
  | String c s' => if cls c then skipClass cls s' else s
  | EmptyString => EmptyString
  end.

Definition matchPlus (cls : ascii → bool) (s : string) : option string :=
  match s with
  | String c s' => if cls c then Some (skipClass cls s') else None
  | EmptyString => None
  end.

(** [/^[a-zA-Z0-9-]+\/[a-zA-Z0-9-_.]+$/.test(s)]. *)
Definition simplePattern_test (s : string) : bool :=
  match matchPlus ownerClass s with
  | Some (String "/"%char rest) =>
      match matchPlus repoClass rest with
      | Some EmptyString => true
      | _ => false
      end
  | _ => false
  end.

Section WithHost.

(** [new URL(s)]: [None] when the constructor throws. *)
Variable URL : string → option URLRecord.

(** The tail of [parseRepoUrl], from [new URL(url)] on; a throw of the
    constructor is caught by the function's [try] and gives [null]. *)
Definition parseFullUrl (url : string) : option RepoId :=
  match URL url with
  | None => None
  | Some urlObj =>
      if JS.includes (hostname urlObj) "github.com" then
        let pathParts := filter (λ p, JS.truthy p = true) (JS.split "/" (pathname urlObj)) in
        match pathParts with
        | o :: r :: _ => Some (mkRepoId o r)
        | _ => None
        end
      else None
  end.

(** The three preprocessing steps, in the order of the source. *)
Definition preprocess (input : string) : string :=
  let url := JS.trim input in
  let url := if JS.endsWith url ".git" then JS.slice_to_end_minus url 4 else url in
  let url := if JS.endsWith url "/" then JS.slice_to_end_minus url 1 else url in
  url.

Definition parseRepoUrl (input : string) : option RepoId :=
  let url := preprocess input in
  if simplePattern_test url then
    (* const [owner, repo] = url.split('/') *)
    match JS.split "/" url with
    | o :: r :: _ => Some (mkRepoId o r)
    | _ => None
    end
  else if negb (JS.startsWith url "http") then
    if JS.includes url "github.com" then parseFullUrl ("https://" +:+ url)
    else
      let parts := JS.split "/" url in
      match parts with
      | [o; r] => Some (mkRepoId o r)
      | _ => parseFullUrl url
      end
  else parseFullUrl url.

End WithHost.

(** A host [URL] constructor for the examples: the part of the WHATWG parser
    for [http://host/path] and [https://host/path] with a host of letters,
    digits, dots and hyphens and a path that ends at the first [?] or [#].
    A string with no such scheme and host is answered as unparsable. *)
Definition isHostChar (c : ascii) : bool := isAlnum c || Ascii.eqb c "-" || Ascii.eqb c ".".

Definition lowerChar (c : ascii) : ascii :=
  if inRange "A" "Z" c then ascii_of_nat (nat_of_ascii c + 32) else c.

Fixpoint mapString (f : ascii → ascii) (s : string) : string :=
  match s with
  | String c s' => String (f c) (mapString f s')
  | EmptyString => EmptyString
  end.

Fixpoint takeUntil (stop : ascii → bool) (s : string) : string :=
  match s with
  | String c s' => if stop c then EmptyString else String c (takeUntil stop s')
  | EmptyString => EmptyString
  end.

Fixpoint dropUntil (stop : ascii → bool) (s : string) : string :=
  match s with
  | String c s' => if stop c then s else dropUntil stop s'
  | EmptyString => EmptyString
  end.

Definition afterScheme (s : string) : option string :=
  if JS.startsWith s "https://" then Some (String.substring 8 (String.length s - 8) s)
  else if JS.startsWith s "http://" then Some (String.substring 7 (String.length s - 7) s)
  else None.

Definition URL_http (s : string) : option URLRecord :=
  match afterScheme s with
  | None => None
  | Some rest =>
      let isDelim c := Ascii.eqb c "/" || Ascii.eqb c "?" || Ascii.eqb c "#" in
      let host := takeUntil isDelim rest in
      let tail := dropUntil isDelim rest in
      let path := takeUntil (λ c, Ascii.eqb c "?" || Ascii.eqb c "#") tail in
      if JS.truthy host && (String.length (skipClass isHostChar host) =? 0)%nat then
        Some (mkURL (mapString lowerChar host)
                    (match path with EmptyString => "/" | _ => path end))
      else None
  end.

(** All code units of [s] are of the class [cls]. *)
Fixpoint allOf (cls : ascii → bool) (s : string) : bool :=
  match s with
  | String c s' => cls c && allOf cls s'
  | EmptyString => true
  end.

End UrlParser.

(** ** Forge API client *)

Module Http.

(** A JavaScript [Error]: what the code reads of one is its message. *)
Record Error := mkError { message : string }.

#[global] Instance Error_eq_dec : EqDecision Error.
Proof. solve_decision. Defined.

(** The result of a call, or of awaiting a promise. *)
Inductive Outcome (A : Type) : Type :=
| Return (a : A)
| Throw (e : Error).
Arguments Return {A} a.
Arguments Throw {A} e.

(** A value of [JSON.parse]. A number is an IEEE double. *)
#[warnings="-register-all"]
Inductive JSON : Type :=
| JNull
| JBool (b : bool)
| JNumber (x : spec_float)
| JString (s : string)
| JArray (items : list JSON)
| JObject (fields : list (string * JSON)).

(** What the client reads of a [Response]: [json] is what [response.json()]
    resolves to, or the error it rejects with. *)
Record Response := mkResponse {
  status : nat;
  statusText : string;
  json : Outcome JSON
}.

(** [response.ok]: the status is in the range 200-299. *)
Definition ok (r : Response) : bool :=
  (200 <=? status r)%nat && (status r <=? 299)%nat.

Definition RateLimitExceeded : Error :=
  mkError "GitHub API Rate Limit Exceeded. Please configure a Token in settings or wait an hour.".

Definition NotFoundOrPrivate : Error :=
  mkError "Repository not found or is private (Check your Token if private).".

Definition BadCredentials : Error :=
  mkError "Bad Credentials. Please check your GitHub Token in settings.".

(** The template [`GitHub API Error: ${status} ${statusText}`]. *)
Definition ApiError (st : nat) (text : string) : Error :=
  mkError ("GitHub API Error: " +:+ pretty st +:+ " " +:+ text).

Definition handleApiResponse (response : Response) : Outcome JSON :=
  if ok response then json response
  else if (status response =? 403)%nat || (status response =? 429)%nat then Throw RateLimitExceeded
  else if (status response =? 404)%nat then Throw NotFoundOrPrivate
  else if (status response =? 401)%nat then Throw BadCredentials
  else Throw (ApiError (status response) (statusText response)).

(** *** Asynchronous programs

    A program either is done, or awaits a request to the forge and goes on
    with its outcome: the response, or the error [fetch] rejects with.
    [githubFetch] adds the credential and the media type to the request;
    neither changes which requests a caller makes. *)
Inductive Async (A : Type) : Type :=
| Done (o : Outcome A)
| AwaitFetch (url : string) (k : Outcome Response → Async A).
Arguments Done {A} o.
Arguments AwaitFetch {A} url k.

Fixpoint bind {A B} (p : Async A) (f : A → Async B) : Async B :=
  match p with
  | Done (Return a) => f a
  | Done (Throw e) => Done (Throw e)
  | AwaitFetch url k => AwaitFetch url (λ r, bind (k r) f)
  end.

(** [try { p } catch (e) { h e }]. *)
Fixpoint tryCatch {A} (p : Async A) (h : Error → Async A) : Async A :=
  match p with
  | Done (Return a) => Done (Return a)
  | Done (Throw e) => h e
  | AwaitFetch url k => AwaitFetch url (λ r, tryCatch (k r) h)
  end.

Definition ret {A} (a : A) : Async A := Done (Return a).
Definition throw {A} (e : Error) : Async A := Done (Throw e).
Definition lift {A} (o : Outcome A) : Async A := Done o.

(** [await githubFetch(url)]. *)
Definition githubFetch (url : string) : Async Response :=
  AwaitFetch url (λ r, Done r).

#[global] Instance Async_bind : MBind Async := λ A B f p, bind p f.
#[global] Instance Async_ret : MRet Async := λ A a, ret a.

(** The forge: its answer to a request may depend on the requests made
    before (oldest first). *)
Definition Network := list string → string → Outcome Response.

(** Runs a program against a forge; the result comes with the requests made,
    oldest first. *)
Fixpoint run {A} (net : Network) (log : list string) (p : Async A) : Outcome A * list string :=
  match p with
  | Done o => (o, log)
  | AwaitFetch url k => run net (log ++ [url]) (k (net log url))
  end.

End Http.

(** ** Token storage and request headers *)

Module Auth.

Definition TOKEN_KEY : string := "github_pat".

(** [localStorage]: its items by key. *)
Definition Storage : Type := gmap string string.

Definition setGitHubToken (token : string) (storage : Storage) : Storage :=
  if JS.truthy token then <[TOKEN_KEY := token]> storage else storage.

(** [None] is [null]: no item of that key. *)
Definition getGitHubToken (storage : Storage) : option string := storage !! TOKEN_KEY.

Definition removeGitHubToken (storage : Storage) : Storage := delete TOKEN_KEY storage.

(** The [headers] object that [githubFetch] passes to [fetch], for the own
    properties [optionsHeaders] of a plain object [options.headers] (none
    when the caller gives no options): of two spread properties of one name
    the later one stays, and [Accept] comes last. *)
Definition requestHeaders (storage : Storage) (optionsHeaders : gmap string string) :
    gmap string string :=
  let token := getGitHubToken storage in
  let authorization : gmap string string :=
    match token with
    | Some t => if JS.truthy t then {[ "Authorization" := "Bearer " +:+ t ]} else ∅
    | None => ∅
    end in
  <["Accept" := "application/vnd.github.v3+json"]> (authorization ∪ optionsHeaders).

End Auth.

(** ** Content fetch fallback chain *)

Module ContentFetch.
Import Http.

Definition BASE_URL : string := "https://api.github.com".

(** [Boolean(v)] for a value of a payload. *)
Definition truthy (v : JSON) : bool :=
  match v with
  | JNull => false
  | JBool b => b
  | JNumber (S754_zero _) | JNumber S754_nan => false
  | JNumber _ => true
  | JString s => JS.truthy s
  | JArray _ | JObject _ => true
  end.

(** [v === s] for a value read from a payload ([None] is [undefined]) and a
    string [s]. *)
Definition strictEqualsString (v : option JSON) (s : string) : bool :=
  match v with
  | Some (JString s') => String.eqb s' s
  | _ => false
  end.

Definition isArray (v : JSON) : bool :=
  match v with JArray _ => true | _ => false end.

(** The field of an object made by [JSON.parse]: of two fields of one name,
    the later one stays. *)
Fixpoint field (k : string) (fields : list (string * JSON)) : option JSON :=
  match fields with
  | [] => None
  | (k', v) :: rest =>
      match field k rest with
      | Some later => Some later
      | None => if String.eqb k' k then Some v else None
      end
  end.

Section WithHost.

(** [atob]: the decoded binary string, or the error it throws. *)
Variable atob : string → Outcome string.
(** [new TextDecoder('utf-8').decode(bytes)]; it replaces what is not UTF-8
    and does not throw. *)
Variable utf8Decode : string → string.
(** The messages of the engine's [TypeError]s: for reading a property of
    [null], and for calling what is not a function. *)
Variable nullPropertyMessage : string.
Variable notFunctionMessage : string.

(** [data.k] for a property name [k] that is no index, not [length] and no
    name of a prototype ([content] and [encoding] below): only an object
    made by [JSON.parse] can have it, and [null] has no properties. [None]
    is [undefined]. *)
Definition getProp (data : JSON) (k : string) : Outcome (option JSON) :=
  match data with
  | JNull => Throw (mkError nullPropertyMessage)
  | JObject fields => Return (field k fields)
  | _ => Return None
  end.

(** [str.replace(/\n/g, '')]; only a string has a [replace] to call. *)
Fixpoint removeNewlines (s : string) : string :=
  match s with
  | String c s' => if Ascii.eqb c "010" then removeNewlines s' else String c (removeNewlines s')
  | EmptyString => EmptyString
  end.

Definition replaceNewlines (str : JSON) : Outcome string :=
  match str with
  | JString s => Return (removeNewlines s)
  | _ => Throw (mkError notFunctionMessage)
  end.

(** [decodeContent]: the bytes of the binary string are its code units. *)
Definition decodeContent (str : JSON) : Outcome string :=
  let attempt :=
    match replaceNewlines str with
    | Return s =>
        match atob s with
        | Return binaryString => Return (utf8Decode binaryString)
        | Throw e => Throw e
        end
    | Throw e => Throw e
    end in
  match attempt with
  | Return text => Return text
  | Throw _ =>
      (* catch (e) { return atob(str.replace(/\n/g, '')) } *)
      match replaceNewlines str with
      | Return s => atob s
      | Throw e => Throw e
      end
  end.

Definition contentsUrl (owner repo path ref : string) : string :=
  BASE_URL +:+ "/repos/" +:+ owner +:+ "/" +:+ repo +:+ "/contents/" +:+ path +:+ "?ref=" +:+ ref.

Definition blobUrl (owner repo sha : string) : string :=
  BASE_URL +:+ "/repos/" +:+ owner +:+ "/" +:+ repo +:+ "/git/blobs/" +:+ sha.

Definition rateLimited (r : Response) : bool :=
  (status r =? 403)%nat || (status r =? 429)%nat.

Definition RateLimit : Error := mkError "Rate Limit Exceeded".

Definition ContentUnavailable : Error :=
  mkError "Failed to fetch content (File too large or API limit reached).".

(** The [catch] of both strategies: a rate limit is thrown again, anything
    else is dropped. *)
Definition rethrowRateLimit {A} (e : Error) : Async (option A) :=
  if JS.includes (message e) "Rate Limit" then throw e else ret None.

(** Strategy 1, the contents API. [Some text] is a [return text] of the
    function, [None] is leaving the [try] statement. *)
Definition contentsStrategy (owner repo path ref : string) : Async (option string) :=
  tryCatch
    (response ← githubFetch (contentsUrl owner repo path ref);
     if ok response then
       data ← lift (json response);
       if isArray data then ret None
       else
         content ← lift (getProp data "content");
         match content with
         | Some c =>
             if truthy c then
               text ← lift (decodeContent c);
               ret (Some text)
             else ret None
         | None => ret None
         end
     else if rateLimited response then throw RateLimit
     else ret None)
    rethrowRateLimit.

(** Strategy 2, the blob API. *)
Definition blobStrategy (owner repo sha : string) : Async (option string) :=
  tryCatch
    (response ← githubFetch (blobUrl owner repo sha);
     if ok response then
       data ← lift (json response);
       content ← lift (getProp data "content");
       match content with
       | Some c =>
           if truthy c then
             encoding ← lift (getProp data "encoding");
             if strictEqualsString encoding "base64" then
               text ← lift (decodeContent c);
               ret (Some text)
             else ret None
           else ret None
       | None => ret None
       end
     else if rateLimited response then throw RateLimit
     else ret None)
    rethrowRateLimit.

(** What the blob strategy can end with, after the requests [log]: no
    result, an error with [Rate Limit] in its message, or content decoded
    from the [content] of the blob payload. *)
Definition blobResult (net : Network) (log : list string) (owner repo s : string)
    (o : Outcome (option string)) : Prop :=
  o = Return None
  ∨ (∃ e, o = Throw e ∧ JS.includes (message e) "Rate Limit" = true)
  ∨ (∃ response data c text,
       net log (blobUrl owner repo s) = Return response
       ∧ ok response = true
       ∧ json response = Return data
       ∧ getProp data "content" = Return (Some c)
       ∧ getProp data "encoding" = Return (Some (JString "base64"))
       ∧ decodeContent c = Return text
       ∧ o = Return (Some text)).

(** [sha] is the optional parameter: [None] when the caller left it out. *)
Definition fetchFileContent (owner repo path ref : string) (sha : option string) : Async string :=
  r1 ← contentsStrategy owner repo path ref;
  match r1 with
  | Some text => ret text
  | None =>
      r2 ← match sha with
            | Some s => if JS.truthy s then blobStrategy owner repo s else ret None
            | None => ret None
            end;
      match r2 with
      | Some text => ret text
      | None => throw ContentUnavailable
      end
  end.

End WithHost.

End ContentFetch.

(** ** The calls of the forge client *)

Module Forge.
Import Http ContentFetch.

Definition repoUrl (owner repo : string) : string :=
  BASE_URL +:+ "/repos/" +:+ owner +:+ "/" +:+ repo.

Definition branchesUrl (owner repo : string) : string :=
  BASE_URL +:+ "/repos/" +:+ owner +:+ "/" +:+ repo +:+ "/branches".

Definition treeUrl (owner repo sha : string) : string :=
  BASE_URL +:+ "/repos/" +:+ owner +:+ "/" +:+ repo +:+ "/git/trees/" +:+ sha +:+ "?recursive=1".

(** The object that [fetchRepoDetails] returns: each property holds what
    was read from the payload, [None] for [undefined]. *)
Record RepoSummary := mkSummary {
  summary_owner : option JSON;
  summary_name : option JSON;
  summary_description : option JSON;
  summary_stars : option JSON;
  summary_forks : option JSON;
  summary_default_branch : option JSON
}.

Section WithHost.

(** The messages of the engine's [TypeError]s for reading the property [k]
    of [null] and of [undefined]. *)
Variable nullPropertyMessage : string → string.
Variable undefinedPropertyMessage : string → string.

(** [v.k] for a value [v] read from a payload and a property name [k] that
    is no index, not [length] and no name of a prototype. *)
Definition read (v : option JSON) (k : string) : Outcome (option JSON) :=
  match v with
  | None => Throw (mkError (undefinedPropertyMessage k))
  | Some JNull => Throw (mkError (nullPropertyMessage k))
  | Some (JObject fields) => Return (field k fields)
  | Some _ => Return None
  end.

Definition fetchRepoDetails (owner repo : string) : Async RepoSummary :=
  response ← githubFetch (repoUrl owner repo);
  data ← lift (handleApiResponse response);
  dataOwner ← lift (read (Some data) "owner");
  login ← lift (read dataOwner "login");
  name ← lift (read (Some data) "name");
  description ← lift (read (Some data) "description");
  stars ← lift (read (Some data) "stargazers_count");
  forks ← lift (read (Some data) "forks_count");
  default_branch ← lift (read (Some data) "default_branch");
  ret (mkSummary login name description stars forks default_branch).

Definition fetchBranches (owner repo : string) : Async JSON :=
  response ← githubFetch (branchesUrl owner repo);
  lift (handleApiResponse response).

(** [fetchTree]: a truncated tree is reported to the console and returned
    like a whole one. *)
Definition fetchTree (owner repo sha : string) : Async (option JSON) :=
  response ← githubFetch (treeUrl owner repo sha);
  data ← lift (handleApiResponse response);
  truncated ← lift (read (Some data) "truncated");
  lift (read (Some data) "tree").

End WithHost.

(** What a call has after its one request at [url]: the payload, or the
    error of [fetch] or of [handleApiResponse]. *)
Definition answer (net : Network) (log : list string) (url : string) : Outcome JSON :=
  match net log url with
  | Return response => handleApiResponse response
  | Throw e => Throw e
  end.

End Forge.

(** ** Tree builder *)

Module TreeBuilder.

Inductive EntryType := blob | tree.

#[global] Instance EntryType_eq_dec : EqDecision EntryType.
Proof. solve_decision. Defined.

(** The [type] of an entry as the string the forge sends. *)
Definition typeName (t : EntryType) : string :=
  match t with blob => "blob" | tree => "tree" end.

Record GitHubTreeItem := mkItem {
  item_path : string;
  item_mode : string;
  item_type : EntryType;
  item_sha : string;
  item_size : option N;
  item_url : string
}.

#[warnings="-register-all"]
Inductive TreeNode : Type := mkTreeNode {
  name : string;
  path : string;
  type : EntryType;
  sha : string;
  children : option (list TreeNode)
}.

(** *** The objects of one call

    The nodes are objects that [root], [map] and the [children] arrays
    share: a node is pushed to the children of a node that is already in the
    result. A node is a cell of a heap, named by its index (the nodes are
    made in the order of the sorted entries), and [children] holds
    references. *)
Record Cell := mkCell {
  cell_name : string;
  cell_path : string;
  cell_type : EntryType;
  cell_sha : string;
  cell_children : option (list nat)
}.

(** [map] is a plain object: besides its own properties ([own]) it has a
    prototype, which is [Object.prototype] until the assignment
    [map["__proto__"] = node] makes it the node ([proto]). *)
Record Builder := mkBuilder {
  heap : list Cell;
  root : list nat;
  own : gmap string nat;
  proto : option nat
}.

Definition emptyBuilder : Builder := mkBuilder [] [] ∅ None.

(** What [map[k]] can be, as far as [if (map[k])] and [map[k].children]
    tell values apart: [undefined], a string, a node, an array, or an object
    or function of the host. *)
Inductive Value := VUndefined | VString (s : string) | VNode (r : nat) | VArray | VHost.

(** The properties of [Object.prototype] other than [__proto__]; each is a
    function. *)
Definition objectPrototypeNames : list string :=
  ["constructor"; "hasOwnProperty"; "isPrototypeOf"; "propertyIsEnumerable";
   "toLocaleString"; "toString"; "valueOf"; "__defineGetter__";
   "__defineSetter__"; "__lookupGetter__"; "__lookupSetter__"].

Definition inherited (k : string) : Value :=
  if bool_decide (k ∈ objectPrototypeNames) then VHost else VUndefined.

(** [node[k]] for a node that is the prototype of [map]. *)
Definition cellProperty (c : Cell) (k : string) : Value :=
  if String.eqb k "name" then VString (cell_name c)
  else if String.eqb k "path" then VString (cell_path c)
  else if String.eqb k "type" then VString (typeName (cell_type c))
  else if String.eqb k "sha" then VString (cell_sha c)
  else if String.eqb k "children" then
    match cell_children c with Some _ => VArray | None => VUndefined end
  else inherited k.

(** [map[k]]. *)
Definition mapGet (b : Builder) (k : string) : Value :=
  if String.eqb k "__proto__" then
    match proto b with Some r => VNode r | None => VHost end
  else
    match own b !! k with
    | Some r => VNode r
    | None =>
        match proto b ≫= (heap b !!.) with
        | Some c => cellProperty c k
        | None => inherited k
        end
    end.

(** [map[k] = node], for the node at [r]. *)
Definition mapSet (b : Builder) (k : string) (r : nat) : Builder :=
  if String.eqb k "__proto__" then mkBuilder (heap b) (root b) (own b) (Some r)
  else mkBuilder (heap b) (root b) (<[k := r]> (own b)) (proto b).

(** [root.push(node)]. *)
Definition pushRoot (b : Builder) (r : nat) : Builder :=
  mkBuilder (heap b) (root b ++ [r]) (own b) (proto b).

(** [c.children?.push(node)], for the node at [r]: nothing happens when
    [c] has no [children]. *)
Definition pushTo (r : nat) (c : Cell) : Cell :=
  mkCell (cell_name c) (cell_path c) (cell_type c) (cell_sha c)
         ((λ kids, kids ++ [r]) <$> cell_children c).

(** [parent.children?.push(node)] in the heap. *)
Definition pushChild (b : Builder) (parent r : nat) : Builder :=
  mkBuilder (alter (pushTo r) parent (heap b)) (root b) (own b) (proto b).

(** The body of [items.forEach]. *)
Definition addItem (b : Builder) (item : GitHubTreeItem) : Builder :=
  let parts := JS.split "/" (item_path item) in
  let fileName := List.last parts EmptyString in
  let parts := removelast parts in
  let parentPath := JS.join "/" parts in
  let r := length (heap b) in
  let node :=
    mkCell fileName (item_path item) (item_type item) (item_sha item)
           (match item_type item with tree => Some [] | blob => None end) in
  let b := mapSet (mkBuilder (heap b ++ [node]) (root b) (own b) (proto b)) (item_path item) r in
  match parts with
  | [] => pushRoot b r
  | _ =>
      match mapGet b parentPath with
      | VUndefined => pushRoot b r
      | VString s => if JS.truthy s then b else pushRoot b r
      | VNode parent => pushChild b parent r
      | VArray | VHost => b
      end
  end.

(** The tree below each reference of a heap whose cells are numbered from
    [base]: the children of a node are made after it, so the trees of the
    later cells are there when the tree of a cell is put together. *)
Fixpoint readback (cells : list Cell) (base : nat) : gmap nat TreeNode :=
  match cells with
  | [] => ∅
  | c :: rest =>
      let later := readback rest (S base) in
      <[base := mkTreeNode (cell_name c) (cell_path c) (cell_type c) (cell_sha c)
                           ((λ kids : list nat, omap (λ r, later !! r) kids) <$> cell_children c)]> later
  end.

Section WithHost.

(** [a.localeCompare(b)], by its sign. *)
Variable localeCompare : string → string → comparison.

(** The comparator of [items.sort]. *)
Definition compareItems (a b : GitHubTreeItem) : comparison :=
  if decide (item_type a = item_type b) then localeCompare (item_path a) (item_path b)
  else match item_type a with tree => Lt | blob => Gt end.

(** [Array.prototype.sort] is stable, and with a comparator that is
    consistent its result is the one of this insertion sort. *)
Fixpoint insertItem (x : GitHubTreeItem) (l : list GitHubTreeItem) : list GitHubTreeItem :=
  match l with
  | [] => [x]
  | y :: l' =>
      match compareItems x y with
      | Gt => y :: insertItem x l'
      | _ => x :: l
      end
  end.

Definition sortItems (items : list GitHubTreeItem) : list GitHubTreeItem :=
  foldr insertItem [] items.

Definition build (items : list GitHubTreeItem) : Builder :=
  foldl addItem emptyBuilder (sortItems items).

Definition buildTreeStructure (items : list GitHubTreeItem) : list TreeNode :=
  let b := build items in
  omap (λ r, readback (heap b) 0 !! r) (root b).

End WithHost.

(** Comparison of strings by code units, a host collation for the
    examples. *)
Definition codeUnitCompare (a b : string) : comparison := String.compare a b.

(** All paths of a forest, each node before its children. *)
Fixpoint nodePaths (t : TreeNode) : list string :=
  path t ::
  match children t with
  | Some kids => (fix go (l : list TreeNode) : list string :=
                    match l with
                    | [] => []
                    | k :: l' => nodePaths k ++ go l'
                    end) kids
  | None => []
  end.

Definition forestPaths (forest : list TreeNode) : list string :=
  forest ≫= nodePaths.

(** *** Collations and the order of siblings *)

(** A collation is consistent when swapping the arguments swaps the sign of
    the result and [<=] is transitive: what [Array.prototype.sort] asks of
    a comparator. *)
Record Consistent (cmp : string → string → comparison) : Prop := {
  consistent_flip : ∀ a b, cmp b a = CompOpp (cmp a b);
  consistent_trans : ∀ a b c, cmp a b ≠ Gt → cmp b c ≠ Gt → cmp a c ≠ Gt
}.

(** A collation is separating when it finds only equal strings equal. *)
Definition Separating (cmp : string → string → comparison) : Prop :=
  ∀ a b, cmp a b = Eq → a = b.

(** A collation tells the entries of a listing apart when it finds no two
    entries of one type and of different paths equal: the comparator of
    the sort then returns 0 for no two entries of different paths. *)
Definition TellsApart (cmp : string → string → comparison) (items : list GitHubTreeItem) :
    Prop :=
  ∀ a b, a ∈ items → b ∈ items → item_type a = item_type b →
    cmp (item_path a) (item_path b) = Eq → item_path a = item_path b.

(** An entry of type [ta] and path [pa] may stand before one of type [tb]
    and path [pb]: a directory before a file, and two of one type in the
    order of their paths. *)
Definition precedes (cmp : string → string → comparison)
    (ta : EntryType) (pa : string) (tb : EntryType) (pb : string) : Prop :=
  match ta, tb with
  | tree, blob => True
  | blob, tree => False
  | _, _ => cmp pa pb ≠ Gt
  end.

Definition itemOrder (cmp : string → string → comparison) (a b : GitHubTreeItem) : Prop :=
  precedes cmp (item_type a) (item_path a) (item_type b) (item_path b).

Definition cellOrder (cmp : string → string → comparison) (a b : Cell) : Prop :=
  precedes cmp (cell_type a) (cell_path a) (cell_type b) (cell_path b).

Definition siblingOrder (cmp : string → string → comparison) (a b : TreeNode) : Prop :=
  precedes cmp (type a) (path a) (type b) (path b).

(** A forest is ordered when its roots are in the order of siblings, every
    earlier one before every later one, and so are the children of every
    node, at every level. *)
Inductive Ordered (cmp : string → string → comparison) : list TreeNode → Prop :=
| Ordered_level (forest : list TreeNode) :
    StronglySorted (siblingOrder cmp) forest →
    (∀ t kids, t ∈ forest → children t = Some kids → Ordered cmp kids) →
    Ordered cmp forest.

(** *** The invariant of the loop

    What holds of the builder after the entries [seen]: the cells are the
    nodes of [seen], in order; [root] and every [children] array list
    references in increasing order; the children of a node are made after
    it; and [map] refers to cells of the heap. *)
Record Invariant (seen : list GitHubTreeItem) (b : Builder) : Prop := {
  inv_paths : cell_path <$> heap b = item_path <$> seen;
  inv_types : cell_type <$> heap b = item_type <$> seen;
  inv_root : StronglySorted lt (root b) ∧ Forall (λ k, k < length (heap b)) (root b);
  inv_children : ∀ i c kids,
    heap b !! i = Some c → cell_children c = Some kids →
    StronglySorted lt kids ∧ Forall (λ k, i < k < length (heap b)) kids;
  inv_own : ∀ k p, own b !! k = Some p → p < length (heap b);
  inv_proto : ∀ p, proto b = Some p → p < length (heap b)
}.

(** *** Listings that lose no entry *)

(** The parent path of a path with a slash in it. *)
Definition parentPath (p : string) : option string :=
  match removelast (JS.split "/" p) with
  | [] => None
  | parts => Some (JS.join "/" parts)
  end.

(** A listing is proper when its paths are pairwise distinct, no path is
    [__proto__], and every parent path is a name that [map] does not
    inherit and is the path of directories only (or of no entry). *)
Record ProperListing (items : list GitHubTreeItem) : Prop := {
  proper_distinct : NoDup (item_path <$> items);
  proper_path : ∀ it, it ∈ items → item_path it ≠ "__proto__";
  proper_parent : ∀ it q,
    it ∈ items → parentPath (item_path it) = Some q →
    q ≠ "__proto__" ∧ (q ∉ objectPrototypeNames)
    ∧ ∀ it', it' ∈ items → item_path it' = q → item_type it' = tree
}.

(** The check of a proper listing. *)
Definition properParent (items : list GitHubTreeItem) (it : GitHubTreeItem) : bool :=
  match parentPath (item_path it) with
  | None => true
  | Some q =>
      negb (String.eqb q "__proto__")
      && bool_decide (q ∉ objectPrototypeNames)
      && forallb (λ it', implb (String.eqb (item_path it') q)
                               (bool_decide (item_type it' = tree))) items
  end.

Definition properListing (items : list GitHubTreeItem) : bool :=
  bool_decide (NoDup (item_path <$> items))
  && forallb (λ it, negb (String.eqb (item_path it) "__proto__") && properParent items it) items.

(** All references of the [children] arrays of a heap. *)
Definition allKids (cells : list Cell) : list nat :=
  cells ≫= (λ c, default [] (cell_children c)).

(** The paths of the tree at a reference. *)
Definition descPaths (trees : gmap nat TreeNode) (r : nat) : list string :=
  match trees !! r with
  | Some t => nodePaths t
  | None => []
  end.

(** Every node is referred to once, by [root] or by a [children] array;
    [map] has no prototype but [Object.prototype], refers to each node by
    its path, and every directory has a [children] array. *)
Record Attached (b : Builder) : Prop := {
  att_all : (root b ++ allKids (heap b)) ≡ₚ seq 0 (length (heap b));
  att_own : ∀ k p, own b !! k = Some p → ∃ c, heap b !! p = Some c ∧ cell_path c = k;
  att_proto : proto b = None;
  att_children : ∀ c, c ∈ heap b → cell_type c = tree → is_Some (cell_children c)
}.

(** The node at [r] is in the heap and no array refers to it or to a later
    node yet. *)
Definition Fresh (r : nat) (b : Builder) : Prop :=
  r < length (heap b)
  ∧ Forall (λ k, k < r) (root b)
  ∧ ∀ i c kids, heap b !! i = Some c → cell_children c = Some kids → Forall (λ k, k < r) kids.

(** *** What every result is made of *)

(** What a node takes from its entry: path, type and content identifier. *)
Definition EntryKey : Type := string * EntryType * string.

Definition itemKey (it : GitHubTreeItem) : EntryKey :=
  (item_path it, item_type it, item_sha it).

Definition cellKey (c : Cell) : EntryKey :=
  (cell_path c, cell_type c, cell_sha c).

(** The keys of all nodes of a tree, each node before its children. *)
Fixpoint nodeKeys (t : TreeNode) : list EntryKey :=
  (path t, type t, sha t) ::
  match children t with
  | Some kids => (fix go (l : list TreeNode) : list EntryKey :=
                    match l with
                    | [] => []
                    | k :: l' => nodeKeys k ++ go l'
                    end) kids
  | None => []
  end.

Definition forestKeys (forest : list TreeNode) : list EntryKey :=
  forest ≫= nodeKeys.

(** The last segment of a path: [path.split('/').pop()]. *)
(** The keys of the tree at a reference. *)
Definition descKeys (trees : gmap nat TreeNode) (r : nat) : list EntryKey :=
  match trees !! r with
  | Some t => nodeKeys t
  | None => []
  end.

Definition lastSegment (p : string) : string :=
  List.last (JS.split "/" p) EmptyString.

(** A tree is shaped when, at every level, the name of a node is the last
    segment of its path, a directory has a [children] array and a file has
    none, and the parent path of every child is the path of its node. *)
Inductive Shaped : TreeNode → Prop :=
| Shaped_node (t : TreeNode) :
    name t = lastSegment (path t) →
    (children t = None ↔ type t = blob) →
    (∀ kids k, children t = Some kids → k ∈ kids → parentPath (path k) = Some (path t)) →
    (∀ kids k, children t = Some kids → k ∈ kids → Shaped k) →
    Shaped t.

(** What the heap and [map] keep besides the order of the references:
    names and [children] follow path and type, no reference is in two
    arrays or twice in one, [map] refers to each node by its path, and the
    parent path of a child is the path of the node that has it. *)
Record Shape (b : Builder) : Prop := {
  shape_names : ∀ c, c ∈ heap b → cell_name c = lastSegment (cell_path c);
  shape_kind : ∀ c, c ∈ heap b → (cell_children c = None ↔ cell_type c = blob);
  shape_once : NoDup (root b ++ allKids (heap b));
  shape_own : ∀ k p, own b !! k = Some p → ∃ c, heap b !! p = Some c ∧ cell_path c = k;
  shape_proto : ∀ p, proto b = Some p → ∃ c, heap b !! p = Some c ∧ cell_path c = "__proto__";
  shape_parent : ∀ i c kids k ck,
    heap b !! i = Some c → cell_children c = Some kids → k ∈ kids → heap b !! k = Some ck →
    parentPath (cell_path ck) = Some (cell_path c)
}.

End TreeBuilder.

(** ** The application component: loading a repository *)

Module App.
Import Http UrlParser TreeBuilder.

Record Commit := mkCommit { commit_sha : string; commit_url : string }.

Record GitHubBranch := mkBranch { branch_name : string; branch_commit : Commit }.

Record RepoDetails := mkRepoDetails {
  details_owner : string;
  details_name : string;
  description : string;
  stars : nat;
  forks : nat;
  default_branch : string
}.

Inductive AppState := IDLE | LOADING_REPO | SELECTING_BRANCH | LOADING_TREE | VIEWING | ERROR.

Inductive Tab := overview | docs.

(** The state of the component that loading a repository reads or sets. *)
Record Model := mkModel {
  urlInput : string;
  appState : AppState;
  errorMsg : option string;
  repoDetails : option RepoDetails;
  branches : list GitHubBranch;
  selectedBranch : string;
  treeData : list TreeNode;
  allItems : list GitHubTreeItem;
  aiAnalysis : option string;
  isAnalyzing : bool;
  fileDoc : option string;
  selectedFile : option TreeNode;
  activeTab : Tab
}.

Definition setAppState (v : AppState) (m : Model) : Model :=
  mkModel (urlInput m) v (errorMsg m) (repoDetails m) (branches m) (selectedBranch m)
          (treeData m) (allItems m) (aiAnalysis m) (isAnalyzing m) (fileDoc m)
          (selectedFile m) (activeTab m).

Definition setErrorMsg (v : option string) (m : Model) : Model :=
  mkModel (urlInput m) (appState m) v (repoDetails m) (branches m) (selectedBranch m)
          (treeData m) (allItems m) (aiAnalysis m) (isAnalyzing m) (fileDoc m)
          (selectedFile m) (activeTab m).

Definition setRepoDetails (v : option RepoDetails) (m : Model) : Model :=
  mkModel (urlInput m) (appState m) (errorMsg m) v (branches m) (selectedBranch m)
          (treeData m) (allItems m) (aiAnalysis m) (isAnalyzing m) (fileDoc m)
          (selectedFile m) (activeTab m).

Definition setBranches (v : list GitHubBranch) (m : Model) : Model :=
  mkModel (urlInput m) (appState m) (errorMsg m) (repoDetails m) v (selectedBranch m)
          (treeData m) (allItems m) (aiAnalysis m) (isAnalyzing m) (fileDoc m)
          (selectedFile m) (activeTab m).

Definition setSelectedBranch (v : string) (m : Model) : Model :=
  mkModel (urlInput m) (appState m) (errorMsg m) (repoDetails m) (branches m) v
          (treeData m) (allItems m) (aiAnalysis m) (isAnalyzing m) (fileDoc m)
          (selectedFile m) (activeTab m).

Definition setTreeData (v : list TreeNode) (m : Model) : Model :=
  mkModel (urlInput m) (appState m) (errorMsg m) (repoDetails m) (branches m) (selectedBranch m)
          v (allItems m) (aiAnalysis m) (isAnalyzing m) (fileDoc m)
          (selectedFile m) (activeTab m).

Definition setAllItems (v : list GitHubTreeItem) (m : Model) : Model :=
  mkModel (urlInput m) (appState m) (errorMsg m) (repoDetails m) (branches m) (selectedBranch m)
          (treeData m) v (aiAnalysis m) (isAnalyzing m) (fileDoc m)
          (selectedFile m) (activeTab m).

Definition setAiAnalysis (v : option string) (m : Model) : Model :=
  mkModel (urlInput m) (appState m) (errorMsg m) (repoDetails m) (branches m) (selectedBranch m)
          (treeData m) (allItems m) v (isAnalyzing m) (fileDoc m)
          (selectedFile m) (activeTab m).

Definition setIsAnalyzing (v : bool) (m : Model) : Model :=
  mkModel (urlInput m) (appState m) (errorMsg m) (repoDetails m) (branches m) (selectedBranch m)
          (treeData m) (allItems m) (aiAnalysis m) v (fileDoc m)
          (selectedFile m) (activeTab m).

Definition setFileDoc (v : option string) (m : Model) : Model :=
  mkModel (urlInput m) (appState m) (errorMsg m) (repoDetails m) (branches m) (selectedBranch m)
          (treeData m) (allItems m) (aiAnalysis m) (isAnalyzing m) v
          (selectedFile m) (activeTab m).

Definition setSelectedFile (v : option TreeNode) (m : Model) : Model :=
  mkModel (urlInput m) (appState m) (errorMsg m) (repoDetails m) (branches m) (selectedBranch m)
          (treeData m) (allItems m) (aiAnalysis m) (isAnalyzing m) (fileDoc m)
          v (activeTab m).

Definition setActiveTab (v : Tab) (m : Model) : Model :=
  mkModel (urlInput m) (appState m) (errorMsg m) (repoDetails m) (branches m) (selectedBranch m)
          (treeData m) (allItems m) (aiAnalysis m) (isAnalyzing m) (fileDoc m)
          (selectedFile m) v.

(** [err.message || fallback]. *)
Definition messageOr (e : Error) (fallback : string) : string :=
  if JS.truthy (message e) then message e else fallback.

(** The message for an input that does not parse; [owner/repo] stands in
    double quotes (code unit 34) in it. *)
Definition invalidUrlMessage : string :=
  "Invalid GitHub URL. Please use " +:+ String "034" "owner/repo" +:+ String "034"
    " format (e.g. facebook/react)".

(** [branchList.find(b => b.name === name)]. *)
Definition findBranch (name : string) (branchList : list GitHubBranch) : option GitHubBranch :=
  List.find (λ b, String.eqb (branch_name b) name) branchList.

Section WithHost.

Variable URL : string → option URLRecord.
Variable localeCompare : string → string → comparison.

(** What the awaited calls of the handler settle to: the three calls of the
    forge client, and the analysis, which catches its own errors. *)
Variable fetchRepoDetails : string → string → Outcome RepoDetails.
Variable fetchBranches : string → string → Outcome (list GitHubBranch).
Variable fetchTree : string → string → string → Outcome (list GitHubTreeItem).
Variable analyzeRepoArchitecture : list string → string.

(** [fetchRepoTree]. Its [branches] is the state of the render that made
    the function, [render]. [buildTreeStructure] sorts the array that
    [setAllItems] was given, so the state and the paths of the analysis have
    the sorted order. *)
Definition fetchRepoTree (render : Model) (owner repo branchName : string) (m : Model) : Model :=
  let m := setAppState LOADING_TREE m in
  match findBranch branchName (branches render) with
  | None =>
      setErrorMsg (Some (messageOr (mkError "Branch not found") "Failed to load file tree."))
        (setAppState ERROR m)
  | Some branch =>
      match fetchTree owner repo (commit_sha (branch_commit branch)) with
      | Throw e =>
          setErrorMsg (Some (messageOr e "Failed to load file tree.")) (setAppState ERROR m)
      | Return rawTree =>
          let structuredTree := buildTreeStructure localeCompare rawTree in
          let rawTree := sortItems localeCompare rawTree in
          let m := setTreeData structuredTree (setAllItems rawTree m) in
          let paths := item_path <$> rawTree in
          let m := setIsAnalyzing true (setAppState VIEWING m) in
          setIsAnalyzing false (setAiAnalysis (Some (analyzeRepoArchitecture paths)) m)
      end
  end.

(** [handleFetchRepo], a callback of the render [render]: it reads
    [urlInput] of that render and calls its [fetchRepoTree]. The state
    setters are applied to [m] in the order of the calls. *)
Definition handleFetchRepo (render : Model) (m : Model) : Model :=
  if negb (JS.truthy (JS.trim (urlInput render))) then m
  else
    match parseRepoUrl URL (urlInput render) with
    | None =>
        setErrorMsg (Some invalidUrlMessage) m
    | Some parsed =>
        let m := setAppState LOADING_REPO m in
        let m := setErrorMsg None m in
        let m := setRepoDetails None m in
        let m := setBranches [] m in
        let m := setTreeData [] m in
        let m := setAllItems [] m in
        let m := setAiAnalysis None m in
        let m := setFileDoc None m in
        let m := setSelectedFile None m in
        let m := setActiveTab overview m in
        let failed (e : Error) (m : Model) :=
          setErrorMsg (Some (messageOr e "Failed to fetch repository data."))
            (setAppState ERROR m) in
        match fetchRepoDetails (owner parsed) (repo parsed) with
        | Throw e => failed e m
        | Return details =>
            let m := setRepoDetails (Some details) m in
            match fetchBranches (owner parsed) (repo parsed) with
            | Throw e => failed e m
            | Return branchList =>
                let m := setBranches branchList m in
                match branchList with
                | first :: _ =>
                    let defaultB :=
                      default first (findBranch (default_branch details) branchList) in
                    let m := setSelectedBranch (branch_name defaultB) m in
                    fetchRepoTree render (owner parsed) (repo parsed) (branch_name defaultB) m
                | [] => setAppState SELECTING_BRANCH m
                end
            end
        end
    end.

End WithHost.

(** The states that a load can end in: [ERROR] with a message, the choice
    of a branch, or the view of the tree with the analysis done. *)
Definition Settled (m : Model) : Prop :=
  (appState m = ERROR ∧ ∃ msg, errorMsg m = Some msg ∧ msg ≠ EmptyString)
  ∨ (appState m = SELECTING_BRANCH ∧ errorMsg m = None)
  ∨ (appState m = VIEWING ∧ errorMsg m = None ∧ isAnalyzing m = false).

(** *** The panels and dialogs

    The state of the component that the documentation panel, the settings
    dialog and the export dialog read or set. *)
Record ExportFileCandidate := mkCandidate {
  cand_path : string;
  cand_sha : string;
  selected : bool
}.

Record Controls := mkControls {
  hasToken : bool;
  isGeneratingDoc : bool;
  showSettingsModal : bool;
  tokenInput : string;
  showExportModal : bool;
  exportCandidates : list ExportFileCandidate
}.

Definition setHasToken (v : bool) (d : Controls) : Controls :=
  mkControls v (isGeneratingDoc d) (showSettingsModal d) (tokenInput d) (showExportModal d)
             (exportCandidates d).

Definition setIsGeneratingDoc (v : bool) (d : Controls) : Controls :=
  mkControls (hasToken d) v (showSettingsModal d) (tokenInput d) (showExportModal d)
             (exportCandidates d).

Definition setShowSettingsModal (v : bool) (d : Controls) : Controls :=
  mkControls (hasToken d) (isGeneratingDoc d) v (tokenInput d) (showExportModal d)
             (exportCandidates d).

Definition setTokenInput (v : string) (d : Controls) : Controls :=
  mkControls (hasToken d) (isGeneratingDoc d) (showSettingsModal d) v (showExportModal d)
             (exportCandidates d).

Definition setShowExportModal (v : bool) (d : Controls) : Controls :=
  mkControls (hasToken d) (isGeneratingDoc d) (showSettingsModal d) (tokenInput d) v
             (exportCandidates d).

Definition setExportCandidates (v : list ExportFileCandidate) (d : Controls) : Controls :=
  mkControls (hasToken d) (isGeneratingDoc d) (showSettingsModal d) (tokenInput d)
             (showExportModal d) v.

Definition interestingExtensions : list string :=
  [".ts"; ".tsx"; ".js"; ".jsx"; ".py"; ".java"; ".go"; ".rb"; ".php"; ".c"; ".cpp"; ".h";
   ".cs"; ".rs"; ".json"; ".md"; ".html"; ".css"].

(** The test of the [filter] of [handleOpenExport]. *)
Definition isInteresting (item : GitHubTreeItem) : bool :=
  bool_decide (item_type item = blob)
  && existsb (λ ext, JS.endsWith (item_path item) ext) interestingExtensions.

(** [handleOpenExport], a function of the render with the state [render]:
    it reads [allItems] of that render. *)
Definition handleOpenExport (render : Model) (d : Controls) : Controls :=
  let candidates :=
    (λ item, mkCandidate (item_path item) (item_sha item) true)
      <$> take 30 (filter (λ item, isInteresting item = true) (allItems render)) in
  setShowExportModal true (setExportCandidates candidates d).

(** [toggleExportFile]: the setter is given a function of the state at the
    time of the update. *)
Definition toggleExportFile (path : string) (d : Controls) : Controls :=
  setExportCandidates
    ((λ c, if String.eqb (cand_path c) path
           then mkCandidate (cand_path c) (cand_sha c) (negb (selected c))
           else c) <$> exportCandidates d) d.

(** [filesToProcess] of [handleExportDocs]. *)
Definition filesToProcess (render : Controls) : list ExportFileCandidate :=
  filter (λ c, selected c = true) (exportCandidates render).

Section Settings.
Import Auth.

Variable URL : string → option URLRecord.
Variable localeCompare : string → string → comparison.
Variable fetchRepoDetails : string → string → Outcome RepoDetails.
Variable fetchBranches : string → string → Outcome (list GitHubBranch).
Variable fetchTree : string → string → string → Outcome (list GitHubTreeItem).
Variable analyzeRepoArchitecture : list string → string.

(** [errorMsg?.includes('Rate Limit')], as a condition. *)
Definition mentionsRateLimit (msg : option string) : bool :=
  match msg with
  | Some s => JS.includes s "Rate Limit"
  | None => false
  end.

(** [handleSaveToken], a function of the render with the state [render]
    and [renderControls]; the [handleFetchRepo] it calls is the memoised
    callback, made by the render [loadRender]. *)
Definition handleSaveToken (loadRender render : Model) (renderControls : Controls)
    (m : Model) (d : Controls) (storage : Storage) : Model * Controls * Storage :=
  let storage := setGitHubToken (tokenInput renderControls) storage in
  let d := setShowSettingsModal false (setHasToken true d) in
  let m :=
    if match appState render with ERROR => mentionsRateLimit (errorMsg render) | _ => false end
    then handleFetchRepo URL localeCompare fetchRepoDetails fetchBranches fetchTree
           analyzeRepoArchitecture loadRender m
    else m in
  (m, d, storage).

End Settings.

Section Branches.

Variable localeCompare : string → string → comparison.
Variable fetchTree : string → string → string → Outcome (list GitHubTreeItem).
Variable analyzeRepoArchitecture : list string → string.

(** [handleBranchChange] for the value [newBranch] of the selector, a
    function of the render with the state [render]: it reads [repoDetails]
    of that render and calls its [fetchRepoTree]. *)
Definition handleBranchChange (render : Model) (newBranch : string) (m : Model) : Model :=
  let m := setSelectedBranch newBranch m in
  match repoDetails render with
  | Some details =>
      fetchRepoTree localeCompare fetchTree analyzeRepoArchitecture render
        (details_owner details) (details_name details) newBranch m
  | None => m
  end.

End Branches.

Section Documentation.

(** What awaiting [fetchFileContent] settles to, and the result of
    [generateCodeDocumentation], which catches its own errors. *)
Variable fetchFileContent : string → string → string → string → option string → Outcome string.
Variable generateCodeDocumentation : string → string → string.

(** [node.path === selectedFile?.path]. *)
Definition isSelectedFile (node : TreeNode) (selectedFile : option TreeNode) : bool :=
  match selectedFile with
  | Some file => String.eqb (path node) (path file)
  | None => false
  end.

(** [handleFileSelect], a function of the render with the state [render]:
    it reads [selectedFile], [repoDetails] and [selectedBranch] of that
    render. The [finally] block runs on every way out of the [try]. *)
Definition handleFileSelect (render : Model) (node : TreeNode) (m : Model) (d : Controls) :
    Model * Controls :=
  match type node with
  | tree => (m, d)
  | blob =>
      if isSelectedFile node (selectedFile render) then (m, d)
      else
        let m := setSelectedFile (Some node) m in
        let m := setActiveTab docs m in
        let m := setFileDoc None m in
        let d := setIsGeneratingDoc true d in
        let m :=
          match repoDetails render with
          | None => m
          | Some details =>
              match fetchFileContent (details_owner details) (details_name details)
                      (path node) (selectedBranch render) (Some (sha node)) with
              | Return content =>
                  setFileDoc (Some (generateCodeDocumentation (name node) content)) m
              | Throw error =>
                  setFileDoc (Some ("Error generating docs: " +:+ message error)) m
              end
          end in
        (m, setIsGeneratingDoc false d)
  end.

End Documentation.

Definition handleClearToken (d : Controls) (storage : Auth.Storage) : Controls * Auth.Storage :=
  let storage := Auth.removeGitHubToken storage in
  (setShowSettingsModal false (setHasToken false (setTokenInput EmptyString d)), storage).

(** The effect of the first render: the token of the storage, when there
    is one and it is not empty, is shown as present and put in the field of
    the dialog. *)
Definition onMount (storage : Auth.Storage) (d : Controls) : Controls :=
  match Auth.getGitHubToken storage with
  | Some token => if JS.truthy token then setTokenInput token (setHasToken true d) else d
  | None => d
  end.

(** The state of the panels and dialogs before the first render. *)
Definition initialControls : Controls := mkControls false false false EmptyString false [].

End App.

(** ** Analysis and documentation by the language model *)

Module Gemini.
Import Http.

Definition newline : string := String "010" EmptyString.

(** The double quote, code unit 34. *)
Definition quote : string := String "034" EmptyString.

Definition simplifyTreeForPrompt (paths : list string) : string :=
  let limitedPaths := take 300 paths in
  JS.join newline limitedPaths.

(** The prompt of [analyzeRepoArchitecture], a template with one hole. *)
Definition analysisPrompt (treeString : string) : string :=
  "
      You are a Senior Software Architect. 
      Analyze the following file structure of a GitHub repository and provide a concise technical summary.
      
      File Structure (truncated):
      "
  +:+ treeString
  +:+ "

      Please provide the output in Markdown format with the following sections:
      1. **Tech Stack**: Detect languages, frameworks, and build tools.
      2. **Architecture**: Guess the architectural pattern (e.g., Monorepo, MVC, Clean Architecture).
      3. **Key Directories**: Explain the purpose of important folders (e.g., src, lib, api).
      4. **Purpose**: Infer what this application does.

      Keep it professional and concise.
    ".

(** The prompt of [generateCodeDocumentation], a template with two
    holes. *)
Definition documentationPrompt (fileName contentToAnalyze : string) : string :=
  "
            You are an automated documentation generator tool (like Sphinx, Javadoc, or Docusaurus).
            
            TASK: Generate comprehensive technical documentation for the following code file: "
  +:+ quote
  +:+ fileName
  +:+ quote
  +:+ ".
            
            INSTRUCTIONS:
            1. Analyze the code, specifically looking for docstrings, comments, function signatures, and class definitions.
            2. If docstrings exist, use them as the primary source of truth.
            3. If docstrings are missing, infer the functionality based on the code logic.
            4. Format the output as professional Markdown suitable for a developer portal.
            
            OUTPUT FORMAT:
            # [Filename]
            
            ## Overview
            [Brief description of what this module/file does]
            
            ## Classes / Components (if applicable)
            ### [ClassName]
            - Description...
            
            ## Functions / Methods
            ### `functionName(params)`
            - **Description**: [What it does]
            - **Parameters**:
              - `param`: [Type] - [Description]
            - **Returns**: [Type] - [Description]
            
            ## Usage Example (Optional, if easy to infer)
            ```
            [Code snippet]
            ```

            CODE TO ANALYZE:
            "
  +:+ contentToAnalyze
  +:+ "
        ".

(** The number of code units of a file that the documentation prompt
    takes. *)
#[warnings="-abstract-large-number"]
Definition contentLimit : nat := 100000.

(** [fileContent.length > 100000 ? fileContent.substring(0, 100000) +
    "\n...[File Truncated]" : fileContent]. *)
Definition contentToAnalyze (fileContent : string) : string :=
  if (contentLimit <? String.length fileContent)%nat
  then String.substring 0 contentLimit fileContent +:+ newline +:+ "...[File Truncated]"
  else fileContent.

(** [text || fallback], for the [text] of a response; [None] is
    [undefined]. *)
Definition textOr (text : option string) (fallback : string) : string :=
  match text with
  | Some t => if JS.truthy t then t else fallback
  | None => fallback
  end.

(** [error.message || fallback]. *)
Definition messageOr (e : Error) (fallback : string) : string :=
  if JS.truthy (message e) then message e else fallback.

Section WithHost.

(** [import.meta.env.VITE_GEMINI_API_KEY]; [None] is [undefined]. *)
Variable apiKey : option string.

(** What awaiting [ai.models.generateContent] settles to, for a client made
    with the key [key], the model [gemini-2.5-flash] and the temperature
    0.2, as a function of the prompt: the [text] of the response, or the
    error of the call. *)
Variable generateContent : string → string → Outcome (option string).

(** [getClient]: the client stands for the key it is made with. *)
Definition getClient : Outcome string :=
  match apiKey with
  | Some key => if JS.truthy key then Return key else Throw (mkError "API Key is missing.")
  | None => Throw (mkError "API Key is missing.")
  end.

Definition analyzeRepoArchitecture (filePaths : list string) : string :=
  let attempt :=
    match getClient with
    | Return ai =>
        let treeString := simplifyTreeForPrompt filePaths in
        match generateContent ai (analysisPrompt treeString) with
        | Return text => Return (textOr text "Could not generate analysis.")
        | Throw error => Throw error
        end
    | Throw error => Throw error
    end in
  match attempt with
  | Return analysis => analysis
  | Throw error =>
      "Failed to analyze repository structure: " +:+ messageOr error "Unknown error"
  end.

Definition generateCodeDocumentation (fileName fileContent : string) : string :=
  let attempt :=
    match getClient with
    | Return ai =>
        match generateContent ai (documentationPrompt fileName (contentToAnalyze fileContent)) with
        | Return text => Return (textOr text "Could not generate documentation.")
        | Throw error => Throw error
        end
    | Throw error => Throw error
    end in
  match attempt with
  | Return doc => doc
  | Throw error => "Failed to generate documentation: " +:+ messageOr error "Unknown error"
  end.

End WithHost.

End Gemini.

(** ** A host and a forge for the examples *)

Module Host.
Import Http ContentFetch TreeBuilder App.

Definition base64Value (c : ascii) : option N :=
  let n := N_of_ascii c in
  if (65 <=? n)%N && (n <=? 90)%N then Some (n - 65)%N
  else if (97 <=? n)%N && (n <=? 122)%N then Some (n - 71)%N
  else if (48 <=? n)%N && (n <=? 57)%N then Some (n + 4)%N
  else if Ascii.eqb c "+" then Some 62%N
  else if Ascii.eqb c "/" then Some 63%N
  else None.

Fixpoint base64Values (s : string) : option (list N) :=
  match s with
  | EmptyString => Some []
  | String c s' =>
      match base64Value c, base64Values s' with
      | Some v, Some vs => Some (v :: vs)
      | _, _ => None
      end
  end.

(** Four values of six bits are three bytes; of a last group of two or
    three values the bits that fill no byte are dropped. *)
Fixpoint base64Bytes (vs : list N) : string :=
  match vs with
  | a :: b :: c :: d :: rest =>
      String (ascii_of_N (a * 4 + b / 16))
        (String (ascii_of_N ((b mod 16) * 16 + c / 4))
           (String (ascii_of_N ((c mod 4) * 64 + d)) (base64Bytes rest)))
  | [a; b; c] =>
      String (ascii_of_N (a * 4 + b / 16))
        (String (ascii_of_N ((b mod 16) * 16 + c / 4)) EmptyString)
  | [a; b] => String (ascii_of_N (a * 4 + b / 16)) EmptyString
  | _ => EmptyString
  end.

Definition isAsciiWhitespace (c : ascii) : bool :=
  match c with
  | "009" | "010" | "012" | "013" | " " => true
  | _ => false
  end%char.

Fixpoint removeWhitespace (s : string) : string :=
  match s with
  | String c s' => if isAsciiWhitespace c then removeWhitespace s' else String c (removeWhitespace s')
  | EmptyString => EmptyString
  end.

Definition stripPadding (s : string) : string :=
  if (String.length s mod 4 =? 0) then
    if JS.endsWith s "==" then JS.slice_to_end_minus s 2
    else if JS.endsWith s "=" then JS.slice_to_end_minus s 1
    else s
  else s.

(** [atob], the forgiving base64 decoding of the platform. *)
Definition atob (data : string) : Outcome string :=
  let invalid :=
    Throw (mkError "Failed to execute 'atob' on 'Window': The string to be decoded is not correctly encoded.") in
  let data := stripPadding (removeWhitespace data) in
  if (String.length data mod 4 =? 1) then invalid
  else match base64Values data with
       | Some vs => Return (base64Bytes vs)
       | None => invalid
       end.

(** The decoder on bytes below 128, which stand for themselves. *)
Definition utf8Decode (bytes : string) : string := bytes.

Definition nullPropertyMessage : string := "Cannot read properties of null".
Definition notFunctionMessage : string := "str.replace is not a function".

(** A forge that answers by the address of the request alone; [fetch]
    fails for an address it does not know. *)
Fixpoint forge (answers : list (string * Response)) (log : list string) (url : string)
    : Outcome Response :=
  match answers with
  | [] => Throw (mkError "Failed to fetch")
  | (u, response) :: rest => if String.eqb u url then Return response else forge rest log url
  end.

Definition rateLimitedForge : Network :=
  forge [(contentsUrl "facebook" "react" "README.md" "main",
          mkResponse 403 "Forbidden" (Return JNull))].

Definition directoryForge : Network :=
  forge [(contentsUrl "facebook" "react" "src" "main",
          mkResponse 200 "OK" (Return (JArray [])));
         (blobUrl "facebook" "react" "abc123",
          mkResponse 200 "OK"
            (Return (JObject [("content", JString "aGVsbG8="); ("encoding", JString "base64")])))].

(** A forge that has the directory and not the blob. *)
Definition missingBlobForge : Network :=
  forge [(contentsUrl "facebook" "react" "src" "main",
          mkResponse 200 "OK" (Return (JArray [])));
         (blobUrl "facebook" "react" "abc123",
          mkResponse 404 "Not Found" (Return (JObject [("message", JString "Not Found")])))].

Definition emptyFileFields : list (string * JSON) :=
  [("name", JString ".gitkeep"); ("content", JString ""); ("encoding", JString "base64")].

Definition emptyFileForge : Network :=
  forge [(contentsUrl "facebook" "react" ".gitkeep" "main",
          mkResponse 200 "OK" (Return (JObject emptyFileFields)))].

Definition entry (p : string) (t : EntryType) : GitHubTreeItem :=
  mkItem p "100644" t ("sha:" +:+ p) None "".

(** A collation that takes no account of the soft hyphen, code unit 173, as
    the collations of the hosts do: strings are compared by code units once
    their soft hyphens are removed. *)
Fixpoint removeSoftHyphens (s : string) : string :=
  match s with
  | String c s' =>
      if Ascii.eqb c "173" then removeSoftHyphens s' else String c (removeSoftHyphens s')
  | EmptyString => EmptyString
  end.

Definition softHyphenCompare (a b : string) : comparison :=
  String.compare (removeSoftHyphens a) (removeSoftHyphens b).

(** The path [a] followed by a soft hyphen. *)
Definition softHyphenPath : string := String "a" (String "173" EmptyString).

Definition mainBranch : GitHubBranch := mkBranch "main" (mkCommit "c0ffee" "").
Definition devBranch : GitHubBranch := mkBranch "dev" (mkCommit "decade" "").

Definition reactDetails (defaultBranch : string) : RepoDetails :=
  mkRepoDetails "facebook" "react" "The library for web and native user interfaces." 0 0
    defaultBranch.

Definition firstRender : Model :=
  mkModel "facebook/react" IDLE None None [] "" [] [] None false None None overview.

End Host.

(** * Properties *)

(** ** URL parser *)

Section UrlParserProperties.
Import UrlParser.

Example parseRepoUrl_owner_repo :
  parseRepoUrl URL_http "facebook/react" = Some (mkRepoId "facebook" "react").
Proof. reflexivity. Qed.

(** The step that removes the suffix [.git] runs before the step that
    removes a trailing slash, so it misses a suffix that a slash follows:
    [.git/] loses the slash only. *)
Lemma preprocess_git_slash :
  preprocess "https://github.com/facebook/react.git/" = "https://github.com/facebook/react.git"
  ∧ preprocess "https://github.com/facebook/react.git" = "https://github.com/facebook/react".
Proof. split; reflexivity. Qed.

(** C3: the code does not do what the claim says, and what its own step
    for the suffix is there for. The suffix [.git] is looked for at the
    very end of the trimmed input, before the trailing slash is removed, so
    ["https://github.com/facebook/react.git/"] keeps it and maps to
    [facebook] and [react.git], not to [react], for every host that parses
    the URL left after the slash is removed as the host [github.com] with
    the path [/facebook/react.git]; without the trailing slash the suffix
    is removed, and the input maps to [facebook] and [react]. *)
Theorem parseRepoUrl_git_before_slash (URL : string → option URLRecord) :
  URL "https://github.com/facebook/react.git" = Some (mkURL "github.com" "/facebook/react.git") →
  URL "https://github.com/facebook/react" = Some (mkURL "github.com" "/facebook/react") →
  parseRepoUrl URL "https://github.com/facebook/react.git/" = Some (mkRepoId "facebook" "react.git")
  ∧ parseRepoUrl URL "https://github.com/facebook/react.git" = Some (mkRepoId "facebook" "react").
Proof.
  intros Hgit Hplain.
  destruct preprocess_git_slash as [Hp1 Hp2].
  unfold parseRepoUrl. rewrite Hp1, Hp2.
  split.
  - change (parseFullUrl URL "https://github.com/facebook/react.git"
            = Some (mkRepoId "facebook" "react.git")).
    unfold parseFullUrl. rewrite Hgit. reflexivity.
  - change (parseFullUrl URL "https://github.com/facebook/react"
            = Some (mkRepoId "facebook" "react")).
    unfold parseFullUrl. rewrite Hplain. reflexivity.
Qed.

Lemma parseRepoUrl_git_before_slash_witness :
  parseRepoUrl URL_http "https://github.com/facebook/react.git/" = Some (mkRepoId "facebook" "react.git")
  ∧ parseRepoUrl URL_http "https://github.com/facebook/react.git" = Some (mkRepoId "facebook" "react").
Proof. apply (parseRepoUrl_git_before_slash URL_http); reflexivity. Defined.

(** On the example host, the repository of
    ["https://github.com/facebook/react.git/"] is [react.git], not
    [react]. *)
Lemma parseRepoUrl_git_slash_not_react :
  parseRepoUrl URL_http "https://github.com/facebook/react.git/" = Some (mkRepoId "facebook" "react.git")
  ∧ parseRepoUrl URL_http "https://github.com/facebook/react.git/" ≠ Some (mkRepoId "facebook" "react").
Proof. split; [reflexivity | discriminate]. Qed.

(** C4, as the code has it: the fallback is tried only for a preprocessed
    string that does not start with [http] (and has no forge hostname in
    it). Such a string that failed the strict pattern and splits into two
    parts gives these parts, whatever the host's [URL] does. *)
Theorem parseRepoUrl_fallback (URL : string → option URLRecord) (input a b : string) :
  simplePattern_test (preprocess input) = false →
  JS.startsWith (preprocess input) "http" = false →
  JS.includes (preprocess input) "github.com" = false →
  JS.split "/" (preprocess input) = [a; b] →
  parseRepoUrl URL input = Some (mkRepoId a b).
Proof.
  intros Hpat Hhttp Hhost Hsplit.
  unfold parseRepoUrl. rewrite Hpat, Hhttp, Hhost, Hsplit. reflexivity.
Qed.

Lemma parseRepoUrl_fallback_witness :
  parseRepoUrl URL_http " my org/a+b " = Some (mkRepoId "my org" "a+b").
Proof. apply (parseRepoUrl_fallback URL_http " my org/a+b " "my org" "a+b"); reflexivity. Defined.

(** C4, as the spec states it, fails for a string that starts with [http]:
    ["http/a+b"] splits into the two parts [http] and [a+b], fails the
    strict pattern and has no forge hostname, and the fallback is skipped;
    the string is no URL, and the result is [null]. *)
Lemma parseRepoUrl_fallback_skipped_after_http :
  JS.split "/" (preprocess "http/a+b") = ["http"; "a+b"]
  ∧ simplePattern_test (preprocess "http/a+b") = false
  ∧ JS.includes (preprocess "http/a+b") "github.com" = false
  ∧ parseRepoUrl URL_http "http/a+b" = None.
Proof. repeat split; reflexivity. Qed.

(** A string that starts with [http] never reaches the fallback: the result
    is the one of the host's [URL] alone. *)
Lemma parseRepoUrl_http_prefix (URL : string → option URLRecord) (input : string) :
  simplePattern_test (preprocess input) = false →
  JS.startsWith (preprocess input) "http" = true →
  parseRepoUrl URL input = parseFullUrl URL (preprocess input).
Proof.
  intros Hpat Hhttp. unfold parseRepoUrl. rewrite Hpat, Hhttp. reflexivity.
Qed.

End UrlParserProperties.

(** ** Forge API client: classification of responses *)

Section ApiClientProperties.
Import Http.

Lemma ok_range (response : Response) :
  ok response = true ↔ 200 ≤ status response ≤ 299.
Proof.
  unfold ok. rewrite andb_true_iff, !Nat.leb_le. reflexivity.
Qed.

(** C5: a 2xx response gives its parsed body (or the error of parsing
    it); 403 and 429 fail with [RateLimitExceeded], 404 with
    [NotFoundOrPrivate], 401 with [BadCredentials], and every other status
    outside 200-299 with the [ApiError] of the status and its text, whose
    message spells both out. *)
Theorem handleApiResponse_classification (response : Response) :
  (200 ≤ status response ≤ 299 → handleApiResponse response = json response)
  ∧ (status response = 403 ∨ status response = 429 →
     handleApiResponse response = Throw RateLimitExceeded)
  ∧ (status response = 404 → handleApiResponse response = Throw NotFoundOrPrivate)
  ∧ (status response = 401 → handleApiResponse response = Throw BadCredentials)
  ∧ (¬ 200 ≤ status response ≤ 299 →
     status response ∉ [403; 429; 404; 401] →
     handleApiResponse response = Throw (ApiError (status response) (statusText response))
     ∧ message (ApiError (status response) (statusText response))
       = "GitHub API Error: " +:+ pretty (status response) +:+ " " +:+ statusText response)
  ∧ message (ApiError 500 "Internal Server Error") = "GitHub API Error: 500 Internal Server Error".
Proof.
  unfold handleApiResponse.
  repeat split.
  - intros Hok. apply ok_range in Hok. rewrite Hok. reflexivity.
  - unfold ok. intros [H | H]; rewrite H; reflexivity.
  - unfold ok. intros H; rewrite H; reflexivity.
  - unfold ok. intros H; rewrite H; reflexivity.
  - destruct (ok response) eqn:Hok; [apply ok_range in Hok; contradiction |].
    rewrite !not_elem_of_cons in H0. destruct H0 as (H403 & H429 & H404 & H401 & _).
    apply Nat.eqb_neq in H403, H429, H404, H401.
    rewrite H403, H429, H404, H401. reflexivity.
Qed.

End ApiClientProperties.

(** ** Content fetch fallback chain *)

Section ContentFetchProperties.
Import Http ContentFetch.

Variable atob : string → Outcome string.
Variable utf8Decode : string → string.
Variable nullPropertyMessage notFunctionMessage : string.

#[local] Abbreviation fetchFileContent :=
  (ContentFetch.fetchFileContent atob utf8Decode nullPropertyMessage notFunctionMessage).
#[local] Abbreviation contentsStrategy :=
  (ContentFetch.contentsStrategy atob utf8Decode nullPropertyMessage notFunctionMessage).
#[local] Abbreviation blobStrategy :=
  (ContentFetch.blobStrategy atob utf8Decode nullPropertyMessage notFunctionMessage).
#[local] Abbreviation decodeContent := (ContentFetch.decodeContent atob utf8Decode notFunctionMessage).
#[local] Abbreviation getProp := (ContentFetch.getProp nullPropertyMessage).
#[local] Abbreviation blobResult :=
  (ContentFetch.blobResult atob utf8Decode nullPropertyMessage notFunctionMessage).

(** Running a sequence runs its first part, and the rest on its result. *)
Lemma run_bind {A B} (net : Network) (p : Async A) (f : A → Async B) (log : list string) :
  run net log (bind p f) =
  match run net log p with
  | (Return a, log') => run net log' (f a)
  | (Throw e, log') => (Throw e, log')
  end.
Proof.
  revert log. induction p as [[a | e] | url k IH]; intros log; simpl; [done | done |].
  apply IH.
Qed.

Lemma run_tryCatch {A} (net : Network) (p : Async A) (h : Error → Async A) (log : list string) :
  run net log (tryCatch p h) =
  match run net log p with
  | (Return a, log') => (Return a, log')
  | (Throw e, log') => run net log' (h e)
  end.
Proof.
  revert log. induction p as [[a | e] | url k IH]; intros log; simpl; [done | done |].
  apply IH.
Qed.

Lemma rateLimited_not_ok (response : Response) :
  rateLimited response = true → ok response = false.
Proof.
  unfold rateLimited, ok. rewrite orb_true_iff, !Nat.eqb_eq.
  intros [-> | ->]; reflexivity.
Qed.

(** The path-addressed strategy on a response that is rate limited. *)
Lemma contentsStrategy_rate_limited (net : Network) owner repo path ref response :
  net [] (contentsUrl owner repo path ref) = Return response →
  rateLimited response = true →
  run net [] (contentsStrategy owner repo path ref)
  = (Throw RateLimit, [contentsUrl owner repo path ref]).
Proof.
  intros Hnet Hlimit. unfold ContentFetch.contentsStrategy, mbind, Async_bind.
  rewrite run_tryCatch, run_bind. simpl. rewrite Hnet.
  rewrite (rateLimited_not_ok _ Hlimit), Hlimit. reflexivity.
Qed.

(** C2: when the contents request is answered with status 403 or 429, the
    call fails with the rate limit error and the contents request is the
    only request made, with or without a content identifier. *)
Theorem fetchFileContent_rate_limit_short_circuit
    (net : Network) (owner repo path ref : string) (sha : option string) (response : Response) :
  net [] (contentsUrl owner repo path ref) = Return response →
  status response = 403 ∨ status response = 429 →
  run net [] (fetchFileContent owner repo path ref sha)
  = (Throw RateLimit, [contentsUrl owner repo path ref]).
Proof.
  intros Hnet Hstatus.
  assert (rateLimited response = true) as Hlimit.
  { unfold rateLimited. destruct Hstatus as [-> | ->]; reflexivity. }
  unfold ContentFetch.fetchFileContent, mbind, Async_bind. rewrite run_bind.
  rewrite (contentsStrategy_rate_limited net _ _ _ _ _ Hnet Hlimit). reflexivity.
Qed.

(** The [catch] of a strategy ends it: with the error, when its message has
    [Rate Limit] in it, and with no result otherwise. *)
Lemma run_rethrowRateLimit {A} (net : Network) (log : list string) (e : Error) :
  run net log (rethrowRateLimit (A := A) e)
  = (if JS.includes (message e) "Rate Limit" then Throw e else Return None, log).
Proof. unfold rethrowRateLimit. destruct (JS.includes _ _); reflexivity. Qed.

Lemma strictEqualsString_true (v : option JSON) (s : string) :
  strictEqualsString v s = true → v = Some (JString s).
Proof.
  destruct v as [[] |]; simpl; try discriminate.
  intros H. apply String.eqb_eq in H. by subst.
Qed.

Lemma run_blobStrategy (net : Network) (log : list string) (owner repo s : string) :
  ∃ o, run net log (blobStrategy owner repo s) = (o, log ++ [blobUrl owner repo s])
       ∧ blobResult net log owner repo s o.
Proof.
  unfold ContentFetch.blobStrategy, ContentFetch.blobResult, mbind, Async_bind.
  rewrite run_tryCatch, run_bind. simpl.
  assert (∀ e : Error, ∃ o : Outcome (option string),
            run net (log ++ [blobUrl owner repo s]) (rethrowRateLimit e)
            = (o, log ++ [blobUrl owner repo s])
            ∧ (o = Return None
               ∨ (∃ e', o = Throw e' ∧ JS.includes (message e') "Rate Limit" = true)
               ∨ ∃ (response : Response) (data c : JSON) (text : string),
                   net log (blobUrl owner repo s) = Return response
                   ∧ ok response = true
                   ∧ json response = Return data
                   ∧ getProp data "content" = Return (Some c)
                   ∧ getProp data "encoding" = Return (Some (JString "base64"))
                   ∧ decodeContent c = Return text
                   ∧ o = Return (Some text))) as Hcatch'.
  { intros e. rewrite run_rethrowRateLimit.
    destruct (JS.includes (message e) "Rate Limit") eqn:Hinc.
    - exists (Throw e). split; [reflexivity |]. right; left. eauto.
    - exists (Return None). split; [reflexivity |]. left; reflexivity. }
  destruct (net log (blobUrl owner repo s)) as [response | e] eqn:Hnet; simpl; [| apply Hcatch'].
  destruct (ok response) eqn:Hok; simpl.
  2: { destruct (rateLimited response); [exact (Hcatch' RateLimit) | simpl; (exists (Return None); split; [reflexivity | left; reflexivity])]. }
  destruct (json response) as [data | e] eqn:Hjson; simpl; [| apply Hcatch'].
  destruct (getProp data "content") as [[c |] | e] eqn:Hcontent; simpl;
    [| (exists (Return None); split; [reflexivity | left; reflexivity]) | apply Hcatch'].
  destruct (truthy c) eqn:Htruthy; simpl; [| (exists (Return None); split; [reflexivity | left; reflexivity])].
  destruct (getProp data "encoding") as [encoding | e] eqn:Hencoding; simpl; [| apply Hcatch'].
  destruct (strictEqualsString encoding "base64") eqn:Hbase64; simpl; [| (exists (Return None); split; [reflexivity | left; reflexivity])].
  apply strictEqualsString_true in Hbase64 as ->.
  destruct (decodeContent c) as [text | e] eqn:Hdecode; simpl; [| apply Hcatch'].
  eexists; split; [reflexivity |]. right; right.
  exists response, data, c, text. repeat split; assumption || reflexivity.
Qed.

(** The path-addressed strategy on a payload that is an array: no result,
    after the one request. *)
Lemma contentsStrategy_array (net : Network) owner repo path ref response items :
  net [] (contentsUrl owner repo path ref) = Return response →
  ok response = true →
  json response = Return (JArray items) →
  run net [] (contentsStrategy owner repo path ref)
  = (Return None, [contentsUrl owner repo path ref]).
Proof.
  intros Hnet Hok Hjson. unfold ContentFetch.contentsStrategy, mbind, Async_bind.
  rewrite run_tryCatch, run_bind. simpl. rewrite Hnet. simpl.
  rewrite Hok, Hjson. reflexivity.
Qed.

(** After a path-addressed strategy with no result, the call is what the
    blob strategy makes of it. *)
Lemma fetchFileContent_after_contents (net : Network) owner repo path ref sha :
  run net [] (contentsStrategy owner repo path ref)
  = (Return None, [contentsUrl owner repo path ref]) →
  (sha = None ∨ sha = Some "" →
   run net [] (fetchFileContent owner repo path ref sha)
   = (Throw ContentUnavailable, [contentsUrl owner repo path ref]))
  ∧ (∀ s, sha = Some s → JS.truthy s = true →
     ∃ outcome,
       run net [] (fetchFileContent owner repo path ref sha)
       = (outcome, [contentsUrl owner repo path ref; blobUrl owner repo s])
       ∧ (outcome = Throw ContentUnavailable
          ∨ (∃ e, outcome = Throw e ∧ JS.includes (message e) "Rate Limit" = true)
          ∨ (∃ response2 data c text,
               net [contentsUrl owner repo path ref] (blobUrl owner repo s) = Return response2
               ∧ ok response2 = true
               ∧ json response2 = Return data
               ∧ getProp data "content" = Return (Some c)
               ∧ decodeContent c = Return text
               ∧ outcome = Return text))).
Proof.
  intros Hfirst. split.
  - intros Hsha. unfold ContentFetch.fetchFileContent, mbind, Async_bind.
    rewrite run_bind, Hfirst. destruct Hsha as [-> | ->]; reflexivity.
  - intros s -> Hs. unfold ContentFetch.fetchFileContent, mbind, Async_bind.
    rewrite run_bind, Hfirst, run_bind, Hs.
    destruct (run_blobStrategy net [contentsUrl owner repo path ref] owner repo s)
      as (o & Hrun & Ho).
    rewrite Hrun. simpl.
    destruct Ho as [-> | [(e & -> & He) | (r2 & data & c & text & ? & ? & ? & ? & ? & ? & ->)]].
    + eexists; split; [reflexivity |]. left; reflexivity.
    + eexists; split; [reflexivity |]. right; left. eauto.
    + eexists; split; [reflexivity |]. right; right.
      exists r2, data, c, text. repeat split; assumption || reflexivity.
Qed.

(** The blob strategy has no result when the forge refuses the blob request
    with a status other than 403 and 429, and when the request fails with
    an error that does not name the rate limit. *)
Lemma blobStrategy_refused (net : Network) (log : list string) (owner repo s : string)
    (response : Response) :
  net log (blobUrl owner repo s) = Return response →
  ok response = false → rateLimited response = false →
  run net log (blobStrategy owner repo s) = (Return None, log ++ [blobUrl owner repo s]).
Proof.
  intros Hnet Hok Hlimit. unfold ContentFetch.blobStrategy, mbind, Async_bind.
  rewrite run_tryCatch, run_bind. simpl. rewrite Hnet. simpl.
  rewrite Hok, Hlimit. reflexivity.
Qed.

Lemma blobStrategy_rejected (net : Network) (log : list string) (owner repo s : string)
    (e : Error) :
  net log (blobUrl owner repo s) = Throw e →
  JS.includes (message e) "Rate Limit" = false →
  run net log (blobStrategy owner repo s) = (Return None, log ++ [blobUrl owner repo s]).
Proof.
  intros Hnet Hmessage. unfold ContentFetch.blobStrategy, mbind, Async_bind.
  rewrite run_tryCatch, run_bind. simpl. rewrite Hnet. simpl.
  rewrite run_rethrowRateLimit, Hmessage. reflexivity.
Qed.


(** The path-addressed strategy on an object whose [content] is the empty
    string: no result. *)
Lemma contentsStrategy_empty_content (net : Network) owner repo path ref response fields :
  net [] (contentsUrl owner repo path ref) = Return response →
  ok response = true →
  json response = Return (JObject fields) →
  field "content" fields = Some (JString "") →
  run net [] (contentsStrategy owner repo path ref)
  = (Return None, [contentsUrl owner repo path ref]).
Proof.
  intros Hnet Hok Hjson Hfield. unfold ContentFetch.contentsStrategy, mbind, Async_bind.
  rewrite run_tryCatch, run_bind. simpl. rewrite Hnet. simpl.
  rewrite Hok, Hjson. simpl. rewrite Hfield. reflexivity.
Qed.

(** C10: a 2xx contents response whose payload is an object with the empty
    string as [content] gives no result in the path-addressed strategy: the
    empty string is falsy. With no content identifier (left out, or empty)
    the call fails with [ContentUnavailable]; with one, the blob request is
    made next. *)
Theorem fetchFileContent_empty_file
    (net : Network) (owner repo path ref : string) (sha : option string)
    (response : Response) (fields : list (string * JSON)) :
  net [] (contentsUrl owner repo path ref) = Return response →
  ok response = true →
  json response = Return (JObject fields) →
  field "content" fields = Some (JString "") →
  run net [] (contentsStrategy owner repo path ref)
  = (Return None, [contentsUrl owner repo path ref])
  ∧ (sha = None ∨ sha = Some "" →
     run net [] (fetchFileContent owner repo path ref sha)
     = (Throw ContentUnavailable, [contentsUrl owner repo path ref]))
  ∧ (∀ s, sha = Some s → JS.truthy s = true →
     (run net [] (fetchFileContent owner repo path ref sha)).2
     = [contentsUrl owner repo path ref; blobUrl owner repo s]).
Proof.
  intros Hnet Hok Hjson Hfield.
  pose proof (contentsStrategy_empty_content net owner repo path ref response fields
                Hnet Hok Hjson Hfield) as Hfirst.
  split; [exact Hfirst |].
  destruct (fetchFileContent_after_contents net owner repo path ref sha Hfirst) as [Hnone Hsome].
  split; [exact Hnone |].
  intros s Hsha Hs. destruct (Hsome s Hsha Hs) as (outcome & -> & _). reflexivity.
Qed.

(** What the path-addressed strategy can end with: it makes one request,
    and ends with no result, with text, or with an error that has
    [Rate Limit] in its message. *)
Lemma run_contentsStrategy (net : Network) (owner repo path ref : string) :
  ∃ o, run net [] (contentsStrategy owner repo path ref)
       = (o, [contentsUrl owner repo path ref])
       ∧ (o = Return None
          ∨ (∃ text, o = Return (Some text))
          ∨ (∃ e, o = Throw e ∧ JS.includes (message e) "Rate Limit" = true)).
Proof.
  unfold ContentFetch.contentsStrategy, mbind, Async_bind.
  rewrite run_tryCatch, run_bind. simpl.
  assert (∀ e : Error, ∃ o : Outcome (option string),
            run net [contentsUrl owner repo path ref] (rethrowRateLimit e)
            = (o, [contentsUrl owner repo path ref])
            ∧ (o = Return None
               ∨ (∃ text, o = Return (Some text))
               ∨ (∃ e', o = Throw e' ∧ JS.includes (message e') "Rate Limit" = true))) as Hcatch.
  { intros e. rewrite run_rethrowRateLimit.
    destruct (JS.includes (message e) "Rate Limit") eqn:Hinc.
    - exists (Throw e). split; [reflexivity |]. right; right. eauto.
    - exists (Return None). split; [reflexivity |]. left; reflexivity. }
  destruct (net [] (contentsUrl owner repo path ref)) as [response | e]; simpl; [| apply Hcatch].
  destruct (ok response); simpl.
  2: { destruct (rateLimited response);
         [exact (Hcatch RateLimit)
         | simpl; exists (Return None); split; [reflexivity | left; reflexivity]]. }
  destruct (json response) as [data | e]; simpl; [| apply Hcatch].
  destruct (isArray data); simpl;
    [exists (Return None); split; [reflexivity | left; reflexivity] |].
  destruct (getProp data "content") as [[c |] | e]; simpl;
    [| exists (Return None); split; [reflexivity | left; reflexivity] | apply Hcatch].
  destruct (truthy c); simpl;
    [| exists (Return None); split; [reflexivity | left; reflexivity]].
  destruct (decodeContent c) as [text | e]; simpl; [| apply Hcatch].
  exists (Return (Some text)). split; [reflexivity |]. right; left. by exists text.
Qed.

(** Every call makes the contents request, and after it at most the blob
    request, which needs a content identifier that is not empty. It ends
    with text, with an error that has [Rate Limit] in its message, or with
    [ContentUnavailable]. *)
Theorem fetchFileContent_outcomes
    (net : Network) (owner repo path ref : string) (sha : option string) :
  ∃ outcome log,
    run net [] (fetchFileContent owner repo path ref sha) = (outcome, log)
    ∧ (log = [contentsUrl owner repo path ref]
       ∨ ∃ s, sha = Some s ∧ JS.truthy s = true
              ∧ log = [contentsUrl owner repo path ref; blobUrl owner repo s])
    ∧ ((∃ text, outcome = Return text)
       ∨ (∃ e, outcome = Throw e ∧ JS.includes (message e) "Rate Limit" = true)
       ∨ outcome = Throw ContentUnavailable).
Proof.
  destruct (run_contentsStrategy net owner repo path ref)
    as (o1 & Hrun1 & [-> | [[text ->] | (e & -> & He)]]).
  - destruct (fetchFileContent_after_contents net owner repo path ref sha Hrun1)
      as [Hnone Hsome].
    destruct sha as [s |]; [destruct (JS.truthy s) eqn:Hs |].
    + destruct (Hsome s eq_refl Hs) as (outcome & Hrun & Hcases).
      exists outcome, [contentsUrl owner repo path ref; blobUrl owner repo s].
      split; [exact Hrun |]. split; [right; by exists s |].
      destruct Hcases as [-> | [(e & -> & He) | (r2 & data & c & text & _ & _ & _ & _ & _ & ->)]].
      * right; right; reflexivity.
      * right; left. by exists e.
      * left. by exists text.
    + assert (s = EmptyString) as -> by (by destruct s).
      exists (Throw ContentUnavailable), [contentsUrl owner repo path ref].
      split; [apply Hnone; by right |]. split; [by left |]. right; right; reflexivity.
    + exists (Throw ContentUnavailable), [contentsUrl owner repo path ref].
      split; [apply Hnone; by left |]. split; [by left |]. right; right; reflexivity.
  - exists (Return text), [contentsUrl owner repo path ref].
    split; [| split; [by left | left; by exists text]].
    unfold ContentFetch.fetchFileContent, mbind, Async_bind. by rewrite run_bind, Hrun1.
  - exists (Throw e), [contentsUrl owner repo path ref].
    split; [| split; [by left | right; left; by exists e]].
    unfold ContentFetch.fetchFileContent, mbind, Async_bind. by rewrite run_bind, Hrun1.
Qed.

(** [decodeContent] of a string is the text of its base64 decoding, and the
    error of [atob] when that fails: the [catch] of [decodeContent] calls
    [atob] with what made it throw. *)
Theorem decodeContent_string (s : string) :
  decodeContent (JString s)
  = match atob (removeNewlines s) with
    | Return binaryString => Return (utf8Decode binaryString)
    | Throw e => Throw e
    end.
Proof.
  unfold ContentFetch.decodeContent. simpl.
  destruct (atob (removeNewlines s)) as [binaryString | e]; reflexivity.
Qed.

End ContentFetchProperties.

(** ** Loading a repository: the branch that is selected *)

Section AppProperties.
Import Http UrlParser TreeBuilder App.

Variable URL : string → option URLRecord.
Variable localeCompare : string → string → comparison.
Variable fetchRepoDetails : string → string → Outcome RepoDetails.
Variable fetchBranches : string → string → Outcome (list GitHubBranch).
Variable fetchTree : string → string → string → Outcome (list GitHubTreeItem).
Variable analyzeRepoArchitecture : list string → string.

#[local] Abbreviation fetchRepoTree :=
  (App.fetchRepoTree localeCompare fetchTree analyzeRepoArchitecture).
#[local] Abbreviation handleFetchRepo :=
  (App.handleFetchRepo URL localeCompare fetchRepoDetails fetchBranches fetchTree
     analyzeRepoArchitecture).

#[local] Arguments findBranch : simpl never.

(** Loading the tree leaves the selected branch as it is. *)
Lemma fetchRepoTree_selectedBranch (render : Model) (owner repo branchName : string) (m : Model) :
  selectedBranch (fetchRepoTree render owner repo branchName m) = selectedBranch m.
Proof.
  unfold App.fetchRepoTree.
  destruct (findBranch branchName (branches render)) as [branch |]; [| reflexivity].
  destruct (fetchTree owner repo (commit_sha (branch_commit branch))); reflexivity.
Qed.

Lemma findBranch_Some (name : string) (branchList : list GitHubBranch) (b : GitHubBranch) :
  findBranch name branchList = Some b → b ∈ branchList ∧ branch_name b = name.
Proof.
  unfold findBranch. intros H. apply find_some in H as [Hin Heq].
  split; [by apply list_elem_of_In | by apply String.eqb_eq].
Qed.

Lemma findBranch_None (name : string) (branchList : list GitHubBranch) :
  findBranch name branchList = None ↔ ∀ b, b ∈ branchList → branch_name b ≠ name.
Proof.
  unfold findBranch. split.
  - intros H b Hin Heq. apply list_elem_of_In in Hin.
    pose proof (find_none _ _ H b Hin) as Hb. simpl in Hb.
    apply String.eqb_neq in Hb. contradiction.
  - intros H. destruct (List.find _ branchList) as [b |] eqn:Hfind; [| reflexivity].
    apply find_some in Hfind as [Hin Heq].
    apply String.eqb_eq in Heq. apply list_elem_of_In in Hin.
    destruct (H b Hin Heq).
Qed.

(** C9: when the input parses, the summary is fetched and the branch list
    is fetched and not empty, the selected branch is the default branch of
    the summary if a branch of the list has that name, and the first branch
    of the list otherwise. *)
Theorem handleFetchRepo_selects_default_branch
    (render m : Model) (parsed : RepoId) (details : RepoDetails)
    (first : GitHubBranch) (others : list GitHubBranch) :
  JS.truthy (JS.trim (urlInput render)) = true →
  parseRepoUrl URL (urlInput render) = Some parsed →
  fetchRepoDetails (owner parsed) (repo parsed) = Return details →
  fetchBranches (owner parsed) (repo parsed) = Return (first :: others) →
  ((∃ b, b ∈ first :: others ∧ branch_name b = default_branch details) →
   selectedBranch (handleFetchRepo render m) = default_branch details)
  ∧ ((∀ b, b ∈ first :: others → branch_name b ≠ default_branch details) →
     selectedBranch (handleFetchRepo render m) = branch_name first).
Proof.
  intros Hinput Hparsed Hdetails Hbranches.
  unfold App.handleFetchRepo.
  rewrite Hinput, Hparsed, Hdetails, Hbranches. simpl.
  rewrite fetchRepoTree_selectedBranch. simpl.
  split.
  - intros (b & Hin & Hname).
    destruct (findBranch (default_branch details) (first :: others)) as [found |] eqn:Hfind.
    + apply findBranch_Some in Hfind as [_ Hfound]. exact Hfound.
    + exfalso. exact (proj1 (findBranch_None _ _) Hfind b Hin Hname).
  - intros Habsent. apply findBranch_None in Habsent. rewrite Habsent. reflexivity.
Qed.

End AppProperties.

(** ** Tree builder *)

Section TreeBuilderProperties.
Import TreeBuilder.

Variable localeCompare : string → string → comparison.
Hypothesis consistent : Consistent localeCompare.

#[local] Abbreviation compareItems := (TreeBuilder.compareItems localeCompare).
#[local] Abbreviation insertItem := (TreeBuilder.insertItem localeCompare).
#[local] Abbreviation sortItems := (TreeBuilder.sortItems localeCompare).
#[local] Abbreviation build := (TreeBuilder.build localeCompare).
#[local] Abbreviation buildTreeStructure := (TreeBuilder.buildTreeStructure localeCompare).
#[local] Abbreviation precedes := (TreeBuilder.precedes localeCompare).
#[local] Abbreviation itemOrder := (TreeBuilder.itemOrder localeCompare).
#[local] Abbreviation cellOrder := (TreeBuilder.cellOrder localeCompare).
#[local] Abbreviation siblingOrder := (TreeBuilder.siblingOrder localeCompare).
#[local] Abbreviation Ordered := (TreeBuilder.Ordered localeCompare).

(** *** The order of the comparator *)

Lemma localeCompare_refl (a : string) : localeCompare a a = Eq.
Proof.
  pose proof (consistent_flip _ consistent a a) as H.
  destruct (localeCompare a a); simpl in H; congruence.
Qed.

Lemma compareItems_precedes (a b : GitHubTreeItem) :
  compareItems a b ≠ Gt ↔ itemOrder a b.
Proof.
  unfold TreeBuilder.compareItems, TreeBuilder.itemOrder, TreeBuilder.precedes.
  destruct (item_type a), (item_type b); simpl; try case_decide; try done.
Qed.

Lemma precedes_total ta pa tb pb : precedes ta pa tb pb ∨ precedes tb pb ta pa.
Proof.
  unfold TreeBuilder.precedes. destruct ta, tb; auto.
  all: pose proof (consistent_flip _ consistent pa pb) as H.
  all: destruct (localeCompare pa pb); simpl in H; rewrite ?H; auto.
  all: right; congruence.
Qed.

Lemma precedes_trans ta pa tb pb tc pc :
  precedes ta pa tb pb → precedes tb pb tc pc → precedes ta pa tc pc.
Proof.
  unfold TreeBuilder.precedes. destruct ta, tb, tc; try done.
  all: apply (consistent_trans _ consistent).
Qed.

Lemma precedes_both ta pa tb pb :
  precedes ta pa tb pb → precedes tb pb ta pa → ta = tb ∧ localeCompare pa pb = Eq.
Proof.
  unfold TreeBuilder.precedes. destruct ta, tb; try done.
  all: intros H1 H2; split; [done |].
  all: pose proof (consistent_flip _ consistent pa pb) as H.
  all: destruct (localeCompare pa pb); simpl in H; congruence.
Qed.

Lemma itemOrder_trans : Transitive itemOrder.
Proof. intros a b c. apply precedes_trans. Qed.

#[local] Existing Instance itemOrder_trans.

(** *** The sort *)

Lemma insertItem_Permutation (x : GitHubTreeItem) (l : list GitHubTreeItem) :
  insertItem x l ≡ₚ x :: l.
Proof.
  induction l as [| y l IH]; simpl; [done |].
  destruct (compareItems x y); try done.
  rewrite IH. apply Permutation_swap.
Qed.

Lemma sortItems_Permutation (items : list GitHubTreeItem) : sortItems items ≡ₚ items.
Proof.
  induction items as [| x items IH]; simpl; [done |].
  rewrite insertItem_Permutation. by rewrite IH.
Qed.

Lemma insertItem_sorted (x : GitHubTreeItem) (l : list GitHubTreeItem) :
  StronglySorted itemOrder l → StronglySorted itemOrder (insertItem x l).
Proof.
  induction l as [| y l IH]; intros Hsorted; simpl.
  { repeat constructor. }
  apply StronglySorted_inv in Hsorted as [Hl Hy].
  destruct (compareItems x y) eqn:Hcmp.
  - constructor; [by constructor |].
    assert (itemOrder x y) as Hxy by (apply compareItems_precedes; congruence).
    constructor; [done |].
    eapply Forall_impl; [exact Hy |]. intros z Hz. by trans y.
  - constructor; [by constructor |].
    assert (itemOrder x y) as Hxy by (apply compareItems_precedes; congruence).
    constructor; [done |].
    eapply Forall_impl; [exact Hy |]. intros z Hz. by trans y.
  - constructor; [by apply IH |].
    assert (itemOrder y x) as Hyx.
    { destruct (precedes_total (item_type x) (item_path x) (item_type y) (item_path y)) as [H | H];
        [| exact H].
      apply compareItems_precedes in H. congruence. }
    rewrite insertItem_Permutation. by constructor.
Qed.

Lemma sortItems_sorted (items : list GitHubTreeItem) :
  StronglySorted itemOrder (sortItems items).
Proof.
  induction items as [| x items IH]; simpl; [constructor |].
  by apply insertItem_sorted.
Qed.

(** Two entries of a list with pairwise distinct paths that have one path
    are one entry. *)
Lemma same_path_same_item (l : list GitHubTreeItem) (x y : GitHubTreeItem) :
  NoDup (item_path <$> l) → x ∈ l → y ∈ l → item_path x = item_path y → x = y.
Proof.
  induction l as [| z l IH]; intros Hnodup Hx Hy Hpath; [by apply elem_of_nil in Hx |].
  rewrite fmap_cons in Hnodup. apply NoDup_cons in Hnodup as [Hz Hnodup].
  apply elem_of_cons in Hx as [-> | Hx]; apply elem_of_cons in Hy as [-> | Hy].
  - done.
  - exfalso. apply Hz. rewrite Hpath. by apply list_elem_of_fmap_2.
  - exfalso. apply Hz. rewrite <- Hpath. by apply list_elem_of_fmap_2.
  - by apply IH.
Qed.

(** With a collation that tells them apart, entries of pairwise distinct
    paths have one sorted order. *)
Lemma sorted_unique (l1 l2 : list GitHubTreeItem) :
  TellsApart localeCompare l1 →
  NoDup (item_path <$> l1) →
  StronglySorted itemOrder l1 → StronglySorted itemOrder l2 →
  l1 ≡ₚ l2 → l1 = l2.
Proof.
  revert l2.
  induction l1 as [| a l1 IH]; intros l2 Hsep Hnodup Hs1 Hs2 Hperm.
  { by apply Permutation_nil_l in Hperm. }
  destruct l2 as [| b l2]; [by apply Permutation_nil_r in Hperm |].
  assert (a = b) as <-.
  { destruct (decide (item_path a = item_path b)) as [Hpath | Hpath].
    - apply (same_path_same_item (a :: l1)); [done | by left | | done].
      rewrite Hperm. by left.
    - exfalso.
      apply StronglySorted_inv in Hs1 as [_ Ha]. apply StronglySorted_inv in Hs2 as [_ Hb].
      rewrite Forall_forall in Ha, Hb.
      assert (b ∈ l1) as Hb1.
      { assert (b ∈ a :: l1) as Hin by (rewrite Hperm; by left).
        apply elem_of_cons in Hin as [-> | Hin]; done. }
      assert (a ∈ l2) as Ha2.
      { assert (a ∈ b :: l2) as Hin by (rewrite <- Hperm; by left).
        apply elem_of_cons in Hin as [-> | Hin]; done. }
      destruct (precedes_both _ _ _ _ (Ha b Hb1) (Hb a Ha2)) as [Hty Heq].
      apply Hpath. apply Hsep; [by left | by right | done | done]. }
  f_equal. apply IH.
  - intros x y Hx Hy. apply Hsep; by right.
  - rewrite fmap_cons in Hnodup. by apply NoDup_cons in Hnodup as [_ ?].
  - by apply StronglySorted_inv in Hs1 as [? _].
  - by apply StronglySorted_inv in Hs2 as [? _].
  - by apply Permutation_cons_inv in Hperm.
Qed.

Lemma sortItems_permutation_invariant (items1 items2 : list GitHubTreeItem) :
  TellsApart localeCompare items1 →
  NoDup (item_path <$> items1) →
  items1 ≡ₚ items2 →
  sortItems items1 = sortItems items2.
Proof.
  intros Hsep Hnodup Hperm.
  apply sorted_unique; [| | apply sortItems_sorted | apply sortItems_sorted |].
  - intros a b Ha Hb. apply Hsep; by rewrite <- (sortItems_Permutation items1).
  - by rewrite sortItems_Permutation.
  - by rewrite !sortItems_Permutation.
Qed.


(** *** The parent path differs from the path *)

Lemma length_append (a b : string) :
  String.length (a +:+ b) = String.length a + String.length b.
Proof. induction a as [| c a IH]; [done |]. change (S (String.length (a +:+ b)) = S (String.length a) + String.length b). by rewrite IH. Qed.

Lemma join_cons_cons (sep x y : string) (rest : list string) :
  JS.join sep (x :: y :: rest) = x +:+ sep +:+ JS.join sep (y :: rest).
Proof. reflexivity. Qed.

Lemma join_split (sep : ascii) (s : string) :
  JS.join (String sep EmptyString) (JS.split sep s) = s.
Proof.
  induction s as [| c s IH]; [done |].
  simpl. destruct (Ascii.eqb c sep) eqn:Hc.
  - apply Ascii.eqb_eq in Hc as ->.
    destruct (JS.split sep s) as [| part parts] eqn:Hsplit; [by destruct s; simpl in *; repeat case_match |].
    rewrite join_cons_cons, IH. reflexivity.
  - destruct (JS.split sep s) as [| part parts] eqn:Hsplit; [by destruct s; simpl in *; repeat case_match |].
    destruct parts as [| part' parts].
    + simpl in *. by rewrite IH.
    + rewrite join_cons_cons. rewrite join_cons_cons in IH.
      change (String c (part +:+ String sep EmptyString +:+ JS.join (String sep EmptyString) (part' :: parts)) = String c s).
      by rewrite IH.
Qed.

Lemma join_removelast_shorter (sep : string) (parts : list string) :
  removelast parts ≠ [] →
  String.length (JS.join sep (removelast parts)) + String.length sep
  ≤ String.length (JS.join sep parts).
Proof.
  induction parts as [| x parts IH]; [done |].
  destruct parts as [| y rest]; [done |].
  intros _. change (removelast (x :: y :: rest)) with (x :: removelast (y :: rest)).
  rewrite join_cons_cons, !length_append.
  destruct (removelast (y :: rest)) as [| z zs] eqn:Hlast.
  - simpl. lia.
  - rewrite join_cons_cons, !length_append.
    assert (z :: zs ≠ []) as Hne by done.
    pose proof (IH Hne) as IH'. lia.
Qed.

(** The parent path of a path with a slash in it is shorter than the
    path. *)
Lemma parentPath_shorter (p : string) :
  removelast (JS.split "/" p) ≠ [] →
  String.length (JS.join "/" (removelast (JS.split "/" p))) < String.length p.
Proof.
  intros Hne.
  pose proof (join_removelast_shorter "/" (JS.split "/" p) Hne) as H.
  rewrite join_split in H. simpl in H. lia.
Qed.

Lemma parentPath_ne (p : string) :
  removelast (JS.split "/" p) ≠ [] →
  JS.join "/" (removelast (JS.split "/" p)) ≠ p.
Proof.
  intros Hne Heq. pose proof (parentPath_shorter p Hne) as H. rewrite Heq in H. lia.
Qed.

(** *** The invariant holds through the loop *)

Lemma mapGet_mapSet_VNode (b : Builder) (k k' : string) (r p : nat) :
  k' ≠ k →
  mapGet (mapSet b k r) k' = VNode p →
  own b !! k' = Some p ∨ proto b = Some p.
Proof.
  intros Hne. unfold mapGet, mapSet.
  destruct (String.eqb k "__proto__") eqn:Hk; simpl.
  - apply String.eqb_eq in Hk as ->.
    apply String.eqb_neq in Hne. rewrite Hne.
    destruct (own b !! k') as [q |]; [intros [= ->]; by left |].
    unfold cellProperty, inherited. intros H. repeat case_match; discriminate.
  - destruct (String.eqb k' "__proto__") eqn:Hk'.
    + destruct (proto b) as [q |]; [intros [= ->]; by right | discriminate].
    + rewrite lookup_insert_ne by done.
      destruct (own b !! k') as [q |]; [intros [= ->]; by left |].
      unfold cellProperty, inherited. intros H. repeat case_match; discriminate.
Qed.

Lemma Invariant_empty : Invariant [] emptyBuilder.
Proof.
  split; simpl; try done.
  split; constructor.
Qed.

Lemma Invariant_alloc (seen : list GitHubTreeItem) (b : Builder) (item : GitHubTreeItem)
    (fileName : string) :
  Invariant seen b →
  let node := mkCell fileName (item_path item) (item_type item) (item_sha item)
                (match item_type item with tree => Some [] | blob => None end) in
  let b1 := mkBuilder (heap b ++ [node]) (root b) (own b) (proto b) in
  Invariant (seen ++ [item]) b1 ∧ Fresh (length (heap b)) b1.
Proof.
  intros [Hpaths Htypes [Hroot1 Hroot2] Hkids Hown Hproto] node b1.
  split; [split | repeat split]; simpl.
  - by rewrite !fmap_app, Hpaths.
  - by rewrite !fmap_app, Htypes.
  - split; [done |]. eapply Forall_impl; [exact Hroot2 |]. intros k Hk. cbv beta in Hk. rewrite length_app. simpl. lia.
  - intros i c kids Hi Hc. apply lookup_snoc_Some in Hi as [[_ Hi] | [-> <-]].
    + destruct (Hkids i c kids Hi Hc) as [Hs Hb]. split; [done |].
      eapply Forall_impl; [exact Hb |]. intros k Hk. cbv beta in Hk. rewrite length_app. simpl. lia.
    + simpl in Hc. destruct (item_type item); [done |]. injection Hc as <-. split; constructor.
  - intros k q Hk. rewrite length_app. simpl. pose proof (Hown k q Hk). lia.
  - intros q Hq. rewrite length_app. simpl. pose proof (Hproto q Hq). lia.
  - rewrite length_app. simpl. lia.
  - done.
  - intros i c kids Hi Hc. apply lookup_snoc_Some in Hi as [[_ Hi] | [-> <-]].
    + destruct (Hkids i c kids Hi Hc) as [_ Hb].
      eapply Forall_impl; [exact Hb |]. intros k Hk. cbv beta in Hk. lia.
    + simpl in Hc. destruct (item_type item); [done |]. injection Hc as <-. constructor.
Qed.

Lemma Invariant_mapSet (seen : list GitHubTreeItem) (b : Builder) (k : string) (r : nat) :
  Invariant seen b → r < length (heap b) → Invariant seen (mapSet b k r).
Proof.
  intros [Hpaths Htypes Hroot Hkids Hown Hproto] Hr.
  unfold mapSet. destruct (String.eqb k "__proto__"); split; simpl; try done.
  - by intros q [= <-].
  - intros k' q. destruct (decide (k = k')) as [<- | Hne].
    + rewrite lookup_insert_eq. by intros [= <-].
    + rewrite lookup_insert_ne by done. apply Hown.
Qed.

Lemma Fresh_mapSet (b : Builder) (k : string) (r r' : nat) :
  Fresh r' b → Fresh r' (mapSet b k r).
Proof. unfold mapSet, Fresh. by destruct (String.eqb k "__proto__"). Qed.

Lemma StronglySorted_lt_snoc (l : list nat) (r : nat) :
  StronglySorted lt l → Forall (λ k, k < r) l → StronglySorted lt (l ++ [r]).
Proof.
  intros Hs Hb. apply StronglySorted_app_2; [| done | repeat constructor].
  intros x y Hx Hy. apply list_elem_of_singleton in Hy as ->.
  rewrite Forall_forall in Hb. by apply Hb.
Qed.

Lemma Invariant_pushRoot (seen : list GitHubTreeItem) (b : Builder) (r : nat) :
  Invariant seen b → Fresh r b → Invariant seen (pushRoot b r).
Proof.
  intros [Hpaths Htypes [Hroot1 Hroot2] Hkids Hown Hproto] (Hr & Hfresh & _).
  split; simpl; try done.
  split; [by apply StronglySorted_lt_snoc |].
  apply Forall_app; split; [done | by repeat constructor].
Qed.

Lemma Invariant_pushChild (seen : list GitHubTreeItem) (b : Builder) (parent r : nat) :
  Invariant seen b → Fresh r b → parent < r → Invariant seen (pushChild b parent r).
Proof.
  intros [Hpaths Htypes Hroot Hkids Hown Hproto] (Hr & _ & Hfresh) Hparent.
  split; simpl; rewrite ?length_alter; try done.
  - rewrite <- Hpaths. rewrite (list_fmap_alter cell_path _ id); [by rewrite list_alter_id |].
    by apply Forall_true.
  - rewrite <- Htypes. rewrite (list_fmap_alter cell_type _ id); [by rewrite list_alter_id |].
    by apply Forall_true.
  - intros i c kids Hi Hc.
    destruct (decide (parent = i)) as [<- | Hne].
    + rewrite list_lookup_alter_eq in Hi.
      destruct (heap b !! parent) as [c0 |] eqn:Hc0; [| done].
      simpl in Hi. injection Hi as <-. simpl in Hc.
      destruct (cell_children c0) as [kids0 |] eqn:Hkids0; [| done].
      simpl in Hc. injection Hc as <-.
      destruct (Hkids parent c0 kids0 Hc0 Hkids0) as [Hs Hb].
      split; [apply StronglySorted_lt_snoc; [done | by eapply Hfresh] |].
      apply Forall_app; split; [done |]. repeat constructor; lia.
    + rewrite list_lookup_alter_ne in Hi by done. by eapply Hkids.
Qed.

Lemma addItem_Invariant (seen : list GitHubTreeItem) (b : Builder) (item : GitHubTreeItem) :
  Invariant seen b → Invariant (seen ++ [item]) (addItem b item).
Proof.
  intros Hinv. unfold addItem.
  set (parts := removelast (JS.split "/" (item_path item))).
  set (fileName := List.last (JS.split "/" (item_path item)) EmptyString).
  destruct (Invariant_alloc seen b item fileName Hinv) as [Hinv1 Hfresh1].
  set (node := mkCell fileName _ _ _ _) in *.
  set (b1 := mkBuilder (heap b ++ [node]) (root b) (own b) (proto b)) in *.
  assert (Invariant (seen ++ [item]) (mapSet b1 (item_path item) (length (heap b)))) as Hinv2.
  { apply Invariant_mapSet; [done |]. apply Hfresh1. }
  assert (Fresh (length (heap b)) (mapSet b1 (item_path item) (length (heap b)))) as Hfresh2.
  { by apply Fresh_mapSet. }
  destruct parts as [| part parts'] eqn:Hparts; [by apply Invariant_pushRoot |].
  set (parentPath := JS.join "/" (part :: parts')).
  destruct (mapGet _ parentPath) as [| s | parent | |] eqn:Hget.
  - by apply Invariant_pushRoot.
  - destruct (JS.truthy s); [done | by apply Invariant_pushRoot].
  - apply Invariant_pushChild; [done | done |].
    apply mapGet_mapSet_VNode in Hget as [Hown | Hproto].
    + by apply (inv_own _ _ Hinv) in Hown.
    + by apply (inv_proto _ _ Hinv) in Hproto.
    + unfold parentPath. rewrite <- Hparts. apply parentPath_ne.
      fold parts. by rewrite Hparts.
  - done.
  - done.
Qed.

Lemma foldl_addItem_Invariant (items seen : list GitHubTreeItem) (b : Builder) :
  Invariant seen b → Invariant (seen ++ items) (foldl addItem b items).
Proof.
  revert seen b. induction items as [| item items IH]; intros seen b Hinv; simpl.
  { by rewrite app_nil_r. }
  rewrite (cons_middle item seen items), app_assoc.
  apply IH. by apply addItem_Invariant.
Qed.

Lemma build_Invariant (items : list GitHubTreeItem) :
  Invariant (sortItems items) (build items).
Proof. apply (foldl_addItem_Invariant _ [] emptyBuilder Invariant_empty). Qed.

(** *** Reading the trees back *)

Lemma StronglySorted_lookup {A} (R : relation A) (l : list A) (i j : nat) (x y : A) :
  StronglySorted R l → i < j → l !! i = Some x → l !! j = Some y → R x y.
Proof.
  intros Hs. revert i j. induction Hs as [| a l Hs IH Ha]; intros i j Hij Hi Hj.
  { by rewrite lookup_nil in Hi. }
  destruct j as [| j]; [lia |]. simpl in Hj.
  destruct i as [| i]; simpl in Hi.
  - injection Hi as ->. rewrite Forall_forall in Ha. apply Ha.
    by eapply list_elem_of_lookup_2.
  - apply (IH i j); [lia | done | done].
Qed.

Lemma cells_sorted (cells : list Cell) (items : list GitHubTreeItem) :
  cell_path <$> cells = item_path <$> items →
  cell_type <$> cells = item_type <$> items →
  StronglySorted itemOrder items →
  StronglySorted cellOrder cells.
Proof.
  revert items. induction cells as [| c cells IH]; intros items Hpaths Htypes Hs; [constructor |].
  destruct items as [| item items]; [done |].
  rewrite !fmap_cons in Hpaths. rewrite !fmap_cons in Htypes.
  injection Hpaths as Hp Hpaths. injection Htypes as Ht Htypes.
  apply StronglySorted_inv in Hs as [Hs Hfirst].
  constructor; [by apply (IH items) |].
  apply Forall_forall. intros c' Hc'.
  apply list_elem_of_lookup in Hc' as [j Hj].
  assert (∃ item', items !! j = Some item'
                   ∧ cell_path c' = item_path item' ∧ cell_type c' = item_type item')
    as (item' & Hitem' & Hp' & Ht').
  { assert ((cell_path <$> cells) !! j = Some (cell_path c')) as H1
      by (by rewrite list_lookup_fmap, Hj).
    assert ((cell_type <$> cells) !! j = Some (cell_type c')) as H2
      by (by rewrite list_lookup_fmap, Hj).
    rewrite Hpaths, list_lookup_fmap in H1. rewrite Htypes, list_lookup_fmap in H2.
    destruct (items !! j) as [item' |]; [| done].
    simpl in H1, H2. injection H1 as H1. injection H2 as H2. by exists item'. }
  rewrite Forall_forall in Hfirst.
  unfold TreeBuilder.cellOrder. rewrite Hp, Ht, Hp', Ht'.
  apply Hfirst. by eapply list_elem_of_lookup_2.
Qed.

(** The trees of references in increasing order are in the order of
    siblings. *)
Lemma omap_sorted (cells : list Cell) (base : nat) (trees : gmap nat TreeNode) (ks : list nat) :
  StronglySorted cellOrder cells →
  (∀ r t, trees !! r = Some t →
     ∃ j c, r = base + j ∧ cells !! j = Some c
            ∧ path t = cell_path c ∧ type t = cell_type c) →
  StronglySorted lt ks →
  StronglySorted siblingOrder (omap (λ r, trees !! r) ks).
Proof.
  intros Hcells Htrees. induction 1 as [| k ks Hs IH Hk]; simpl; [constructor |].
  destruct (trees !! k) as [t |] eqn:Ht; [| exact IH].
  constructor; [exact IH |].
  apply Forall_forall. intros t' Ht'.
  apply list_elem_of_omap in Ht' as (k' & Hk' & Hlookup).
  rewrite Forall_forall in Hk. specialize (Hk k' Hk').
  destruct (Htrees k t Ht) as (j & c & -> & Hc & Hp & Hty).
  destruct (Htrees k' t' Hlookup) as (j' & c' & -> & Hc' & Hp' & Hty').
  unfold TreeBuilder.siblingOrder. rewrite Hp, Hty, Hp', Hty'.
  apply (StronglySorted_lookup cellOrder cells j j'); [done | lia | done | done].
Qed.

Lemma readback_nil (base : nat) : readback [] base = ∅.
Proof. reflexivity. Qed.

Lemma readback_cons (c : Cell) (rest : list Cell) (base : nat) :
  readback (c :: rest) base
  = <[base := mkTreeNode (cell_name c) (cell_path c) (cell_type c) (cell_sha c)
                ((λ kids : list nat, omap (λ r, readback rest (S base) !! r) kids)
                   <$> cell_children c)]> (readback rest (S base)).
Proof. reflexivity. Qed.

Lemma readback_Ordered (cells : list Cell) (base : nat) :
  StronglySorted cellOrder cells →
  (∀ j c kids, cells !! j = Some c → cell_children c = Some kids →
     StronglySorted lt kids ∧ Forall (λ k, base + j < k) kids) →
  ∀ r t, readback cells base !! r = Some t →
    ∃ j c, r = base + j ∧ cells !! j = Some c
           ∧ path t = cell_path c ∧ type t = cell_type c
           ∧ ∀ kids, children t = Some kids → Ordered kids.
Proof.
  revert base. induction cells as [| c rest IH]; intros base Hsorted Hkids r t Hr.
  { rewrite readback_nil in Hr. by rewrite lookup_empty in Hr. }
  rewrite readback_cons in Hr.
  apply StronglySorted_inv in Hsorted as [Hrest Hc].
  assert (∀ r t, readback rest (S base) !! r = Some t →
            ∃ j c, r = S base + j ∧ rest !! j = Some c
                   ∧ path t = cell_path c ∧ type t = cell_type c
                   ∧ ∀ kids, children t = Some kids → Ordered kids) as Hlater.
  { apply IH; [done |]. intros j c' kids Hj Hc'.
    destruct (Hkids (S j) c' kids Hj Hc') as [Hs Hb]. split; [done |].
    eapply Forall_impl; [exact Hb |]. intros k Hk. cbv beta in Hk. lia. }
  destruct (decide (r = base)) as [-> | Hne].
  - rewrite lookup_insert_eq in Hr. injection Hr as <-.
    exists 0, c. split; [lia |]. do 3 (split; [reflexivity |]).
    intros kids Hchildren. cbn [children] in Hchildren.
    destruct (cell_children c) as [ks |] eqn:Hks; [| done].
    simpl in Hchildren. injection Hchildren as <-.
    destruct (Hkids 0 c ks eq_refl Hks) as [Hs _].
    constructor.
    + apply (omap_sorted rest (S base)); [done | | done].
      intros r' t' Hr'. destruct (Hlater r' t' Hr') as (j & c' & ? & ? & ? & ? & _). eauto 10.
    + intros t' kids' Ht' Hkids'.
      apply list_elem_of_omap in Ht' as (k' & _ & Hlookup).
      destruct (Hlater k' t' Hlookup) as (_ & _ & _ & _ & _ & _ & Hordered). by apply Hordered.
  - rewrite lookup_insert_ne in Hr by done.
    destruct (Hlater r t Hr) as (j & c' & -> & Hj & Hp & Hty & Hordered).
    exists (S j), c'. split; [lia |]. by do 3 (split; [done |]).
Qed.

(** The siblings of every level of the result are in order. *)
Lemma buildTreeStructure_Ordered (items : list GitHubTreeItem) :
  Ordered (buildTreeStructure items).
Proof.
  unfold TreeBuilder.buildTreeStructure.
  pose proof (build_Invariant items) as [Hpaths Htypes [Hroot _] Hkids _ _].
  assert (StronglySorted cellOrder (heap (build items))) as Hcells.
  { apply (cells_sorted _ (sortItems items)); [done | done | apply sortItems_sorted]. }
  assert (∀ r t, readback (heap (build items)) 0 !! r = Some t →
            ∃ j c, r = 0 + j ∧ heap (build items) !! j = Some c
                   ∧ path t = cell_path c ∧ type t = cell_type c
                   ∧ ∀ kids, children t = Some kids → Ordered kids) as Htrees.
  { apply readback_Ordered; [done |]. intros j c kids Hj Hc.
    destruct (Hkids j c kids Hj Hc) as [Hs Hb]. split; [done |].
    eapply Forall_impl; [exact Hb |]. intros k Hk. cbv beta in Hk. lia. }
  constructor.
  - apply (omap_sorted (heap (build items)) 0); [done | | done].
    intros r t Hr. destruct (Htrees r t Hr) as (j & c & ? & ? & ? & ? & _). eauto 10.
  - intros t kids Ht Hchildren.
    apply list_elem_of_omap in Ht as (k & _ & Hlookup).
    destruct (Htrees k t Hlookup) as (_ & _ & _ & _ & _ & _ & Hordered). by apply Hordered.
Qed.

(** *** No entry of a proper listing is lost *)

Lemma nodePaths_unfold (t : TreeNode) :
  nodePaths t = path t :: match children t with
                          | Some kids => kids ≫= nodePaths
                          | None => []
                          end.
Proof.
  by destruct t as [n p ty sh [kids |]].
Qed.

Lemma bind_ext_in {A B} (f g : A → list B) (l : list A) :
  (∀ x, x ∈ l → f x = g x) → l ≫= f = l ≫= g.
Proof.
  induction l as [| x l IH]; intros H; [done |].
  rewrite !bind_cons, (H x) by (by left). f_equal. apply IH. intros y Hy. apply H. by right.
Qed.

Lemma omap_bind {A B C} (f : A → option B) (g : B → list C) (l : list A) :
  omap f l ≫= g = l ≫= (λ x, match f x with Some y => g y | None => [] end).
Proof.
  induction l as [| x l IH]; [done |].
  rewrite bind_cons. simpl. destruct (f x) as [y |]; simpl.
  - f_equal. exact IH.
  - exact IH.
Qed.

Lemma allKids_cons (c : Cell) (cells : list Cell) :
  allKids (c :: cells) = default [] (cell_children c) ++ allKids cells.
Proof. unfold allKids. by rewrite bind_cons. Qed.

Lemma allKids_snoc (cells : list Cell) (c : Cell) :
  allKids (cells ++ [c]) = allKids cells ++ default [] (cell_children c).
Proof. unfold allKids. by rewrite bind_app, bind_singleton. Qed.

(** The paths of the trees of the references that no array of a part of
    the heap refers to are the paths of that part. *)
Lemma readback_paths (cells : list Cell) (base : nat) (R : list nat) :
  (∀ j c kids, cells !! j = Some c → cell_children c = Some kids →
     Forall (λ k, base + j < k < base + length cells) kids) →
  NoDup (allKids cells) →
  NoDup R →
  (∀ r, r ∈ R ↔ (base ≤ r < base + length cells) ∧ r ∉ allKids cells) →
  R ≫= descPaths (readback cells base) ≡ₚ cell_path <$> cells.
Proof.
  revert base R. induction cells as [| c rest IH]; intros base R Hkids Hnodup HR Hmem.
  { destruct R as [| r R]; [done |].
    destruct (proj1 (Hmem r) ltac:(by left)) as [Hr _]. simpl in Hr. lia. }
  rewrite readback_cons. set (later := readback rest (S base)).
  set (ks := default [] (cell_children c)).
  rewrite allKids_cons in Hnodup, Hmem. fold ks in Hnodup, Hmem.
  apply NoDup_app in Hnodup as (Hks & Hdisjoint & Hrest).
  assert (Forall (λ k, S base ≤ k < S base + length rest) ks) as Hrange.
  { unfold ks. destruct (cell_children c) as [kids |] eqn:Hc; [| constructor].
    eapply Forall_impl; [exact (Hkids 0 c kids eq_refl Hc) |].
    intros k Hk. cbv beta in Hk. simpl in Hk. simpl. lia. }
  rewrite Forall_forall in Hrange.
  assert (∀ k, k ∈ allKids rest → S base ≤ k) as Hlater.
  { intros k Hk. unfold allKids in Hk. apply list_elem_of_bind in Hk as (c' & Hk & Hc').
    apply list_elem_of_lookup in Hc' as [j Hj].
    destruct (cell_children c') as [kids |] eqn:Hkids'; [| by apply elem_of_nil in Hk].
    pose proof (Hkids (S j) c' kids Hj Hkids') as Hb. rewrite Forall_forall in Hb.
    specialize (Hb k Hk). cbv beta in Hb. lia. }
  assert (base ∈ R) as Hbase.
  { apply Hmem. split; [simpl; lia |]. intros Hin. apply elem_of_app in Hin as [Hin | Hin].
    - specialize (Hrange base Hin). lia.
    - specialize (Hlater base Hin). lia. }
  set (others := filter (λ r, r ≠ base) R).
  assert (R ≡ₚ base :: others) as HRperm.
  { apply NoDup_Permutation; [done | |].
    - apply NoDup_cons. split; [| by apply NoDup_filter].
      unfold others. rewrite list_elem_of_filter. by intros [Hne _].
    - intros r. unfold others. rewrite elem_of_cons, list_elem_of_filter.
      destruct (decide (r = base)) as [-> | Hne]; [tauto |].
      split; [intros Hr; by right | by intros [? | [_ ?]]]. }
  assert ((ks ++ others) ≫= descPaths later ≡ₚ cell_path <$> rest) as HIH.
  { apply IH.
    - intros j c' kids Hj Hc'. pose proof (Hkids (S j) c' kids Hj Hc') as Hb.
      eapply Forall_impl; [exact Hb |]. intros k Hk. cbv beta in Hk. simpl in Hk. lia.
    - done.
    - apply NoDup_app. split; [done |]. split; [| by apply NoDup_filter].
      intros k Hk Hin. unfold others in Hin. apply list_elem_of_filter in Hin as [_ Hin].
      apply Hmem in Hin as [_ Hin]. apply Hin. apply elem_of_app. by left.
    - intros r. rewrite elem_of_app. unfold others. rewrite list_elem_of_filter, Hmem.
      rewrite elem_of_app. split.
      + intros [Hk | (Hne & Hr & Hnot)].
        * split; [by apply Hrange |]. by apply Hdisjoint.
        * split; [simpl in Hr; lia |]. intros Hin. apply Hnot. by right.
      + intros [Hr Hnot]. destruct (decide (r ∈ ks)) as [Hk | Hk]; [by left |].
        right. split; [lia |]. split; [simpl; lia |].
        intros [Hin | Hin]; [by apply Hk | by apply Hnot]. }
  rewrite HRperm, bind_cons, fmap_cons.
  unfold descPaths at 1. rewrite lookup_insert_eq, nodePaths_unfold. cbn [path children].
  assert (match (λ kids : list nat, omap (λ r, later !! r) kids) <$> cell_children c with
          | Some kids => kids ≫= nodePaths
          | None => []
          end = ks ≫= descPaths later) as ->.
  { unfold ks. destruct (cell_children c) as [kids |]; [| done]. simpl.
    by rewrite omap_bind. }
  rewrite (bind_ext_in _ (descPaths later) others).
  2: { intros r Hr. unfold others in Hr. apply list_elem_of_filter in Hr as [Hne _].
       unfold descPaths. by rewrite lookup_insert_ne. }
  simpl. apply Permutation_skip. by rewrite <- bind_app.
Qed.

Lemma allKids_pushChild (cells : list Cell) (parent r : nat) (c : Cell) (kids : list nat) :
  cells !! parent = Some c → cell_children c = Some kids →
  allKids (alter (pushTo r) parent cells) ≡ₚ r :: allKids cells.
Proof.
  revert parent. induction cells as [| c' cells IH]; intros parent Hc Hkids; [done |].
  destruct parent as [| parent]; simpl in Hc.
  - injection Hc as ->.
    change (alter (pushTo r) 0 (c :: cells)) with (pushTo r c :: cells).
    rewrite !allKids_cons. unfold pushTo. simpl. rewrite Hkids. simpl.
    rewrite <- app_assoc. simpl. by rewrite <- Permutation_middle.
  - change (alter (pushTo r) (S parent) (c' :: cells))
      with (c' :: alter (pushTo r) parent cells).
    rewrite !allKids_cons, (IH parent Hc Hkids).
    by rewrite <- Permutation_middle.
Qed.

Lemma parentPath_parts (p part : string) (parts : list string) :
  removelast (JS.split "/" p) = part :: parts →
  parentPath p = Some (JS.join "/" (part :: parts)).
Proof. unfold parentPath. by intros ->. Qed.

Lemma addItem_Attached (seen : list GitHubTreeItem) (b : Builder) (item : GitHubTreeItem) :
  Invariant seen b → Attached b →
  item_path item ≠ "__proto__" →
  (∀ q, parentPath (item_path item) = Some q →
     q ≠ "__proto__" ∧ (q ∉ objectPrototypeNames)
     ∧ ∀ c, c ∈ heap b → cell_path c = q → cell_type c = tree) →
  Attached (addItem b item).
Proof.
  intros Hinv [Hall Hown Hproto Hchildren] Hpath Hparent.
  unfold addItem.
  set (fileName := List.last (JS.split "/" (item_path item)) EmptyString).
  set (node := mkCell fileName _ _ _ _).
  assert (default [] (cell_children node) = []) as Hnode.
  { unfold node. simpl. by destruct (item_type item). }
  apply String.eqb_neq in Hpath. unfold mapSet. rewrite Hpath. cbn [heap root own proto].
  set (b2 := mkBuilder (heap b ++ [node]) (root b) (<[item_path item := length (heap b)]> (own b))
                       (proto b)).
  assert (Attached (pushRoot b2 (length (heap b)))) as Hroot.
  { split; simpl.
    - rewrite allKids_snoc, Hnode, app_nil_r, length_app. simpl.
      rewrite Nat.add_1_r, seq_S. simpl.
      rewrite <- Hall, <- !app_assoc. apply Permutation_app_head. apply Permutation_app_comm.
    - intros k p. destruct (decide (item_path item = k)) as [<- | Hne].
      + rewrite lookup_insert_eq. intros [= <-]. exists node. split; [| done].
        by apply list_lookup_middle.
      + rewrite lookup_insert_ne by done. intros Hk.
        destruct (Hown k p Hk) as (c & Hc & Hcp). exists c. split; [| done].
        rewrite lookup_app_l; [done |]. by eapply lookup_lt_Some.
    - done.
    - intros c Hc Htree. apply elem_of_app in Hc as [Hc | Hc]; [by apply Hchildren |].
      apply list_elem_of_singleton in Hc as ->. unfold node in *. simpl in *. by rewrite Htree. }
  destruct (removelast (JS.split "/" (item_path item))) as [| part parts] eqn:Hparts; [done |].
  destruct (Hparent _ (parentPath_parts _ _ _ Hparts)) as (Hq1 & Hq2 & Hq3).
  set (q := JS.join "/" (part :: parts)) in *.
  assert (q ≠ item_path item) as Hne.
  { unfold q. rewrite <- Hparts. apply parentPath_ne. by rewrite Hparts. }
  unfold mapGet. apply String.eqb_neq in Hq1. rewrite Hq1.
  change (own b2) with (<[item_path item := length (heap b)]> (own b)).
  change (proto b2) with (proto b).
  rewrite lookup_insert_ne by done. rewrite Hproto. simpl.
  destruct (own b !! q) as [parent |] eqn:Hlookup.
  2: { unfold inherited. by rewrite bool_decide_eq_false_2. }
  destruct (Hown q parent Hlookup) as (c & Hc & Hcq).
  assert (is_Some (cell_children c)) as [kids Hkids].
  { apply Hchildren; [by eapply list_elem_of_lookup_2 |]. apply Hq3; [| done].
    by eapply list_elem_of_lookup_2. }
  assert ((heap b ++ [node]) !! parent = Some c) as Hc'.
  { rewrite lookup_app_l; [done |]. by eapply lookup_lt_Some. }
  split; simpl.
  - rewrite (allKids_pushChild _ _ _ c kids Hc' Hkids), length_alter.
    rewrite allKids_snoc, Hnode, app_nil_r, length_app. simpl.
    rewrite Nat.add_1_r, seq_S. simpl.
    rewrite <- Hall, <- Permutation_middle, <- !app_assoc.
    rewrite app_assoc. apply Permutation_cons_append.
  - intros k p. destruct (decide (item_path item = k)) as [<- | Hne'].
    + rewrite lookup_insert_eq. intros [= <-].
      destruct (decide (parent = length (heap b))) as [-> | Hnp].
      { apply lookup_lt_Some in Hc. lia. }
      rewrite list_lookup_alter_ne by done. exists node. split; [| done].
      by apply list_lookup_middle.
    + rewrite lookup_insert_ne by done. intros Hk.
      destruct (Hown k p Hk) as (c0 & Hc0 & Hcp).
      assert ((heap b ++ [node]) !! p = Some c0) as Hc0'.
      { rewrite lookup_app_l; [done |]. by eapply lookup_lt_Some. }
      destruct (decide (parent = p)) as [<- | Hnp].
      * rewrite list_lookup_alter_eq, Hc0'. simpl. eexists. split; [done |]. done.
      * rewrite list_lookup_alter_ne by done. by exists c0.
  - done.
  - intros c0 Hc0 Htree. apply list_elem_of_lookup in Hc0 as [j Hj].
    destruct (decide (parent = j)) as [<- | Hnp].
    + rewrite list_lookup_alter_eq, Hc' in Hj. simpl in Hj. injection Hj as <-. simpl.
      by rewrite Hkids.
    + rewrite list_lookup_alter_ne in Hj by done.
      apply list_elem_of_lookup_2 in Hj. apply elem_of_app in Hj as [Hj | Hj]; [by apply Hchildren |].
      apply list_elem_of_singleton in Hj as ->. unfold node in *. simpl in *. by rewrite Htree.
Qed.

Lemma Attached_empty : Attached emptyBuilder.
Proof. split; simpl; try done. intros c Hc. by apply elem_of_nil in Hc. Qed.

(** A cell of the heap is the node of an entry that is done. *)
Lemma cell_of_done (seen : list GitHubTreeItem) (b : Builder) (c : Cell) :
  Invariant seen b → c ∈ heap b →
  ∃ it, it ∈ seen ∧ cell_path c = item_path it ∧ cell_type c = item_type it.
Proof.
  intros [Hpaths Htypes _ _ _ _] Hc.
  apply list_elem_of_lookup in Hc as [j Hj].
  assert ((cell_path <$> heap b) !! j = Some (cell_path c)) as H1
    by (by rewrite list_lookup_fmap, Hj).
  assert ((cell_type <$> heap b) !! j = Some (cell_type c)) as H2
    by (by rewrite list_lookup_fmap, Hj).
  rewrite Hpaths, list_lookup_fmap in H1. rewrite Htypes, list_lookup_fmap in H2.
  destruct (seen !! j) as [it |] eqn:Hit; [| done].
  simpl in H1, H2. injection H1 as H1. injection H2 as H2.
  exists it. split; [by eapply list_elem_of_lookup_2 | done].
Qed.

Lemma foldl_addItem_Attached (items rest seen : list GitHubTreeItem) (b : Builder) :
  ProperListing items →
  (∀ it, it ∈ seen ++ rest → it ∈ items) →
  Invariant seen b → Attached b →
  Attached (foldl addItem b rest).
Proof.
  intros [_ Hpath Hparent]. revert seen b.
  induction rest as [| item rest IH]; intros seen b Hsub Hinv Hatt; [assumption |].
  simpl. apply (IH (seen ++ [item])).
  - intros it Hit. apply Hsub. by rewrite (cons_middle item seen rest), app_assoc.
  - by apply addItem_Invariant.
  - assert (item ∈ items) as Hitem.
    { apply Hsub. apply elem_of_app. right. by left. }
    apply (addItem_Attached seen); [done | done | by apply Hpath |].
    intros q Hq. destruct (Hparent item q Hitem Hq) as (Hq1 & Hq2 & Hq3).
    split; [done |]. split; [done |].
    intros c Hc Hcq. destruct (cell_of_done seen b c Hinv Hc) as (it & Hit & Hp & Ht).
    rewrite Ht. apply Hq3; [| congruence].
    apply Hsub. apply elem_of_app. by left.
Qed.

Lemma build_Attached (items : list GitHubTreeItem) :
  ProperListing items → Attached (build items).
Proof.
  intros Hproper.
  apply (foldl_addItem_Attached items (sortItems items) [] emptyBuilder Hproper).
  - intros it Hit. simpl in Hit. by rewrite sortItems_Permutation in Hit.
  - apply Invariant_empty.
  - apply Attached_empty.
Qed.

(** Every entry of a proper listing is in the result once: the paths of
    the nodes of the result are the paths of the entries, orphans among
    them, each one time. *)
Theorem buildTreeStructure_keeps_proper_listing (items : list GitHubTreeItem) :
  ProperListing items →
  forestPaths (buildTreeStructure items) ≡ₚ item_path <$> items
  ∧ NoDup (forestPaths (buildTreeStructure items)).
Proof.
  intros Hproper.
  assert (forestPaths (buildTreeStructure items) ≡ₚ item_path <$> items) as Hperm.
  { pose proof (build_Invariant items) as Hinv.
    destruct (build_Attached items Hproper) as [Hall _ _ _].
    assert (NoDup (root (build items) ++ allKids (heap (build items)))) as Hnodup.
    { rewrite Hall. apply NoDup_seq. }
    apply NoDup_app in Hnodup as (Hroot & Hdisjoint & Hkids).
    unfold forestPaths, TreeBuilder.buildTreeStructure.
    rewrite omap_bind.
    change (root (build items) ≫= descPaths (readback (heap (build items)) 0)
            ≡ₚ item_path <$> items).
    rewrite (readback_paths (heap (build items)) 0 (root (build items))).
    - rewrite (inv_paths _ _ Hinv). by rewrite sortItems_Permutation.
    - intros j c kids Hj Hc. destruct (inv_children _ _ Hinv j c kids Hj Hc) as [_ Hb].
      eapply Forall_impl; [exact Hb |]. intros k Hk. cbv beta in Hk. simpl. lia.
    - done.
    - done.
    - intros r. split.
      + intros Hr. split; [| by apply Hdisjoint].
        assert (r ∈ seq 0 (length (heap (build items)))) as Hseq.
        { rewrite <- Hall. apply elem_of_app. by left. }
        apply elem_of_seq in Hseq. simpl. lia.
      + intros [Hr Hnot].
        assert (r ∈ seq 0 (length (heap (build items)))) as Hseq.
        { apply elem_of_seq. simpl in Hr. lia. }
        rewrite <- Hall in Hseq. apply elem_of_app in Hseq as [Hseq | Hseq]; done. }
  split; [done |]. rewrite Hperm. apply (proper_distinct _ Hproper).
Qed.

Lemma properListing_sound (items : list GitHubTreeItem) :
  properListing items = true → ProperListing items.
Proof.
  unfold properListing. rewrite andb_true_iff, forallb_forall.
  intros [Hnodup Hall]. apply bool_decide_eq_true in Hnodup.
  assert (∀ it, it ∈ items →
            item_path it ≠ "__proto__" ∧ properParent items it = true) as Hall'.
  { intros it Hit. apply list_elem_of_In in Hit. specialize (Hall it Hit).
    apply andb_true_iff in Hall as [Hp Hq]. apply negb_true_iff, String.eqb_neq in Hp. done. }
  split; [done | intros it Hit; by apply Hall' |].
  intros it q Hit Hq. destruct (Hall' it Hit) as [_ Hparent].
  unfold properParent in Hparent. rewrite Hq in Hparent.
  rewrite !andb_true_iff, forallb_forall in Hparent. destruct Hparent as [[H1 H2] H3].
  apply negb_true_iff, String.eqb_neq in H1. apply bool_decide_eq_true in H2.
  split; [done |]. split; [done |].
  intros it' Hit' Hpath. apply list_elem_of_In in Hit'. specialize (H3 it' Hit').
  apply String.eqb_eq in Hpath. rewrite Hpath in H3. simpl in H3.
  by apply bool_decide_eq_true in H3.
Qed.

(** *** The order of siblings, and an entry that is lost *)


(** C1 fails on the code: an entry whose parent path is the path of a file
    is dropped. For the files [a] and [a/b], in either order, and a
    collation with [a] before [a/b], the result is the one root [a], with
    no children: no node has the path [a/b]. *)
Theorem buildTreeStructure_drops_entry_below_file :
  ∀ a ab : GitHubTreeItem,
    item_path a = "a" → item_type a = blob →
    item_path ab = "a/b" → item_type ab = blob →
    localeCompare "a" "a/b" = Lt →
    buildTreeStructure [a; ab] = [mkTreeNode "a" "a" blob (item_sha a) None]
    ∧ buildTreeStructure [ab; a] = [mkTreeNode "a" "a" blob (item_sha a) None]
    ∧ "a/b" ∉ forestPaths (buildTreeStructure [a; ab]).
Proof.
  intros [pa ma ta sa na ua] [pb mb tb sb nb ub]; simpl.
  intros -> -> -> -> Hlt.
  assert (localeCompare "a/b" "a" = Gt) as Hgt.
  { rewrite (consistent_flip _ consistent "a" "a/b"), Hlt. reflexivity. }
  assert (∀ items, sortItems items = [mkItem "a" ma blob sa na ua; mkItem "a/b" mb blob sb nb ub] →
          TreeBuilder.buildTreeStructure localeCompare items = [mkTreeNode "a" "a" blob sa None]) as Hbuild.
  { intros items Hsorted.
    unfold TreeBuilder.buildTreeStructure, TreeBuilder.build. rewrite Hsorted.
    vm_compute. reflexivity. }
  assert (sortItems [mkItem "a" ma blob sa na ua; mkItem "a/b" mb blob sb nb ub]
          = [mkItem "a" ma blob sa na ua; mkItem "a/b" mb blob sb nb ub]) as Hs1.
  { unfold TreeBuilder.sortItems. simpl foldr.
    unfold TreeBuilder.insertItem, TreeBuilder.compareItems. simpl. by rewrite Hlt. }
  assert (sortItems [mkItem "a/b" mb blob sb nb ub; mkItem "a" ma blob sa na ua]
          = [mkItem "a" ma blob sa na ua; mkItem "a/b" mb blob sb nb ub]) as Hs2.
  { unfold TreeBuilder.sortItems. simpl foldr.
    unfold TreeBuilder.insertItem, TreeBuilder.compareItems. simpl. by rewrite Hgt. }
  rewrite (Hbuild _ Hs1), (Hbuild _ Hs2).
  repeat split. simpl. intros Hin. apply list_elem_of_singleton in Hin. discriminate.
Qed.

End TreeBuilderProperties.

(** ** The theorems on a host and a forge *)

Section Witnesses.
Import Http UrlParser ContentFetch TreeBuilder App Host.

#[local] Abbreviation fetchFileContent :=
  (ContentFetch.fetchFileContent atob utf8Decode nullPropertyMessage notFunctionMessage).

Lemma fetchFileContent_rate_limit_short_circuit_witness :
  run rateLimitedForge [] (fetchFileContent "facebook" "react" "README.md" "main" (Some "abc123"))
  = (Throw RateLimit, [contentsUrl "facebook" "react" "README.md" "main"]).
Proof.
  apply (fetchFileContent_rate_limit_short_circuit atob utf8Decode nullPropertyMessage
           notFunctionMessage rateLimitedForge "facebook" "react" "README.md" "main"
           (Some "abc123") (mkResponse 403 "Forbidden" (Return JNull)));
    [reflexivity | left; reflexivity].
Defined.

(** The chain on a directory payload, with a content identifier: the blob
    is fetched and decoded. *)
Example fetchFileContent_directory_then_blob :
  run directoryForge [] (fetchFileContent "facebook" "react" "src" "main" (Some "abc123"))
  = (Return "hello",
     [contentsUrl "facebook" "react" "src" "main"; blobUrl "facebook" "react" "abc123"]).
Proof. vm_compute. reflexivity. Qed.


(** The chain on a directory payload, with no content identifier: one
    request. *)
Example fetchFileContent_directory_no_sha :
  run directoryForge [] (fetchFileContent "facebook" "react" "src" "main" None)
  = (Throw ContentUnavailable, [contentsUrl "facebook" "react" "src" "main"]).
Proof. vm_compute. reflexivity. Qed.

Lemma fetchFileContent_empty_file_witness :
  run emptyFileForge [] (fetchFileContent "facebook" "react" ".gitkeep" "main" None)
  = (Throw ContentUnavailable, [contentsUrl "facebook" "react" ".gitkeep" "main"]).
Proof.
  apply (fetchFileContent_empty_file atob utf8Decode nullPropertyMessage
           notFunctionMessage emptyFileForge "facebook" "react" ".gitkeep" "main" None
           (mkResponse 200 "OK" (Return (JObject emptyFileFields))) emptyFileFields);
    [reflexivity | reflexivity | reflexivity | reflexivity | left; reflexivity].
Defined.

Lemma handleFetchRepo_selects_default_branch_witness :
  selectedBranch
    (handleFetchRepo URL_http codeUnitCompare (λ _ _, Return (reactDetails "main"))
       (λ _ _, Return [devBranch; mainBranch]) (λ _ _ _, Return []) (λ _, "")
       firstRender firstRender)
  = "main".
Proof.
  apply (handleFetchRepo_selects_default_branch URL_http codeUnitCompare
           (λ _ _, Return (reactDetails "main")) (λ _ _, Return [devBranch; mainBranch])
           (λ _ _ _, Return []) (λ _, "") firstRender firstRender
           (mkRepoId "facebook" "react") (reactDetails "main") devBranch [mainBranch]);
    [reflexivity | reflexivity | reflexivity | reflexivity |].
  exists mainBranch. split; [| reflexivity]. apply elem_of_cons. right. apply elem_of_cons. by left.
Defined.

(** The default branch is not in the list: the first branch is selected. *)
Example handleFetchRepo_first_branch :
  selectedBranch
    (handleFetchRepo URL_http codeUnitCompare (λ _ _, Return (reactDetails "trunk"))
       (λ _ _, Return [devBranch; mainBranch]) (λ _ _ _, Return []) (λ _, "")
       firstRender firstRender)
  = "dev".
Proof. reflexivity. Qed.

(** *** The collation by code units *)

Lemma codeUnitCompare_le (a b : string) : codeUnitCompare a b ≠ Gt ↔ String.le a b.
Proof.
  unfold codeUnitCompare, String.le, String.leb.
  destruct (String.compare a b); simpl; naive_solver.
Qed.

Lemma codeUnitCompare_Consistent : Consistent codeUnitCompare.
Proof.
  split.
  - intros a b. apply String.compare_antisym.
  - intros a b c. rewrite !codeUnitCompare_le. intros Hab Hbc. by trans b.
Qed.

Lemma codeUnitCompare_Separating : Separating codeUnitCompare.
Proof. intros a b. apply String.compare_eq_iff. Qed.

Lemma softHyphenCompare_Consistent : Consistent softHyphenCompare.
Proof.
  split.
  - intros a b. apply codeUnitCompare_Consistent.
  - intros a b c. apply (consistent_trans _ codeUnitCompare_Consistent).
Qed.




Lemma buildTreeStructure_drops_entry_below_file_witness :
  buildTreeStructure codeUnitCompare [entry "a" blob; entry "a/b" blob]
  = [mkTreeNode "a" "a" blob "sha:a" None].
Proof.
  apply (buildTreeStructure_drops_entry_below_file codeUnitCompare codeUnitCompare_Consistent
           (entry "a" blob) (entry "a/b" blob)); reflexivity.
Defined.

(** A directory, a file in it and an orphan: three nodes. *)
Lemma buildTreeStructure_keeps_proper_listing_witness :
  forestPaths (buildTreeStructure codeUnitCompare
                 [entry "src/a.ts" blob; entry "src" tree; entry "docs/b.md" blob])
  ≡ₚ ["src/a.ts"; "src"; "docs/b.md"]
  ∧ NoDup (forestPaths (buildTreeStructure codeUnitCompare
                          [entry "src/a.ts" blob; entry "src" tree; entry "docs/b.md" blob])).
Proof.
  apply (buildTreeStructure_keeps_proper_listing codeUnitCompare
           [entry "src/a.ts" blob; entry "src" tree; entry "docs/b.md" blob]).
  apply properListing_sound. vm_compute. reflexivity.
Defined.

(** The orphan of the spec: one root with the whole path. *)
Example buildTreeStructure_orphan :
  buildTreeStructure codeUnitCompare [entry "a/b/c.txt" blob]
  = [mkTreeNode "c.txt" "a/b/c.txt" blob "sha:a/b/c.txt" None].
Proof. vm_compute. reflexivity. Qed.

(** An orphan below a name that [map] inherits from [Object.prototype] is
    dropped as well: [map["constructor"]] is a function, which is truthy and
    has no [children]. *)
Example buildTreeStructure_orphan_below_inherited_name :
  buildTreeStructure codeUnitCompare [entry "constructor/x.ts" blob] = [].
Proof. vm_compute. reflexivity. Qed.

End Witnesses.

(** ** Tree builder: what every result is made of *)

Section TreeBuilderShape.
Import TreeBuilder.

Lemma mapGet_VNode (b : Builder) (k : string) (p : nat) :
  mapGet b k = VNode p →
  (k = "__proto__" ∧ proto b = Some p) ∨ (k ≠ "__proto__" ∧ own b !! k = Some p).
Proof.
  unfold mapGet. destruct (String.eqb k "__proto__") eqn:Hk.
  - apply String.eqb_eq in Hk. destruct (proto b) as [q |]; [| discriminate].
    intros [= ->]. by left.
  - apply String.eqb_neq in Hk. destruct (own b !! k) as [q |].
    + intros [= ->]. by right.
    + unfold cellProperty, inherited. intros H. repeat case_match; discriminate.
Qed.

Lemma pushTo_fields (r : nat) (c : Cell) :
  cell_name (pushTo r c) = cell_name c ∧ cell_path (pushTo r c) = cell_path c
  ∧ cell_type (pushTo r c) = cell_type c ∧ cell_sha (pushTo r c) = cell_sha c
  ∧ (cell_children (pushTo r c) = None ↔ cell_children c = None).
Proof.
  unfold pushTo. simpl. repeat split; destruct (cell_children c); done.
Qed.

(** A cell of the heap after a push is a cell of the heap before it, but
    for its [children]. *)
Lemma lookup_pushTo (cells : list Cell) (parent r i : nat) (c' : Cell) :
  alter (pushTo r) parent cells !! i = Some c' →
  ∃ c, cells !! i = Some c
       ∧ cell_name c' = cell_name c ∧ cell_path c' = cell_path c
       ∧ cell_type c' = cell_type c ∧ cell_sha c' = cell_sha c
       ∧ (cell_children c' = None ↔ cell_children c = None)
       ∧ (i ≠ parent → c' = c) ∧ (i = parent → c' = pushTo r c).
Proof.
  destruct (decide (parent = i)) as [-> | Hne].
  - rewrite list_lookup_alter_eq. destruct (cells !! i) as [c |]; [| done].
    simpl. intros [= <-]. exists c. destruct (pushTo_fields r c) as (? & ? & ? & ? & ?).
    repeat split; try done; tauto.
  - rewrite list_lookup_alter_ne by done. intros Hc. exists c'.
    repeat split; try done; by intros ->.
Qed.

Lemma lookup_pushTo_old (cells : list Cell) (parent r i : nat) (c : Cell) :
  cells !! i = Some c →
  ∃ c', alter (pushTo r) parent cells !! i = Some c' ∧ cell_path c' = cell_path c.
Proof.
  intros Hc. destruct (decide (parent = i)) as [-> | Hne].
  - exists (pushTo r c). by rewrite list_lookup_alter_eq, Hc.
  - exists c. by rewrite list_lookup_alter_ne.
Qed.

Lemma alter_pushTo_file (cells : list Cell) (parent r : nat) (c : Cell) :
  cells !! parent = Some c → cell_children c = None →
  alter (pushTo r) parent cells = cells.
Proof.
  intros Hc Hnone. apply list_eq. intros i.
  destruct (decide (parent = i)) as [<- | Hne].
  - rewrite list_lookup_alter_eq, Hc. simpl. f_equal.
    destruct c as [n q ty sh kids]. simpl in Hnone. by subst kids.
  - by rewrite list_lookup_alter_ne.
Qed.

Lemma Fresh_not_referred (b : Builder) (r : nat) :
  Fresh r b → r ∉ root b ++ allKids (heap b).
Proof.
  intros (_ & Hroot & Hkids) Hin. apply elem_of_app in Hin as [Hin | Hin].
  - rewrite Forall_forall in Hroot. specialize (Hroot r Hin). lia.
  - unfold allKids in Hin. apply list_elem_of_bind in Hin as (c & Hin & Hc).
    apply list_elem_of_lookup in Hc as [i Hi].
    destruct (cell_children c) as [kids |] eqn:Hk; simpl in Hin.
    + pose proof (Hkids i c kids Hi Hk) as Hall. rewrite Forall_forall in Hall.
      specialize (Hall r Hin). lia.
    + by apply elem_of_nil in Hin.
Qed.

Lemma Shape_empty : Shape emptyBuilder.
Proof.
  split; simpl; try done.
  - intros c Hc. by apply elem_of_nil in Hc.
  - intros c Hc. by apply elem_of_nil in Hc.
  - constructor.
Qed.

Lemma Shape_alloc (seen : list GitHubTreeItem) (b : Builder) (item : GitHubTreeItem) :
  Invariant seen b → Shape b →
  let node := mkCell (lastSegment (item_path item)) (item_path item) (item_type item)
                (item_sha item)
                (match item_type item with tree => Some [] | blob => None end) in
  Shape (mapSet (mkBuilder (heap b ++ [node]) (root b) (own b) (proto b))
                (item_path item) (length (heap b))).
Proof.
  intros Hinv [Hnames Hkind Honce Hown Hproto Hparent] node.
  assert (∀ k p, own b !! k = Some p →
            ∃ c, (heap b ++ [node]) !! p = Some c ∧ cell_path c = k) as Hown'.
  { intros k p Hk. destruct (Hown k p Hk) as (c & Hc & Hp). exists c.
    split; [| done]. by apply lookup_app_l_Some. }
  assert (∀ p, proto b = Some p →
            ∃ c, (heap b ++ [node]) !! p = Some c ∧ cell_path c = "__proto__") as Hproto'.
  { intros p Hp. destruct (Hproto p Hp) as (c & Hc & Hq). exists c.
    split; [| done]. by apply lookup_app_l_Some. }
  assert (∀ c, c ∈ heap b ++ [node] → cell_name c = lastSegment (cell_path c)) as Hnames'.
  { intros c Hc. apply elem_of_app in Hc as [Hc | Hc]; [by apply Hnames |].
    by apply list_elem_of_singleton in Hc as ->. }
  assert (∀ c, c ∈ heap b ++ [node] → cell_children c = None ↔ cell_type c = blob) as Hkind'.
  { intros c Hc. apply elem_of_app in Hc as [Hc | Hc]; [by apply Hkind |].
    apply list_elem_of_singleton in Hc as ->. simpl. by destruct (item_type item). }
  assert (NoDup (root b ++ allKids (heap b ++ [node]))) as Honce'.
  { rewrite allKids_snoc. replace (default [] (cell_children node)) with (@nil nat).
    - by rewrite app_nil_r.
    - simpl. by destruct (item_type item). }
  assert (∀ i c kids k ck,
            (heap b ++ [node]) !! i = Some c → cell_children c = Some kids → k ∈ kids →
            (heap b ++ [node]) !! k = Some ck →
            parentPath (cell_path ck) = Some (cell_path c)) as Hparent'.
  { intros i c kids k ck Hi Hc Hk Hck.
    apply lookup_snoc_Some in Hi as [[_ Hi] | [-> <-]].
    - destruct (inv_children _ _ Hinv i c kids Hi Hc) as [_ Hb].
      rewrite Forall_forall in Hb. specialize (Hb k Hk).
      rewrite lookup_app_l in Hck by lia. by eapply Hparent.
    - simpl in Hc. destruct (item_type item); [done |]. injection Hc as <-.
      by apply elem_of_nil in Hk. }
  unfold mapSet. destruct (String.eqb (item_path item) "__proto__") eqn:Hk;
    split; simpl; try done.
  - intros p [= <-]. exists node. split; [| by apply String.eqb_eq in Hk].
    by apply list_lookup_middle.
  - intros k p. destruct (decide (item_path item = k)) as [<- | Hne].
    + rewrite lookup_insert_eq. intros [= <-]. exists node.
      split; [| done]. by apply list_lookup_middle.
    + rewrite lookup_insert_ne by done. apply Hown'.
Qed.

Lemma Shape_pushRoot (b : Builder) (r : nat) :
  Shape b → Fresh r b → Shape (pushRoot b r).
Proof.
  intros [Hnames Hkind Honce Hown Hproto Hparent] Hfresh.
  split; simpl; try done.
  apply Fresh_not_referred in Hfresh.
  rewrite <- app_assoc. simpl. rewrite <- Permutation_middle. by constructor.
Qed.

Lemma Shape_pushChild (b : Builder) (parent r : nat) (cp cr : Cell) :
  Shape b → Fresh r b →
  heap b !! parent = Some cp → heap b !! r = Some cr →
  parentPath (cell_path cr) = Some (cell_path cp) →
  Shape (pushChild b parent r).
Proof.
  intros [Hnames Hkind Honce Hown Hproto Hparent] Hfresh Hcp Hcr Hpath.
  split; simpl.
  - intros c' Hc'. apply list_elem_of_lookup in Hc' as [i Hi].
    apply lookup_pushTo in Hi as (c & Hc & -> & -> & _).
    apply Hnames. by eapply list_elem_of_lookup_2.
  - intros c' Hc'. apply list_elem_of_lookup in Hc' as [i Hi].
    apply lookup_pushTo in Hi as (c & Hc & _ & _ & -> & _ & -> & _).
    apply Hkind. by eapply list_elem_of_lookup_2.
  - destruct (cell_children cp) as [kids |] eqn:Hkids.
    + rewrite (allKids_pushChild _ _ _ _ _ Hcp Hkids).
      rewrite <- Permutation_middle. constructor; [| done].
      by apply Fresh_not_referred.
    + by rewrite (alter_pushTo_file _ _ _ _ Hcp Hkids).
  - intros k p Hk. destruct (Hown k p Hk) as (c & Hc & <-).
    by apply lookup_pushTo_old.
  - intros p Hp. destruct (Hproto p Hp) as (c & Hc & <-).
    by apply lookup_pushTo_old.
  - intros i c' kids' k ck' Hi Hkids' Hk Hck'.
    apply lookup_pushTo in Hck' as (ck & Hck & _ & -> & _).
    apply lookup_pushTo in Hi as (c & Hc & _ & -> & _ & _ & _ & Hne & Heq).
    destruct (decide (i = parent)) as [-> | Hi].
    + rewrite (Heq eq_refl) in Hkids'. simpl in Hkids'.
      rewrite Hcp in Hc. injection Hc as <-.
      destruct (cell_children cp) as [kids |] eqn:Hkids; [| done].
      simpl in Hkids'. injection Hkids' as <-.
      apply elem_of_app in Hk as [Hk | Hk].
      * by eapply Hparent.
      * apply list_elem_of_singleton in Hk as ->.
        rewrite Hcr in Hck. by injection Hck as <-.
    + rewrite (Hne Hi) in Hkids'. by eapply Hparent.
Qed.

Lemma heap_mapSet (b : Builder) (k : string) (r : nat) : heap (mapSet b k r) = heap b.
Proof. unfold mapSet. by destruct (String.eqb k "__proto__"). Qed.

Lemma addItem_Shape (seen : list GitHubTreeItem) (b : Builder) (item : GitHubTreeItem) :
  Invariant seen b → Shape b → Shape (addItem b item).
Proof.
  intros Hinv Hshape. unfold addItem.
  set (parts := removelast (JS.split "/" (item_path item))).
  change (List.last (JS.split "/" (item_path item)) EmptyString)
    with (lastSegment (item_path item)).
  pose proof (Shape_alloc seen b item Hinv Hshape) as Hshape2. cbv zeta in Hshape2.
  destruct (Invariant_alloc seen b item (lastSegment (item_path item)) Hinv) as [_ Hfresh1].
  set (node := mkCell (lastSegment (item_path item)) _ _ _ _) in *.
  set (b1 := mkBuilder (heap b ++ [node]) (root b) (own b) (proto b)) in *.
  set (b2 := mapSet b1 (item_path item) (length (heap b))) in *.
  assert (Fresh (length (heap b)) b2) as Hfresh2 by (by apply Fresh_mapSet).
  assert (heap b2 !! length (heap b) = Some node) as Hnode.
  { unfold b2. rewrite heap_mapSet. by apply list_lookup_middle. }
  destruct parts as [| part parts'] eqn:Hparts; [by apply Shape_pushRoot |].
  pose proof (parentPath_parts _ _ _ Hparts) as Hparent.
  set (parentPath := JS.join "/" (part :: parts')) in *.
  destruct (mapGet b2 parentPath) as [| s | parent | |] eqn:Hget.
  - by apply Shape_pushRoot.
  - destruct (JS.truthy s); [done | by apply Shape_pushRoot].
  - apply mapGet_VNode in Hget as [[Hk Hp] | [Hk Hp]].
    + destruct (shape_proto _ Hshape2 parent Hp) as (cp & Hcp & Hpath).
      apply (Shape_pushChild b2 parent _ cp node); try done.
      simpl. by rewrite Hpath, <- Hk.
    + destruct (shape_own _ Hshape2 _ parent Hp) as (cp & Hcp & Hpath).
      apply (Shape_pushChild b2 parent _ cp node); try done.
      simpl. by rewrite Hpath.
  - done.
  - done.
Qed.

Lemma foldl_addItem_Shape (items seen : list GitHubTreeItem) (b : Builder) :
  Invariant seen b → Shape b → Shape (foldl addItem b items).
Proof.
  revert seen b. induction items as [| item items IH]; intros seen b Hinv Hshape; [done |].
  simpl. apply (IH (seen ++ [item])).
  - by apply addItem_Invariant.
  - by eapply addItem_Shape.
Qed.

Lemma addItem_keys (b : Builder) (item : GitHubTreeItem) :
  cellKey <$> heap (addItem b item) = (cellKey <$> heap b) ++ [itemKey item].
Proof.
  assert (∀ b' parent r, cellKey <$> heap (pushChild b' parent r) = cellKey <$> heap b')
    as Hpush.
  { intros b' parent r. simpl.
    rewrite (list_fmap_alter cellKey _ id); [by rewrite list_alter_id |].
    by apply Forall_true. }
  unfold addItem.
  set (node := mkCell _ _ _ _ _).
  set (b2 := mapSet _ _ _).
  assert (cellKey <$> heap b2 = (cellKey <$> heap b) ++ [itemKey item]) as Hb2.
  { unfold b2. rewrite heap_mapSet. simpl. by rewrite fmap_app. }
  destruct (removelast _) as [| part parts']; [done |].
  destruct (mapGet b2 _) as [| s | parent | |]; try done.
  - by destruct (JS.truthy s).
  - by rewrite Hpush.
Qed.

Lemma foldl_addItem_keys (items : list GitHubTreeItem) (b : Builder) :
  cellKey <$> heap (foldl addItem b items) = (cellKey <$> heap b) ++ (itemKey <$> items).
Proof.
  revert b. induction items as [| item items IH]; intros b; simpl.
  { by rewrite app_nil_r. }
  rewrite IH, addItem_keys, <- app_assoc. done.
Qed.

Lemma nodeKeys_unfold (t : TreeNode) :
  nodeKeys t = (path t, type t, sha t) :: match children t with
                                          | Some kids => kids ≫= nodeKeys
                                          | None => []
                                          end.
Proof.
  by destruct t as [n p ty sh [kids |]].
Qed.

Lemma bind_all_nil {A B} (f : A → list B) (l : list A) :
  (∀ x, x ∈ l → f x = []) → l ≫= f = [].
Proof.
  induction l as [| x l IH]; intros H; [done |].
  rewrite bind_cons, (H x) by (by left). simpl. apply IH. intros y Hy. apply H. by right.
Qed.

(** The trees of distinct references that no array of a part of the heap
    refers to have no more nodes than that part has cells. *)
Lemma readback_keys (cells : list Cell) (base : nat) (R : list nat) :
  (∀ j c kids, cells !! j = Some c → cell_children c = Some kids →
     Forall (λ k, base + j < k) kids) →
  NoDup (allKids cells) →
  NoDup R →
  (∀ r, r ∈ R → base ≤ r ∧ r ∉ allKids cells) →
  R ≫= descKeys (readback cells base) ⊆+ cellKey <$> cells.
Proof.
  revert base R. induction cells as [| c rest IH]; intros base R Hkids Hnodup HR Hmem.
  { rewrite bind_all_nil; [done |]. intros r _. unfold descKeys.
    by rewrite readback_nil, lookup_empty. }
  rewrite readback_cons. set (later := readback rest (S base)).
  set (ks := default [] (cell_children c)).
  rewrite allKids_cons in Hnodup. fold ks in Hnodup.
  assert (∀ r, r ∈ R → base ≤ r ∧ r ∉ ks ++ allKids rest) as Hmem'.
  { intros r Hr. specialize (Hmem r Hr). by rewrite allKids_cons in Hmem. }
  clear Hmem.
  apply NoDup_app in Hnodup as (Hks & Hdisjoint & Hrest).
  assert (Forall (λ k, S base ≤ k) ks) as Hrange.
  { unfold ks. destruct (cell_children c) as [kids |] eqn:Hc; [| constructor].
    eapply Forall_impl; [exact (Hkids 0 c kids eq_refl Hc) |].
    intros k Hk. cbv beta in Hk. simpl. lia. }
  rewrite Forall_forall in Hrange.
  assert (∀ j c' kids, rest !! j = Some c' → cell_children c' = Some kids →
            Forall (λ k, S base + j < k) kids) as Hkids'.
  { intros j c' kids Hj Hc'. pose proof (Hkids (S j) c' kids Hj Hc') as Hb.
    eapply Forall_impl; [exact Hb |]. intros k Hk. cbv beta in Hk. simpl. lia. }
  set (others := filter (λ r, r ≠ base) R).
  assert (others ≫= descKeys (<[base :=
            mkTreeNode (cell_name c) (cell_path c) (cell_type c) (cell_sha c)
              ((λ kids : list nat, omap (λ r, later !! r) kids) <$> cell_children c)]> later)
          = others ≫= descKeys later) as Hothers.
  { apply bind_ext_in. intros r Hr. unfold others in Hr.
    apply list_elem_of_filter in Hr as [Hne _].
    unfold descKeys. by rewrite lookup_insert_ne. }
  assert (∀ r, r ∈ others → S base ≤ r ∧ r ∉ allKids rest) as Hmem2.
  { intros r Hr. unfold others in Hr. apply list_elem_of_filter in Hr as [Hne Hr].
    destruct (Hmem' r Hr) as [Hle Hnot]. split; [lia |].
    intros Hin. apply Hnot. apply elem_of_app. by right. }
  destruct (decide (base ∈ R)) as [Hbase | Hbase].
  - assert (R ≡ₚ base :: others) as HRperm.
    { apply NoDup_Permutation; [done | |].
      - apply NoDup_cons. split; [| by apply NoDup_filter].
        unfold others. rewrite list_elem_of_filter. by intros [Hne _].
      - intros r. unfold others. rewrite elem_of_cons, list_elem_of_filter.
        destruct (decide (r = base)) as [-> | Hne]; [tauto |].
        split; [intros Hr; by right | by intros [? | [_ ?]]]. }
    assert ((ks ++ others) ≫= descKeys later ⊆+ cellKey <$> rest) as HIH.
    { apply IH; [done | done | |].
      - apply NoDup_app. split; [done |]. split; [| by apply NoDup_filter].
        intros k Hk Hin. unfold others in Hin. apply list_elem_of_filter in Hin as [_ Hin].
        apply (Hmem' k) in Hin as [_ Hin]. apply Hin. apply elem_of_app. by left.
      - intros r Hr. apply elem_of_app in Hr as [Hr | Hr]; [| by apply Hmem2].
        split; [by apply Hrange | by apply Hdisjoint]. }
    rewrite HRperm, bind_cons, fmap_cons, Hothers.
    unfold descKeys at 1. rewrite lookup_insert_eq, nodeKeys_unfold. cbn [path type sha children].
    rewrite bind_app in HIH. unfold ks in HIH.
    simpl. apply submseteq_skip.
    destruct (cell_children c) as [kids |]; simpl; [| exact HIH].
    rewrite omap_bind. exact HIH.
  - rewrite (bind_ext_in _ (descKeys later) R).
    2: { intros r Hr. unfold descKeys. rewrite lookup_insert_ne; [done |]. by intros <-. }
    rewrite fmap_cons. apply submseteq_cons. apply IH; [done | done | done |].
    intros r Hr. destruct (Hmem' r Hr) as [Hle Hnot]. split.
    + assert (r ≠ base) by (by intros ->). lia.
    + intros Hin. apply Hnot. apply elem_of_app. by right.
Qed.

Lemma readback_Shaped (cells : list Cell) (base : nat) :
  (∀ c, c ∈ cells → cell_name c = lastSegment (cell_path c)) →
  (∀ c, c ∈ cells → cell_children c = None ↔ cell_type c = blob) →
  (∀ j c kids j' ck,
     cells !! j = Some c → cell_children c = Some kids → base + j' ∈ kids →
     cells !! j' = Some ck → parentPath (cell_path ck) = Some (cell_path c)) →
  ∀ r t, readback cells base !! r = Some t →
    ∃ j c, r = base + j ∧ cells !! j = Some c ∧ path t = cell_path c ∧ Shaped t.
Proof.
  revert base. induction cells as [| c rest IH]; intros base Hnames Hkind Hparent r t Ht.
  { by rewrite readback_nil, lookup_empty in Ht. }
  rewrite readback_cons in Ht. set (later := readback rest (S base)) in *.
  assert (∀ r' k, later !! r' = Some k →
            ∃ j c', r' = S base + j ∧ rest !! j = Some c' ∧ path k = cell_path c' ∧ Shaped k)
    as Hlater.
  { apply IH.
    - intros c' Hc'. apply Hnames. by right.
    - intros c' Hc'. apply Hkind. by right.
    - intros j c' kids j' ck Hj Hc' Hin Hck.
      apply (Hparent (S j) c' kids (S j') ck); try done.
      by replace (base + S j') with (S base + j') by lia. }
  destruct (decide (r = base)) as [-> | Hne].
  - rewrite lookup_insert_eq in Ht. injection Ht as <-.
    exists 0, c. split; [lia |]. split; [done |]. split; [done |].
    constructor; cbn [name path type sha children].
    + apply Hnames. by left.
    + rewrite fmap_None. apply Hkind. by left.
    + intros kids k Hkids Hk. apply fmap_Some in Hkids as (ks & Hks & ->).
      apply list_elem_of_omap in Hk as (r' & Hr' & Hk).
      destruct (Hlater r' k Hk) as (j' & c' & -> & Hc' & -> & _).
      apply (Hparent 0 c ks (S j') c'); try done.
      by replace (base + S j') with (S base + j') by lia.
    + intros kids k Hkids Hk. apply fmap_Some in Hkids as (ks & Hks & ->).
      apply list_elem_of_omap in Hk as (r' & Hr' & Hk).
      by destruct (Hlater r' k Hk) as (j' & c' & _ & _ & _ & Hshaped).
  - rewrite lookup_insert_ne in Ht by done.
    destruct (Hlater r t Ht) as (j & c' & -> & Hc' & Hpath & Hshaped).
    exists (S j), c'. split; [lia |]. by split.
Qed.

Variable localeCompare : string → string → comparison.

Lemma build_Shape (items : list GitHubTreeItem) : Shape (build localeCompare items).
Proof.
  apply (foldl_addItem_Shape _ [] emptyBuilder); [apply Invariant_empty | apply Shape_empty].
Qed.

(** The nodes under the roots are cells of the heap, each at most once. *)
Lemma build_keys (items : list GitHubTreeItem) :
  root (build localeCompare items)
    ≫= descKeys (readback (heap (build localeCompare items)) 0)
  ⊆+ cellKey <$> heap (build localeCompare items).
Proof.
  pose proof (build_Invariant localeCompare items) as Hinv.
  pose proof (shape_once _ (build_Shape items)) as Honce.
  apply NoDup_app in Honce as (Hroot & Hsep & Hkids).
  apply readback_keys; try done.
  - intros j c kids Hj Hc. destruct (inv_children _ _ Hinv j c kids Hj Hc) as [_ Hb].
    eapply Forall_impl; [exact Hb |]. intros k Hk. cbv beta in Hk. simpl. lia.
  - intros r Hr. split; [lia | by apply Hsep].
Qed.

Lemma build_heap_keys (items : list GitHubTreeItem) :
  cellKey <$> heap (build localeCompare items) ≡ₚ itemKey <$> items.
Proof.
  unfold build. rewrite foldl_addItem_keys. simpl.
  apply fmap_Permutation, sortItems_Permutation.
Qed.

(** X4: whatever the listing and the collation, the forest has no node
    twice and no node of its own making: the nodes of all levels, taken by
    path, type and content identifier, are entries of the listing, each
    entry used at most once. *)
Theorem buildTreeStructure_nodes_are_entries (items : list GitHubTreeItem) :
  forestKeys (buildTreeStructure localeCompare items) ⊆+ itemKey <$> items.
Proof.
  unfold buildTreeStructure, forestKeys. cbv zeta.
  rewrite omap_bind.
  change (root (build localeCompare items)
            ≫= descKeys (readback (heap (build localeCompare items)) 0)
          ⊆+ itemKey <$> items).
  rewrite <- build_heap_keys. apply build_keys.
Qed.

Lemma fmap_bind_list {A B C} (f : B → C) (g : A → list B) (l : list A) :
  f <$> (l ≫= g) = l ≫= (λ x, f <$> g x).
Proof.
  induction l as [| x l IH]; [done |]. by rewrite !bind_cons, fmap_app, IH.
Qed.

Lemma readback_nodePaths (cells : list Cell) (base r : nat) (t : TreeNode) :
  readback cells base !! r = Some t → nodePaths t = (λ k : EntryKey, k.1.1) <$> nodeKeys t.
Proof.
  revert base r t. induction cells as [| c rest IH]; intros base r t Ht.
  { by rewrite readback_nil, lookup_empty in Ht. }
  rewrite readback_cons in Ht.
  destruct (decide (r = base)) as [-> | Hne].
  2: { rewrite lookup_insert_ne in Ht by done. by eapply IH. }
  rewrite lookup_insert_eq in Ht. injection Ht as <-.
  rewrite nodePaths_unfold, nodeKeys_unfold. cbn [path type sha children].
  rewrite fmap_cons. f_equal.
  destruct (cell_children c) as [kids |]; [| done]. simpl.
  rewrite fmap_bind_list. apply bind_ext_in. intros k Hk.
  apply list_elem_of_omap in Hk as (r' & _ & Hk). by eapply IH.
Qed.

(** X20: when the paths of the listing are pairwise distinct, so are the
    paths of all nodes of the forest, whatever the collation: no two
    nodes, siblings or not, share the path that the tree view takes as
    their key. *)
Theorem buildTreeStructure_distinct_paths (items : list GitHubTreeItem) :
  NoDup (item_path <$> items) → NoDup (forestPaths (buildTreeStructure localeCompare items)).
Proof.
  intros Hdistinct.
  assert (forestPaths (buildTreeStructure localeCompare items) ⊆+ item_path <$> items) as Hsub.
  { unfold buildTreeStructure, forestPaths. cbv zeta. rewrite omap_bind.
    set (b := build localeCompare items).
    rewrite (bind_ext_in _ (λ r, (λ k : EntryKey, k.1.1) <$> descKeys (readback (heap b) 0) r)).
    2: { intros r _. unfold descKeys.
         destruct (readback (heap b) 0 !! r) as [t |] eqn:Ht; [| done].
         by eapply readback_nodePaths. }
    rewrite <- fmap_bind_list.
    replace (item_path <$> items) with ((λ k : EntryKey, k.1.1) <$> (itemKey <$> items)).
    2: { rewrite <- list_fmap_compose. done. }
    apply fmap_submseteq. rewrite <- build_heap_keys. apply build_keys. }
  apply submseteq_Permutation in Hsub as [rest Hrest].
  rewrite Hrest in Hdistinct. by apply NoDup_app in Hdistinct as [? _].
Qed.

(** X5: whatever the listing and the collation, every node of the forest,
    at every level, is named by the last segment of its path, has a
    [children] array exactly when it is a directory, and holds as children
    only nodes whose path without its last segment is the node's own
    path. *)
Theorem buildTreeStructure_well_shaped (items : list GitHubTreeItem) :
  Forall Shaped (buildTreeStructure localeCompare items).
Proof.
  pose proof (build_Invariant localeCompare items) as Hinv.
  pose proof (build_Shape items) as Hshape.
  unfold buildTreeStructure. cbv zeta. set (b := build localeCompare items) in *.
  apply Forall_forall. intros t Ht.
  apply list_elem_of_omap in Ht as (r & _ & Ht).
  destruct (readback_Shaped (heap b) 0 (shape_names _ Hshape) (shape_kind _ Hshape)) with r t
    as (j & c & _ & _ & _ & Hshaped); try done.
  intros j c kids j' ck Hj Hc Hin Hck. by eapply (shape_parent _ Hshape).
Qed.

End TreeBuilderShape.

(** ** URL parser: what a result is made of *)

Section UrlParserResults.
Import UrlParser.

Lemma skipClass_run (cls : ascii → bool) (s : string) :
  ∃ run, s = run +:+ skipClass cls s ∧ allOf cls run = true.
Proof.
  induction s as [| c s IH]; [by exists EmptyString |].
  simpl. destruct (cls c) eqn:Hc; [| by exists EmptyString].
  destruct IH as (run & Hs & Hrun). exists (String c run).
  split; [| simpl; by rewrite Hc].
  change (String c s = String c (run +:+ skipClass cls s)). by f_equal.
Qed.

Lemma append_empty (s : string) : s +:+ EmptyString = s.
Proof.
  induction s as [| c s IH]; [done |].
  change (String c (s +:+ EmptyString) = String c s). by rewrite IH.
Qed.

Lemma matchPlus_run (cls : ascii → bool) (s rest : string) :
  matchPlus cls s = Some rest →
  ∃ run, s = run +:+ rest ∧ allOf cls run = true ∧ run ≠ EmptyString.
Proof.
  destruct s as [| c s]; [done |]. simpl.
  destruct (cls c) eqn:Hc; [| done]. intros [= <-].
  destruct (skipClass_run cls s) as (run & Hs & Hrun).
  exists (String c run).
  split; [| split; [simpl; by rewrite Hc | done]].
  change (String c s = String c (run +:+ skipClass cls s)). by f_equal.
Qed.

Lemma allOf_impl (cls cls' : ascii → bool) (s : string) :
  (∀ c, cls c = true → cls' c = true) → allOf cls s = true → allOf cls' s = true.
Proof.
  intros Himpl. induction s as [| c s IH]; [done |]. simpl.
  rewrite !andb_true_iff. intros [Hc Hs]. split; [by apply Himpl | by apply IH].
Qed.

Lemma repoClass_not_slash (c : ascii) : repoClass c = true → negb (Ascii.eqb c "/") = true.
Proof.
  destruct (Ascii.eqb c "/") eqn:Hc; [| done].
  apply Ascii.eqb_eq in Hc as ->. by vm_compute.
Qed.

Lemma ownerClass_not_slash (c : ascii) : ownerClass c = true → negb (Ascii.eqb c "/") = true.
Proof.
  destruct (Ascii.eqb c "/") eqn:Hc; [| done].
  apply Ascii.eqb_eq in Hc as ->. by vm_compute.
Qed.

Lemma split_no_sep (sep : ascii) (s : string) :
  allOf (λ c, negb (Ascii.eqb c sep)) s = true → JS.split sep s = [s].
Proof.
  induction s as [| c s IH]; [done |]. simpl.
  rewrite andb_true_iff, negb_true_iff. intros [-> Hs]. by rewrite (IH Hs).
Qed.

Lemma split_at_sep (sep : ascii) (a b : string) :
  allOf (λ c, negb (Ascii.eqb c sep)) a = true →
  JS.split sep (a +:+ String sep b) = a :: JS.split sep b.
Proof.
  induction a as [| c a IH]; simpl.
  - by rewrite Ascii.eqb_refl.
  - rewrite andb_true_iff, negb_true_iff. intros [-> Ha]. by rewrite (IH Ha).
Qed.

Lemma split_parts_no_sep (sep : ascii) (s part : string) :
  part ∈ JS.split sep s → allOf (λ c, negb (Ascii.eqb c sep)) part = true.
Proof.
  revert part. induction s as [| c s IH]; intros part; simpl.
  - by intros ->%list_elem_of_singleton.
  - destruct (Ascii.eqb c sep) eqn:Hc.
    + intros [-> | Hin]%elem_of_cons; [done | by apply IH].
    + destruct (JS.split sep s) as [| first parts].
      * intros ->%list_elem_of_singleton. simpl. by rewrite Hc.
      * intros [-> | Hin]%elem_of_cons.
        -- simpl. rewrite Hc. simpl. apply IH. by left.
        -- apply IH. by right.
Qed.

Lemma no_sep_not_included (s : string) :
  allOf (λ c, negb (Ascii.eqb c "/")) s = true → JS.includes s "/" = false.
Proof.
  induction s as [| c s IH]; [done |].
  change (allOf (λ c, negb (Ascii.eqb c "/")) (String c s))
    with (negb (Ascii.eqb c "/") && allOf (λ c, negb (Ascii.eqb c "/")) s).
  change (JS.includes (String c s) "/")
    with ((if ascii_dec "/" c then String.prefix "" s else false) || JS.includes s "/").
  rewrite andb_true_iff, negb_true_iff. intros [Hc Hs]. rewrite (IH Hs), orb_false_r.
  destruct (ascii_dec "/" c) as [<- | Hne]; [| done].
  by rewrite Ascii.eqb_refl in Hc.
Qed.

(** X6: an input whose preprocessed form matches the pattern of the short
    form is accepted without the [URL] constructor being asked: the owner
    and the repository are the two parts around its only slash, neither is
    empty, and each is made of the code units of its class. *)
Theorem parseRepoUrl_short_form (URL : string → option URLRecord) (input : string) :
  simplePattern_test (preprocess input) = true →
  ∃ o r, parseRepoUrl URL input = Some (mkRepoId o r)
         ∧ preprocess input = o +:+ "/" +:+ r
         ∧ o ≠ EmptyString ∧ r ≠ EmptyString
         ∧ allOf ownerClass o = true ∧ allOf repoClass r = true.
Proof.
  intros Hpat. unfold parseRepoUrl. cbv zeta. rewrite Hpat.
  unfold simplePattern_test in Hpat.
  destruct (matchPlus ownerClass (preprocess input)) as [rest |] eqn:Ho; [| done].
  destruct rest as [| c rest]; [done |].
  destruct (Ascii.eqb c "/") eqn:Hc.
  2: { exfalso. destruct c as [[] [] [] [] [] [] [] []]; try done. }
  apply Ascii.eqb_eq in Hc as ->.
  destruct (matchPlus repoClass rest) as [rest' |] eqn:Hr; [| done].
  destruct rest' as [| ? ?]; [| done].
  apply matchPlus_run in Ho as (o & Hs & Ho & Hone).
  apply matchPlus_run in Hr as (r & Hrest & Hr & Hrne).
  rewrite append_empty in Hrest. subst rest.
  exists o, r. rewrite Hs.
  rewrite split_at_sep by (eapply allOf_impl; [apply ownerClass_not_slash | done]).
  rewrite split_no_sep by (eapply allOf_impl; [apply repoClass_not_slash | done]).
  done.
Qed.

Lemma parseFullUrl_parts (URL : string → option URLRecord) (url : string) (id : RepoId) :
  parseFullUrl URL url = Some id →
  ∃ s, owner id ∈ JS.split "/" s ∧ repo id ∈ JS.split "/" s
       ∧ owner id ≠ EmptyString ∧ repo id ≠ EmptyString.
Proof.
  unfold parseFullUrl. destruct (URL url) as [urlObj |]; [| done].
  destruct (JS.includes _ _); [| done]. cbv zeta.
  destruct (filter _ _) as [| o [| r rest]] eqn:Hparts; try done.
  intros [= <-]. simpl. exists (pathname urlObj).
  assert (o ∈ filter (λ p, JS.truthy p = true) (JS.split "/" (pathname urlObj))) as Ho
    by (rewrite Hparts; by left).
  assert (r ∈ filter (λ p, JS.truthy p = true) (JS.split "/" (pathname urlObj))) as Hr
    by (rewrite Hparts; right; by left).
  apply list_elem_of_filter in Ho as [Ho1 Ho2]. apply list_elem_of_filter in Hr as [Hr1 Hr2].
  repeat split; try done; by intros ->.
Qed.

(** X7: whatever the [URL] constructor of the host answers, the owner and
    the repository of a result hold no slash. *)
Theorem parseRepoUrl_no_slash (URL : string → option URLRecord) (input : string) (id : RepoId) :
  parseRepoUrl URL input = Some id →
  JS.includes (owner id) "/" = false ∧ JS.includes (repo id) "/" = false.
Proof.
  intros Hid.
  assert (∃ s, owner id ∈ JS.split "/" s ∧ repo id ∈ JS.split "/" s) as (s & Ho & Hr).
  { unfold parseRepoUrl in Hid. cbv zeta in Hid.
    assert (∀ url, parseFullUrl URL url = Some id →
              ∃ s, owner id ∈ JS.split "/" s ∧ repo id ∈ JS.split "/" s) as Hfull.
    { intros url Hurl. apply parseFullUrl_parts in Hurl as (s & ? & ? & _). by exists s. }
    destruct (simplePattern_test _).
    - destruct (JS.split "/" (preprocess input)) as [| o [| r rest]] eqn:Hparts; try done.
      injection Hid as <-. exists (preprocess input). rewrite Hparts. simpl.
      split; [by left | right; by left].
    - destruct (negb _); [| by eapply Hfull].
      destruct (JS.includes _ _); [by eapply Hfull |].
      destruct (JS.split "/" (preprocess input)) as [| o [| r [| x rest]]] eqn:Hparts;
        try (by eapply Hfull).
      injection Hid as <-. exists (preprocess input). rewrite Hparts. simpl.
      split; [by left | right; by left]. }
  split; apply no_sep_not_included; by eapply split_parts_no_sep.
Qed.

Lemma parseRepoUrl_short_form_witness :
  ∃ o r, parseRepoUrl URL_http " facebook/react.git " = Some (mkRepoId o r)
         ∧ preprocess " facebook/react.git " = o +:+ "/" +:+ r
         ∧ o ≠ EmptyString ∧ r ≠ EmptyString
         ∧ allOf ownerClass o = true ∧ allOf repoClass r = true.
Proof. apply (parseRepoUrl_short_form URL_http " facebook/react.git "). reflexivity. Defined.

Lemma parseRepoUrl_no_slash_witness :
  JS.includes "facebook" "/" = false ∧ JS.includes "react" "/" = false.
Proof.
  apply (parseRepoUrl_no_slash URL_http "https://github.com/facebook/react/tree/main"
           (mkRepoId "facebook" "react")).
  reflexivity.
Defined.

End UrlParserResults.

(** ** Loading a repository: how the handler ends *)

Section AppOutcomes.
Import Http UrlParser TreeBuilder App.

Variable URL : string → option URLRecord.
Variable localeCompare : string → string → comparison.
Variable fetchRepoDetails : string → string → Outcome RepoDetails.
Variable fetchBranches : string → string → Outcome (list GitHubBranch).
Variable fetchTree : string → string → string → Outcome (list GitHubTreeItem).
Variable analyzeRepoArchitecture : list string → string.

#[local] Abbreviation fetchRepoTree :=
  (App.fetchRepoTree localeCompare fetchTree analyzeRepoArchitecture).
#[local] Abbreviation handleFetchRepo :=
  (App.handleFetchRepo URL localeCompare fetchRepoDetails fetchBranches fetchTree
     analyzeRepoArchitecture).

#[local] Arguments findBranch : simpl never.

Lemma messageOr_not_empty (e : Error) (fallback : string) :
  fallback ≠ EmptyString → messageOr e fallback ≠ EmptyString.
Proof.
  intros Hfallback. unfold messageOr.
  destruct (message e) as [| c rest]; [done |]. simpl. done.
Qed.

Lemma fetchRepoTree_Settled (render : Model) (owner repo branchName : string) (m : Model) :
  errorMsg m = None → Settled (fetchRepoTree render owner repo branchName m).
Proof.
  intros Hmsg. unfold App.fetchRepoTree.
  destruct (findBranch branchName (branches render)) as [branch |].
  - destruct (fetchTree owner repo (commit_sha (branch_commit branch))) as [rawTree | e].
    + right. right. by repeat split.
    + left. split; [done |]. eexists. split; [done |]. by apply messageOr_not_empty.
  - left. split; [done |]. eexists. split; [done |]. by apply messageOr_not_empty.
Qed.

(** X8: a load that got past the parsing of the input never ends in one of
    the loading states: the state is [ERROR] with a message that is not
    empty, or [SELECTING_BRANCH] with no message, or [VIEWING] with no
    message and the analysis no longer marked as running. *)
Theorem handleFetchRepo_settles (render m : Model) (parsed : RepoId) :
  JS.truthy (JS.trim (urlInput render)) = true →
  parseRepoUrl URL (urlInput render) = Some parsed →
  Settled (handleFetchRepo render m).
Proof.
  intros Hinput Hparsed. unfold App.handleFetchRepo. rewrite Hinput, Hparsed. simpl.
  destruct (fetchRepoDetails (owner parsed) (repo parsed)) as [details | e].
  2: { left. split; [done |]. eexists. split; [done |]. by apply messageOr_not_empty. }
  destruct (fetchBranches (owner parsed) (repo parsed)) as [[| first others] | e].
  - right. left. by split.
  - by apply fetchRepoTree_Settled.
  - left. split; [done |]. eexists. split; [done |]. by apply messageOr_not_empty.
Qed.

(** X9: the handler calls the [fetchRepoTree] of its own render, which
    looks the branch up in the branch list of that render, not in the list
    just fetched. From a render with no branches the load of a
    repository with branches ends in [ERROR] with the message of the
    missing branch, whatever the tree request would answer; the fetched
    summary and branch list are kept, the tree stays empty. *)
Theorem handleFetchRepo_stale_branches
    (render m : Model) (parsed : RepoId) (details : RepoDetails)
    (first : GitHubBranch) (others : list GitHubBranch) :
  JS.truthy (JS.trim (urlInput render)) = true →
  parseRepoUrl URL (urlInput render) = Some parsed →
  fetchRepoDetails (owner parsed) (repo parsed) = Return details →
  fetchBranches (owner parsed) (repo parsed) = Return (first :: others) →
  branches render = [] →
  let m' := handleFetchRepo render m in
  appState m' = ERROR ∧ errorMsg m' = Some "Branch not found"
  ∧ repoDetails m' = Some details ∧ branches m' = first :: others
  ∧ treeData m' = [] ∧ allItems m' = [] ∧ aiAnalysis m' = None.
Proof.
  intros Hinput Hparsed Hdetails Hbranches Hrender.
  unfold App.handleFetchRepo. rewrite Hinput, Hparsed, Hdetails, Hbranches. simpl.
  unfold App.fetchRepoTree. rewrite Hrender. simpl. done.
Qed.

End AppOutcomes.

(** ** The export dialog *)

Section ExportDialog.
Import Http UrlParser TreeBuilder App.

#[local] Abbreviation toCandidate :=
  (λ item : GitHubTreeItem, mkCandidate (item_path item) (item_sha item) true).

Lemma isInteresting_spec (item : GitHubTreeItem) :
  isInteresting item = true ↔
  item_type item = blob
  ∧ ∃ ext, ext ∈ interestingExtensions ∧ JS.endsWith (item_path item) ext = true.
Proof.
  unfold isInteresting. rewrite andb_true_iff, bool_decide_eq_true, existsb_exists.
  split; intros [Hty (ext & Hin & Hext)]; (split; [done |]); exists ext.
  - split; [by apply list_elem_of_In | done].
  - split; [by apply list_elem_of_In | done].
Qed.

(** X10: the export dialog opens with at most thirty candidates, all of
    them selected, so that all of them would be processed; they are the
    first files of the listing of the render, in its order, that are of
    type [blob] and have a path that ends in one of the eighteen
    extensions; and when the listing has no more than thirty such files,
    every one of them is a candidate. *)
Theorem handleOpenExport_candidates (render : Model) (d : Controls) :
  let d' := handleOpenExport render d in
  let files := filter (λ item, isInteresting item = true) (allItems render) in
  showExportModal d' = true
  ∧ length (exportCandidates d') ≤ 30
  ∧ Forall (λ c, selected c = true) (exportCandidates d')
  ∧ filesToProcess d' = exportCandidates d'
  ∧ exportCandidates d' `prefix_of` (toCandidate <$> files)
  ∧ (cand_path <$> exportCandidates d') `sublist_of` (item_path <$> allItems render)
  ∧ (∀ item, item ∈ files ↔
       item ∈ allItems render ∧ item_type item = blob
       ∧ ∃ ext, ext ∈ interestingExtensions ∧ JS.endsWith (item_path item) ext = true)
  ∧ (length files ≤ 30 → exportCandidates d' = toCandidate <$> files).
Proof.
  intros d' files. unfold d', handleOpenExport. cbv zeta. fold files.
  unfold filesToProcess. simpl.
  assert (Forall (λ c, selected c = true) (toCandidate <$> take 30 files)) as Hsel.
  { apply Forall_fmap. by apply Forall_true. }
  split; [done |].
  split; [rewrite length_fmap, length_take; lia |].
  split; [done |].
  split.
  { induction Hsel as [| c cs Hc _ IH]; [done |]. rewrite filter_cons_True by done.
    by rewrite IH. }
  split; [rewrite fmap_take; apply prefix_take |].
  split.
  { rewrite <- list_fmap_compose.
    change (cand_path ∘ toCandidate) with item_path.
    apply fmap_sublist. etrans; [apply sublist_take | apply sublist_filter]. }
  split.
  { intros item. unfold files. rewrite list_elem_of_filter, isInteresting_spec. tauto. }
  intros Hfew. by rewrite take_ge.
Qed.

Lemma toggle_selected (path : string) (cs : list ExportFileCandidate) :
  Forall (λ c, selected c = true) cs →
  filter (λ c, selected c = true)
    ((λ c, if String.eqb (cand_path c) path
           then mkCandidate (cand_path c) (cand_sha c) (negb (selected c))
           else c) <$> cs)
  = filter (λ c, cand_path c ≠ path) cs.
Proof.
  induction 1 as [| c cs Hc _ IH]; [done |].
  rewrite fmap_cons. destruct (String.eqb (cand_path c) path) eqn:Hp.
  - apply String.eqb_eq in Hp.
    rewrite filter_cons_False by (simpl; rewrite Hc; done).
    rewrite (filter_cons_False (λ c, cand_path c ≠ path)) by (by intros ?).
    exact IH.
  - apply String.eqb_neq in Hp.
    rewrite filter_cons_True by done.
    rewrite (filter_cons_True (λ c, cand_path c ≠ path)) by done.
    by rewrite IH.
Qed.

(** X11: a click on a path in the dialog just opened takes exactly the
    candidates of that path out of what would be processed; a second click
    on the same path undoes the first, whatever the state of the dialog;
    and no click changes the paths or the identifiers of the candidates. *)
Theorem toggleExportFile_click (render : Model) (d : Controls) (path : string) :
  filesToProcess (toggleExportFile path (handleOpenExport render d))
  = filter (λ c, cand_path c ≠ path) (exportCandidates (handleOpenExport render d))
  ∧ toggleExportFile path (toggleExportFile path d) = d
  ∧ cand_path <$> exportCandidates (toggleExportFile path d) = cand_path <$> exportCandidates d
  ∧ cand_sha <$> exportCandidates (toggleExportFile path d) = cand_sha <$> exportCandidates d.
Proof.
  split.
  { unfold filesToProcess, toggleExportFile. simpl.
    apply toggle_selected. apply Forall_fmap. by apply Forall_true. }
  destruct d as [tok generating settings input export cs].
  unfold toggleExportFile, setExportCandidates. simpl.
  split; [f_equal | split].
  - rewrite <- list_fmap_compose. rewrite <- (list_fmap_id cs) at 2.
    apply list_fmap_ext. intros i [p sh sel] _. simpl.
    destruct (String.eqb p path) eqn:Hp; simpl; [| by rewrite Hp].
    rewrite Hp. by rewrite negb_involutive.
  - rewrite <- list_fmap_compose. apply list_fmap_ext. intros i c _. simpl.
    by destruct (String.eqb (cand_path c) path).
  - rewrite <- list_fmap_compose. apply list_fmap_ext. intros i c _. simpl.
    by destruct (String.eqb (cand_path c) path).
Qed.

End ExportDialog.

(** ** The token and the settings dialog *)

Section TokenSettings.
Import Http UrlParser TreeBuilder App Auth.

Variable URL : string → option URLRecord.
Variable localeCompare : string → string → comparison.
Variable fetchRepoDetails : string → string → Outcome RepoDetails.
Variable fetchBranches : string → string → Outcome (list GitHubBranch).
Variable fetchTree : string → string → string → Outcome (list GitHubTreeItem).
Variable analyzeRepoArchitecture : list string → string.

#[local] Abbreviation handleFetchRepo :=
  (App.handleFetchRepo URL localeCompare fetchRepoDetails fetchBranches fetchTree
     analyzeRepoArchitecture).
#[local] Abbreviation handleSaveToken :=
  (App.handleSaveToken URL localeCompare fetchRepoDetails fetchBranches fetchTree
     analyzeRepoArchitecture).

(** X12: the headers of every request: [Accept] is the media type of the
    client, whatever the caller and the storage hold; [Authorization] is
    the bearer form of the stored token when one is stored and is not
    empty, and the caller's own otherwise; every other header is the
    caller's. *)
Theorem requestHeaders_spec (storage : Storage) (optionsHeaders : gmap string string) :
  requestHeaders storage optionsHeaders !! "Accept" = Some "application/vnd.github.v3+json"
  ∧ requestHeaders storage optionsHeaders !! "Authorization"
    = match getGitHubToken storage with
      | Some (String c t) => Some ("Bearer " +:+ String c t)
      | _ => optionsHeaders !! "Authorization"
      end
  ∧ ∀ k, k ≠ "Accept" → k ≠ "Authorization" →
      requestHeaders storage optionsHeaders !! k = optionsHeaders !! k.
Proof.
  unfold requestHeaders. cbv zeta. split; [by rewrite lookup_insert_eq |]. split.
  - rewrite lookup_insert_ne by done.
    destruct (getGitHubToken storage) as [[| c t] |]; simpl.
    + by rewrite (left_id_L ∅ (∪)).
    + apply lookup_union_Some_l. by rewrite lookup_singleton_eq.
    + by rewrite (left_id_L ∅ (∪)).
  - intros k Haccept Hauth. rewrite lookup_insert_ne by done.
    destruct (getGitHubToken storage) as [[| c t] |]; simpl.
    + by rewrite (left_id_L ∅ (∪)).
    + rewrite lookup_union_r; [done |]. by rewrite lookup_singleton_ne.
    + by rewrite (left_id_L ∅ (∪)).
Qed.

(** X13: saving the token of the dialog marks a token as present and
    closes the dialog in every case. A token that is not empty is stored
    and authorises every later request. An empty one leaves the storage as
    it was, a token stored before included. Clearing removes the stored
    token and nothing else from the storage, empties the field, and later
    requests carry no [Authorization] but the caller's own. *)
Theorem token_settings (loadRender render : Model) (renderControls : Controls)
    (m : Model) (d : Controls) (storage : Storage) :
  let saved := handleSaveToken loadRender render renderControls m d storage in
  let cleared := handleClearToken d storage in
  (hasToken saved.1.2 = true ∧ showSettingsModal saved.1.2 = false)
  ∧ (tokenInput renderControls ≠ EmptyString →
       getGitHubToken saved.2 = Some (tokenInput renderControls)
       ∧ ∀ optionsHeaders,
           requestHeaders saved.2 optionsHeaders !! "Authorization"
           = Some ("Bearer " +:+ tokenInput renderControls))
  ∧ (tokenInput renderControls = EmptyString → saved.2 = storage)
  ∧ (hasToken cleared.1 = false ∧ showSettingsModal cleared.1 = false
     ∧ tokenInput cleared.1 = EmptyString)
  ∧ getGitHubToken cleared.2 = None
  ∧ (∀ k, k ≠ TOKEN_KEY → cleared.2 !! k = storage !! k)
  ∧ ∀ optionsHeaders,
      requestHeaders cleared.2 optionsHeaders !! "Authorization"
      = optionsHeaders !! "Authorization".
Proof.
  intros saved cleared. unfold saved, cleared, App.handleSaveToken, handleClearToken.
  cbv zeta. simpl.
  split; [done |]. split.
  { intros Hinput. unfold setGitHubToken.
    destruct (tokenInput renderControls) as [| c t] eqn:Ht; [done |]. simpl.
    assert (getGitHubToken (<[TOKEN_KEY := String c t]> storage) = Some (String c t)) as Hget.
    { unfold getGitHubToken. apply lookup_insert_eq. }
    split; [done |]. intros optionsHeaders.
    destruct (requestHeaders_spec (<[TOKEN_KEY := String c t]> storage) optionsHeaders)
      as (_ & Hauth & _).
    by rewrite Hauth, Hget. }
  split.
  { intros Hinput. unfold setGitHubToken. by rewrite Hinput. }
  split; [done |].
  assert (getGitHubToken (removeGitHubToken storage) = None) as Hget.
  { unfold getGitHubToken, removeGitHubToken. apply lookup_delete_eq. }
  split; [done |]. split.
  { intros k Hk. unfold removeGitHubToken. by apply lookup_delete_ne. }
  intros optionsHeaders.
  destruct (requestHeaders_spec (removeGitHubToken storage) optionsHeaders) as (_ & Hauth & _).
  by rewrite Hauth, Hget.
Qed.

(** X14: when the render shows the error of a load that the forge refused,
    saving a token loads the repository again if the refusal was one of the
    rate limit, status 403 or 429; after 404 and after 401, the status of
    bad credentials, the state of the load stays as it is. *)
Theorem handleSaveToken_retry (loadRender render : Model) (renderControls : Controls)
    (m : Model) (d : Controls) (storage : Storage) (response : Response) (e : Error) :
  handleApiResponse response = Throw e →
  ok response = false →
  appState render = ERROR →
  errorMsg render = Some (message e) →
  let m' := (handleSaveToken loadRender render renderControls m d storage).1.1 in
  (status response = 403 ∨ status response = 429 → m' = handleFetchRepo loadRender m)
  ∧ (status response = 404 ∨ status response = 401 → m' = m).
Proof.
  intros Hresponse Hok Hstate Hmsg m'. unfold m', App.handleSaveToken. cbv zeta. simpl.
  rewrite Hstate, Hmsg. unfold handleApiResponse in Hresponse. rewrite Hok in Hresponse.
  split.
  - intros Hstatus.
    assert ((status response =? 403) || (status response =? 429) = true) as Hlimit.
    { destruct Hstatus as [-> | ->]; reflexivity. }
    rewrite Hlimit in Hresponse. injection Hresponse as <-. reflexivity.
  - intros [Hstatus | Hstatus]; rewrite Hstatus in Hresponse; simpl in Hresponse;
      injection Hresponse as <-; reflexivity.
Qed.

End TokenSettings.

(** ** Analysis and documentation: what reaches the model *)

Section GeminiProperties.
Import Http Gemini.

Variable generateContent : string → string → Outcome (option string).

Lemma length_substring_0 (n : nat) (s : string) :
  String.length (String.substring 0 n s) = n `min` String.length s.
Proof.
  revert n. induction s as [| c s IH]; intros [| n]; try done.
  simpl. by rewrite IH.
Qed.

Lemma substring_0_append (n : nat) (a b : string) :
  n ≤ String.length a → String.substring 0 n (a +:+ b) = String.substring 0 n a.
Proof.
  revert n. induction a as [| c a IH]; intros [| n] Hn; simpl in *; try done.
  - by destruct b.
  - lia.
  - rewrite IH; [done | lia].
Qed.

Lemma substring_0_idemp (n : nat) (s : string) :
  String.substring 0 n (String.substring 0 n s) = String.substring 0 n s.
Proof.
  revert n. induction s as [| c s IH]; intros [| n]; try done.
  simpl. by rewrite IH.
Qed.

Lemma substring_0_all (n : nat) (s : string) :
  String.length s ≤ n → String.substring 0 n s = s.
Proof.
  revert n. induction s as [| c s IH]; intros [| n] Hn; simpl in *; try done; try lia.
  rewrite IH; [done | lia].
Qed.

Lemma contentToAnalyze_long (fileContent : string) :
  contentLimit < String.length fileContent →
  contentToAnalyze fileContent
  = String.substring 0 contentLimit fileContent +:+ newline +:+ "...[File Truncated]".
Proof.
  intros Hlong. unfold contentToAnalyze.
  by destruct (Nat.ltb_spec contentLimit (String.length fileContent)); [| lia].
Qed.

Lemma contentToAnalyze_short (fileContent : string) :
  String.length fileContent ≤ contentLimit → contentToAnalyze fileContent = fileContent.
Proof.
  intros Hshort. unfold contentToAnalyze.
  by destruct (Nat.ltb_spec contentLimit (String.length fileContent)); [lia |].
Qed.

(** X15: the analysis is a function of the first three hundred paths: the
    paths after them never reach the prompt. With no key, or an empty
    one, the result is the sentence about the missing key, and the model
    is not asked. *)
Theorem analyzeRepoArchitecture_window (apiKey : option string) (filePaths : list string) :
  analyzeRepoArchitecture apiKey generateContent filePaths
  = analyzeRepoArchitecture apiKey generateContent (take 300 filePaths)
  ∧ analyzeRepoArchitecture None generateContent filePaths
    = "Failed to analyze repository structure: API Key is missing."
  ∧ analyzeRepoArchitecture (Some EmptyString) generateContent filePaths
    = "Failed to analyze repository structure: API Key is missing.".
Proof.
  split; [| by split].
  unfold analyzeRepoArchitecture, simplifyTreeForPrompt. cbv zeta.
  by rewrite take_idemp.
Qed.

(** X16: of a file, the documentation prompt holds the first hundred
    thousand code units, unchanged, and at most twenty more: a file that is
    no longer than the limit is taken whole, and two files longer than the
    limit that agree up to it get the same documentation. With no key, or
    an empty one, the result is the sentence about the missing key. *)
Theorem generateCodeDocumentation_truncation (apiKey : option string)
    (fileName fileContent : string) :
  String.length (contentToAnalyze fileContent) ≤ contentLimit + 20
  ∧ String.substring 0 contentLimit (contentToAnalyze fileContent)
    = String.substring 0 contentLimit fileContent
  ∧ (String.length fileContent ≤ contentLimit → contentToAnalyze fileContent = fileContent)
  ∧ (∀ other,
       contentLimit < String.length fileContent → contentLimit < String.length other →
       String.substring 0 contentLimit other = String.substring 0 contentLimit fileContent →
       generateCodeDocumentation apiKey generateContent fileName other
       = generateCodeDocumentation apiKey generateContent fileName fileContent)
  ∧ generateCodeDocumentation None generateContent fileName fileContent
    = "Failed to generate documentation: API Key is missing."
  ∧ generateCodeDocumentation (Some EmptyString) generateContent fileName fileContent
    = "Failed to generate documentation: API Key is missing.".
Proof.
  destruct (Nat.le_gt_cases (String.length fileContent) contentLimit) as [Hshort | Hlong].
  - rewrite (contentToAnalyze_short _ Hshort).
    split; [lia |]. split; [done |]. split; [done |]. split; [| by split].
    intros other Hlong. lia.
  - rewrite (contentToAnalyze_long _ Hlong).
    split.
    { rewrite !length_append, length_substring_0.
      change (String.length newline) with 1.
      change (String.length "...[File Truncated]") with 19. lia. }
    split.
    { rewrite substring_0_append; [apply substring_0_idemp |].
      rewrite length_substring_0. lia. }
    split; [lia |]. split; [| by split].
    intros other _ Hother Hsame. unfold generateCodeDocumentation.
    by rewrite (contentToAnalyze_long _ Hlong), (contentToAnalyze_long _ Hother), Hsame.
Qed.

End GeminiProperties.

(** ** The documentation panel *)

Section DocumentationPanel.
Import Http ContentFetch TreeBuilder App.

Variable atob : string → Outcome string.
Variable utf8Decode : string → string.
Variable nullPropertyMessage notFunctionMessage : string.
Variable net : Network.
Variable generateCodeDocumentation : string → string → string.

(** What awaiting [fetchFileContent] settles to on the forge [net]. *)
#[local] Abbreviation fetched :=
  (λ owner repo path ref sha,
     (run net [] (ContentFetch.fetchFileContent atob utf8Decode nullPropertyMessage
                    notFunctionMessage owner repo path ref sha)).1).
#[local] Abbreviation handleFileSelect :=
  (App.handleFileSelect fetched generateCodeDocumentation).

Lemma fetchFileContent_ends (owner repo path ref : string) (sha : option string) :
  (∃ text, fetched owner repo path ref sha = Return text)
  ∨ (∃ e, fetched owner repo path ref sha = Throw e
          ∧ (JS.includes (message e) "Rate Limit" = true ∨ e = ContentUnavailable)).
Proof.
  destruct (run_contentsStrategy atob utf8Decode nullPropertyMessage notFunctionMessage
              net owner repo path ref) as (o1 & Hrun1 & [-> | [[text ->] | (e & -> & He)]]).
  - destruct (fetchFileContent_after_contents atob utf8Decode nullPropertyMessage
                notFunctionMessage net owner repo path ref sha Hrun1) as [Hnone Hsome].
    destruct sha as [[| c s] |].
    + right. exists ContentUnavailable. rewrite Hnone by (by right). split; [done | by right].
    + destruct (Hsome (String c s) eq_refl eq_refl) as (outcome & -> & Hcases). simpl.
      destruct Hcases as [-> | [(e & -> & He) | (r2 & data & c' & text & _ & _ & _ & _ & _ & ->)]].
      * right. exists ContentUnavailable. split; [done | by right].
      * right. exists e. split; [done | by left].
      * left. by exists text.
    + right. exists ContentUnavailable. rewrite Hnone by (by left). split; [done | by right].
  - left. exists text.
    unfold ContentFetch.fetchFileContent, mbind, Async_bind. by rewrite run_bind, Hrun1.
  - right. exists e. split; [| by left].
    unfold ContentFetch.fetchFileContent, mbind, Async_bind. by rewrite run_bind, Hrun1.
Qed.

(** X17: a click on a directory, or on the file that the render shows as
    selected, changes nothing. Any other click selects the file, shows the
    documentation tab and ends with the marker of running generation off;
    with no repository loaded the panel stays empty. With one, the content
    is fetched for the owner and the name of the repository, the path and
    the content identifier of the file and the selected branch of the
    render: the panel holds the documentation generated for the name of
    the file and the content that was fetched, or, when the fetch failed,
    the sentence of the error with its message, which names the rate limit
    or is that of content that could not be fetched. *)
Theorem handleFileSelect_panel (render : Model) (node : TreeNode) (m : Model) (d : Controls) :
  let after := handleFileSelect render node m d in
  (type node = tree ∨ isSelectedFile node (selectedFile render) = true → after = (m, d))
  ∧ (type node = blob → isSelectedFile node (selectedFile render) = false →
     isGeneratingDoc after.2 = false
     ∧ selectedFile after.1 = Some node ∧ activeTab after.1 = docs
     ∧ (repoDetails render = None → fileDoc after.1 = None)
     ∧ (∀ details, repoDetails render = Some details →
        match fetched (details_owner details) (details_name details) (path node)
                (selectedBranch render) (Some (sha node)) with
        | Return content =>
            fileDoc after.1 = Some (generateCodeDocumentation (name node) content)
        | Throw e =>
            fileDoc after.1 = Some ("Error generating docs: " +:+ message e)
            ∧ (JS.includes (message e) "Rate Limit" = true ∨ e = ContentUnavailable)
        end)).
Proof.
  intros after. unfold after, App.handleFileSelect. split.
  - intros [-> | Hsame]; [done |]. rewrite Hsame. by destruct (type node).
  - intros -> ->. cbv zeta.
    destruct (repoDetails render) as [details |].
    2: { repeat split; try done. }
    pose proof (fetchFileContent_ends (details_owner details) (details_name details)
                  (path node) (selectedBranch render) (Some (sha node))) as Hends.
    cbv beta in Hends.
    assert (∀ details', Some details = Some details' → details' = details) as Hsame
      by (by intros ? [= <-]).
    split; [done |].
    refine (conj _ (conj _ (conj _ _))).
    1-3: by destruct Hends as [(text & ->) | (e & -> & He)].
    intros details' ->%Hsame.
    destruct Hends as [(text & ->) | (e & -> & He)]; [done |].
    split; [done |]. destruct He as [He | ->]; [by left | by right].
Qed.

End DocumentationPanel.

(** ** The calls of the forge client *)

Section ForgeCalls.
Import Http ContentFetch Forge.

Variable nullPropertyMessage undefinedPropertyMessage : string → string.

#[local] Abbreviation read := (Forge.read nullPropertyMessage undefinedPropertyMessage).
#[local] Abbreviation fetchRepoDetails :=
  (Forge.fetchRepoDetails nullPropertyMessage undefinedPropertyMessage).
#[local] Abbreviation fetchTree :=
  (Forge.fetchTree nullPropertyMessage undefinedPropertyMessage).

Lemma run_githubFetch {A} (net : Network) (log : list string) (url : string)
    (k : Response → Async A) :
  run net log (bind (githubFetch url) k)
  = match net log url with
    | Return response => run net (log ++ [url]) (k response)
    | Throw e => (Throw e, log ++ [url])
    end.
Proof. simpl. by destruct (net log url). Qed.

Lemma run_lift {A B} (net : Network) (log : list string) (o : Outcome A) (k : A → Async B) :
  run net log (bind (lift o) k)
  = match o with
    | Return a => run net log (k a)
    | Throw e => (Throw e, log)
    end.
Proof. by destruct o. Qed.

Lemma run_fetchBranches (net : Network) (log : list string) (owner repo : string) :
  run net log (fetchBranches owner repo)
  = (answer net log (branchesUrl owner repo), log ++ [branchesUrl owner repo]).
Proof.
  unfold answer, fetchBranches, mbind, Async_bind. rewrite run_githubFetch.
  by destruct (net log (branchesUrl owner repo)).
Qed.

Lemma run_fetchTree (net : Network) (log : list string) (owner repo sha : string) :
  run net log (fetchTree owner repo sha)
  = (match answer net log (treeUrl owner repo sha) with
     | Return data =>
         match read (Some data) "truncated" with
         | Return _ => read (Some data) "tree"
         | Throw e => Throw e
         end
     | Throw e => Throw e
     end, log ++ [treeUrl owner repo sha]).
Proof.
  unfold answer, Forge.fetchTree, mbind, Async_bind. rewrite run_githubFetch.
  destruct (net log (treeUrl owner repo sha)) as [response | e]; [| done].
  rewrite run_lift. destruct (handleApiResponse response) as [data | e]; [| done].
  rewrite run_lift. by destruct (read (Some data) "truncated").
Qed.

Lemma run_fetchRepoDetails (net : Network) (log : list string) (owner repo : string) :
  run net log (fetchRepoDetails owner repo)
  = (match answer net log (repoUrl owner repo) with
     | Return data =>
         match read (Some data) "owner" with
         | Return dataOwner =>
             match read dataOwner "login" with
             | Return login =>
                 let fields := match data with JObject fields => fields | _ => [] end in
                 Return (mkSummary login (field "name" fields) (field "description" fields)
                           (field "stargazers_count" fields) (field "forks_count" fields)
                           (field "default_branch" fields))
             | Throw e => Throw e
             end
         | Throw e => Throw e
         end
     | Throw e => Throw e
     end, log ++ [repoUrl owner repo]).
Proof.
  unfold answer, Forge.fetchRepoDetails, mbind, Async_bind. rewrite run_githubFetch.
  destruct (net log (repoUrl owner repo)) as [response | e]; [| done].
  rewrite run_lift. destruct (handleApiResponse response) as [data | e]; [| done].
  rewrite run_lift. destruct (read (Some data) "owner") as [dataOwner | e] eqn:Howner; [| done].
  rewrite run_lift. destruct (read dataOwner "login") as [login | e]; [| done].
  by destruct data.
Qed.

(** X18: each of the three calls makes one request, to its own address,
    whatever the forge answers, and ends with the error of the request or
    of the response check when there is one. Otherwise the branches are
    the payload as it is; the tree of a payload that is an object is its
    [tree], whatever its [truncated] says; and the summary is returned
    exactly when the payload is an object with an [owner] that is not
    [null]: every other payload ends the call with an error of the
    engine. *)
Theorem forge_calls (net : Network) (log : list string) (owner repo sha : string) :
  let branches := run net log (fetchBranches owner repo) in
  let tree := run net log (fetchTree owner repo sha) in
  let details := run net log (fetchRepoDetails owner repo) in
  (branches.2 = log ++ [branchesUrl owner repo]
   ∧ tree.2 = log ++ [treeUrl owner repo sha]
   ∧ details.2 = log ++ [repoUrl owner repo])
  ∧ branches.1 = answer net log (branchesUrl owner repo)
  ∧ (∀ e, answer net log (treeUrl owner repo sha) = Throw e → tree.1 = Throw e)
  ∧ (∀ e, answer net log (repoUrl owner repo) = Throw e → details.1 = Throw e)
  ∧ (∀ fields, answer net log (treeUrl owner repo sha) = Return (JObject fields) →
       tree.1 = Return (field "tree" fields))
  ∧ (∀ data, answer net log (repoUrl owner repo) = Return data →
       (∃ summary, details.1 = Return summary)
       ↔ ∃ fields dataOwner,
           data = JObject fields ∧ field "owner" fields = Some dataOwner
           ∧ dataOwner ≠ JNull).
Proof.
  intros branches tree details. unfold branches, tree, details.
  rewrite run_fetchBranches, run_fetchTree, run_fetchRepoDetails. simpl.
  split; [done |]. split; [done |].
  split; [by intros e -> |]. split; [by intros e -> |].
  split; [by intros fields -> |].
  intros data ->. split.
  - intros [summary Hsummary].
    destruct data as [| | | | | fields]; try done.
    simpl in Hsummary. destruct (field "owner" fields) as [dataOwner |] eqn:Howner; [| done].
    exists fields, dataOwner. repeat split; try done. by intros ->.
  - intros (fields & dataOwner & -> & Howner & Hnull). simpl. rewrite Howner.
    destruct dataOwner; try done; by eexists.
Qed.

End ForgeCalls.

(** ** The view after a change of branch *)

Section BranchView.
Import Http UrlParser TreeBuilder App Gemini.

Variable localeCompare : string → string → comparison.
Variable fetchTree : string → string → string → Outcome (list GitHubTreeItem).
Variable apiKey : option string.
Variable generateContent : string → string → Outcome (option string).

#[local] Abbreviation analyzeRepoArchitecture :=
  (Gemini.analyzeRepoArchitecture apiKey generateContent).
#[local] Abbreviation handleBranchChange :=
  (App.handleBranchChange localeCompare fetchTree analyzeRepoArchitecture).

#[local] Arguments findBranch : simpl never.

(** X19: the choice of a branch of the render's list, when its tree is
    fetched, ends in the view of that branch. The listing that the state
    keeps is the fetched one as [buildTreeStructure] has sorted it,
    directories first, and the analysis is the one of the first three
    hundred paths of that sorted listing. A message of an earlier error
    stays in the state. *)
Theorem handleBranchChange_view
    (render m : Model) (newBranch : string) (details : RepoDetails)
    (branch : GitHubBranch) (rawTree : list GitHubTreeItem) :
  repoDetails render = Some details →
  findBranch newBranch (branches render) = Some branch →
  fetchTree (details_owner details) (details_name details) (commit_sha (branch_commit branch))
  = Return rawTree →
  let m' := handleBranchChange render newBranch m in
  selectedBranch m' = newBranch ∧ appState m' = VIEWING ∧ errorMsg m' = errorMsg m
  ∧ allItems m' = sortItems localeCompare rawTree ∧ allItems m' ≡ₚ rawTree
  ∧ treeData m' = buildTreeStructure localeCompare rawTree
  ∧ isAnalyzing m' = false
  ∧ aiAnalysis m'
    = Some (analyzeRepoArchitecture (item_path <$> take 300 (sortItems localeCompare rawTree))).
Proof.
  intros Hdetails Hbranch Htree m'. unfold m', App.handleBranchChange, fetchRepoTree.
  cbv zeta. rewrite Hdetails, Hbranch, Htree. simpl.
  repeat split; try done.
  - apply sortItems_Permutation.
  - f_equal. unfold Gemini.analyzeRepoArchitecture, simplifyTreeForPrompt. cbv zeta.
    by rewrite fmap_take, take_idemp.
Qed.

End BranchView.

(** ** The token over a reload of the page *)

Section TokenReload.
Import Http UrlParser TreeBuilder App Auth.

Variable URL : string → option URLRecord.
Variable localeCompare : string → string → comparison.
Variable fetchRepoDetails : string → string → Outcome RepoDetails.
Variable fetchBranches : string → string → Outcome (list GitHubBranch).
Variable fetchTree : string → string → string → Outcome (list GitHubTreeItem).
Variable analyzeRepoArchitecture : list string → string.

#[local] Abbreviation handleSaveToken :=
  (App.handleSaveToken URL localeCompare fetchRepoDetails fetchBranches fetchTree
     analyzeRepoArchitecture).

(** X21: what the page shows after a reload, against what it showed before
    it. A token that was saved and is not empty is shown as present, with
    the token in the field. After an empty field was saved over an empty
    storage the page had the token marked as present; reloaded, it has
    not. After clearing, the reloaded page has no token. *)
Theorem token_after_reload (loadRender render : Model) (renderControls : Controls)
    (m : Model) (d : Controls) (storage : Storage) :
  let saved := handleSaveToken loadRender render renderControls m d storage in
  let cleared := handleClearToken d storage in
  (tokenInput renderControls ≠ EmptyString →
     hasToken (onMount saved.2 initialControls) = true
     ∧ tokenInput (onMount saved.2 initialControls) = tokenInput renderControls)
  ∧ (tokenInput renderControls = EmptyString → getGitHubToken storage = None →
     hasToken saved.1.2 = true ∧ hasToken (onMount saved.2 initialControls) = false)
  ∧ onMount cleared.2 initialControls = initialControls.
Proof.
  intros saved cleared. unfold saved, cleared, App.handleSaveToken, handleClearToken.
  cbv zeta. simpl. split; [| split].
  - intros Hinput. unfold setGitHubToken, onMount.
    destruct (tokenInput renderControls) as [| c t] eqn:Ht; [done |]. simpl.
    assert (getGitHubToken (<[TOKEN_KEY := String c t]> storage) = Some (String c t)) as ->.
    { unfold getGitHubToken. apply lookup_insert_eq. }
    done.
  - intros Hinput Hnone. unfold setGitHubToken, onMount. rewrite Hinput. simpl.
    by rewrite Hnone.
  - unfold onMount.
    assert (getGitHubToken (removeGitHubToken storage) = None) as ->.
    { unfold getGitHubToken, removeGitHubToken. apply lookup_delete_eq. }
    done.
Qed.

End TokenReload.

(** ** White space around the input *)

Section InputWhiteSpace.
Import UrlParser.

Lemma trimEnd_idemp (s : string) : JS.trimEnd (JS.trimEnd s) = JS.trimEnd s.
Proof.
  induction s as [| c s IH]; [done |]. simpl.
  destruct (JS.trimEnd s) as [| c' t] eqn:Hs.
  - destruct (JS.isWhiteSpace c) eqn:Hc; [done |]. simpl. by rewrite Hc.
  - change (JS.trimEnd (String c (String c' t)))
      with (match JS.trimEnd (String c' t) with
            | EmptyString =>
                if JS.isWhiteSpace c then EmptyString else String c EmptyString
            | t' => String c t'
            end).
    by rewrite IH.
Qed.

Lemma trimStart_head (s : string) :
  JS.trimStart s = EmptyString
  ∨ ∃ c t, JS.trimStart s = String c t ∧ JS.isWhiteSpace c = false.
Proof.
  induction s as [| c s IH]; [by left |]. simpl.
  destruct (JS.isWhiteSpace c) eqn:Hc; [done |]. right. by exists c, s.
Qed.

Lemma trimEnd_head (c : ascii) (t : string) :
  JS.isWhiteSpace c = false → ∃ t', JS.trimEnd (String c t) = String c t'.
Proof.
  intros Hc. simpl. destruct (JS.trimEnd t); rewrite ?Hc; by eexists.
Qed.

Lemma trim_idemp (s : string) : JS.trim (JS.trim s) = JS.trim s.
Proof.
  unfold JS.trim. destruct (trimStart_head s) as [-> | (c & t & -> & Hc)]; [done |].
  destruct (trimEnd_head c t Hc) as [t' Ht']. rewrite Ht'.
  change (JS.trimStart (String c t')) with (if JS.isWhiteSpace c then JS.trimStart t' else String c t').
  rewrite Hc, <- Ht'. apply trimEnd_idemp.
Qed.

(** X22: white space around the input never matters: the input and the
    input without the white space at its ends parse to the same result,
    whatever the [URL] constructor answers. *)
Theorem parseRepoUrl_trim (URL : string → option URLRecord) (input : string) :
  parseRepoUrl URL (JS.trim input) = parseRepoUrl URL input.
Proof.
  unfold parseRepoUrl, preprocess. cbv zeta. by rewrite trim_idemp.
Qed.

End InputWhiteSpace.

(** ** Instances *)

Section Instances.
Import Http UrlParser TreeBuilder App Host.

Lemma handleFetchRepo_settles_witness :
  Settled
    (handleFetchRepo URL_http codeUnitCompare (λ _ _, Return (reactDetails "main"))
       (λ _ _, Return [devBranch; mainBranch]) (λ _ _ _, Return []) (λ _, "")
       firstRender firstRender).
Proof.
  apply (handleFetchRepo_settles URL_http codeUnitCompare
           (λ _ _, Return (reactDetails "main")) (λ _ _, Return [devBranch; mainBranch])
           (λ _ _ _, Return []) (λ _, "") firstRender firstRender
           (mkRepoId "facebook" "react")); reflexivity.
Defined.

Lemma handleFetchRepo_stale_branches_witness :
  let m' :=
    handleFetchRepo URL_http codeUnitCompare (λ _ _, Return (reactDetails "main"))
      (λ _ _, Return [devBranch; mainBranch]) (λ _ _ _, Return [entry "README.md" blob])
      (λ _, "") firstRender firstRender in
  appState m' = ERROR ∧ errorMsg m' = Some "Branch not found"
  ∧ repoDetails m' = Some (reactDetails "main") ∧ branches m' = [devBranch; mainBranch]
  ∧ treeData m' = [] ∧ allItems m' = [] ∧ aiAnalysis m' = None.
Proof.
  apply (handleFetchRepo_stale_branches URL_http codeUnitCompare
           (λ _ _, Return (reactDetails "main")) (λ _ _, Return [devBranch; mainBranch])
           (λ _ _ _, Return [entry "README.md" blob]) (λ _, "") firstRender firstRender
           (mkRepoId "facebook" "react") (reactDetails "main") devBranch [mainBranch]);
    reflexivity.
Defined.

Lemma handleSaveToken_retry_witness :
  let render := setErrorMsg (Some (message RateLimitExceeded)) (setAppState ERROR firstRender) in
  let fetchDetails := λ _ _ : string, Return (reactDetails "main") in
  let fetchBranches := λ _ _ : string, Return [devBranch; mainBranch] in
  let fetchTree := λ _ _ _ : string, Return [entry "README.md" blob] in
  let m' :=
    (handleSaveToken URL_http codeUnitCompare fetchDetails fetchBranches fetchTree (λ _, "")
       firstRender render (mkControls false false true "ghp_token" false []) render
       (mkControls false false true "ghp_token" false []) ∅).1.1 in
  (403 = 403 ∨ 403 = 429 →
   m' = handleFetchRepo URL_http codeUnitCompare fetchDetails fetchBranches fetchTree (λ _, "")
          firstRender render)
  ∧ (403 = 404 ∨ 403 = 401 → m' = render).
Proof.
  intros render fetchDetails fetchBranches fetchTree.
  apply (handleSaveToken_retry URL_http codeUnitCompare fetchDetails fetchBranches fetchTree
           (λ _, "") firstRender render (mkControls false false true "ghp_token" false []) render
           (mkControls false false true "ghp_token" false []) ∅
           (mkResponse 403 "Forbidden" (Return JNull)) RateLimitExceeded); reflexivity.
Defined.

Lemma handleBranchChange_view_witness :
  let render :=
    setBranches [devBranch; mainBranch] (setRepoDetails (Some (reactDetails "main")) firstRender) in
  let rawTree := [entry "README.md" blob; entry "src" tree; entry "src/index.js" blob] in
  let fetchTree := λ _ _ _ : string, Return rawTree in
  let generateContent := λ _ prompt : string, Return (Some prompt) in
  let m' :=
    handleBranchChange codeUnitCompare fetchTree
      (Gemini.analyzeRepoArchitecture (Some "key") generateContent) render "dev" render in
  selectedBranch m' = "dev" ∧ appState m' = VIEWING ∧ errorMsg m' = errorMsg render
  ∧ allItems m' = sortItems codeUnitCompare rawTree ∧ allItems m' ≡ₚ rawTree
  ∧ treeData m' = buildTreeStructure codeUnitCompare rawTree
  ∧ isAnalyzing m' = false
  ∧ aiAnalysis m'
    = Some (Gemini.analyzeRepoArchitecture (Some "key") generateContent
              (item_path <$> take 300 (sortItems codeUnitCompare rawTree))).
Proof.
  intros render rawTree fetchTree generateContent.
  apply (handleBranchChange_view codeUnitCompare fetchTree (Some "key") generateContent
           render render "dev" (reactDetails "main") devBranch rawTree); reflexivity.
Defined.

Lemma buildTreeStructure_distinct_paths_witness :
  NoDup (forestPaths (buildTreeStructure codeUnitCompare
           [entry "src/index.js" blob; entry "README.md" blob; entry "src" tree])).
Proof.
  apply (buildTreeStructure_distinct_paths codeUnitCompare
           [entry "src/index.js" blob; entry "README.md" blob; entry "src" tree]).
  apply (bool_decide_unpack _). by vm_compute.
Defined.

End Instances.
